(** * claude-go: the credential vault and the self-updater

    A shallow embedding of [internal/vault] (vault.go) and [internal/update]
    (updater.go).  Go strings are [string], byte slices are [list Byte.byte],
    maps are [gmap].  The operating system is an explicit [World]: a
    directory tree, a supply of random bytes and a clock.  Functions that
    return [error] return a sum; methods with a pointer receiver take the
    receiver and return the mutated one. *)

From Stdlib Require Import ZArith String Ascii List Lia Bool.
From stdpp Require Import gmap strings list sorting.

Set Warnings "-register-all".
Local Open Scope string_scope.
Local Open Scope nat_scope.
Local Open Scope list_scope.

Definition bytes := list Byte.byte.

(** ** Strings *)

Module Str.

(** [strings.Split(s, sep)] for a one-byte separator: the pieces between
    the separators, an empty piece included ([Split("", ".")] is [[""]]). *)
Fixpoint split (sep : ascii) (s : string) : list string :=
  match s with
  | EmptyString => [EmptyString]
  | String c s' =>
      if Ascii.eqb c sep then EmptyString :: split sep s'
      else match split sep s' with
           | [] => [String c EmptyString]
           | h :: t => String c h :: t
           end
  end.

(** [strings.HasPrefix] and [strings.HasSuffix]. *)
Definition HasPrefix (s p : string) : bool := String.prefix p s.

Definition HasSuffix (s x : string) : bool :=
  (String.length x <=? String.length s)%nat &&
  String.eqb (String.substring (String.length s - String.length x) (String.length x) s) x.

Lemma length_append (s1 s2 : string) :
  String.length (String.append s1 s2) = String.length s1 + String.length s2.
Proof. induction s1 as [|c s1 IH]; simpl; [done|]. by rewrite IH. Qed.

Lemma split_nonempty sep s : split sep s ≠ [].
Proof.
  destruct s as [|c s]; simpl; [done|].
  destruct (Ascii.eqb c sep); [done|]. by destruct (split sep s).
Qed.

End Str.

(** ** The directory tree *)

Module FS.

(** A cleaned absolute path, by components: ["/media/usb/bin"] is
    [["media"; "usb"; "bin"]] and the root is [[]]. *)
Definition path := list string.

Inductive node : Type :=
  | File (content : bytes)
  | Dir (children : gmap string node).

Inductive errno := ENOENT | ENOTDIR | EISDIR | ENOTEMPTY | EINVAL | EEXIST.

Fixpoint get (p : path) (t : node) : option node :=
  match p with
  | [] => Some t
  | c :: p' =>
      match t with
      | Dir m => m !! c ≫= get p'
      | File _ => None
      end
  end.

(** Rewrite the directory entry at [p]: [f] receives what is there and
    returns what shall be there.  Nothing changes when the directory that
    would hold the entry does not exist. *)
Fixpoint palter (f : option node → option node) (p : path) (t : node) : node :=
  match p, t with
  | [], _ => t
  | [c], Dir m => Dir (partial_alter f c m)
  | c :: p', Dir m => Dir (alter (palter f p') c m)
  | _ :: _, File _ => t
  end.

Definition put (p : path) (n : node) : node → node := palter (λ _, Some n) p.
Definition del (p : path) : node → node := palter (λ _, None) p.

Definition is_dir (o : option node) : bool :=
  match o with Some (Dir _) => true | _ => false end.

Definition is_file (o : option node) : bool :=
  match o with Some (File _) => true | _ => false end.

(** [filepath.Dir] of a cleaned path. *)
Definition parent (p : path) : path := removelast p.

(** One step of [filepath.Clean] over a component: empty and ["."]
    components vanish, [".."] removes the component before it (and
    vanishes at the root). *)
Definition clean_step (stack : path) (c : string) : path :=
  if String.eqb c "" then stack
  else if String.eqb c "." then stack
  else if String.eqb c ".." then removelast stack
  else stack ++ [c].

(** [filepath.Join(dir, name)] for a cleaned absolute [dir]: the
    components of [name] are appended and the result is cleaned. *)
Definition Join (dir : path) (name : string) : path :=
  fold_left clean_step (Str.split "/" name) dir.

(** [path + ext] on the string of a path: the last component grows. *)
Definition add_ext (p : path) (ext : string) : path :=
  match p with
  | [] => [ext]
  | _ => removelast p ++ [String.append (List.last p "") ext]
  end.

(** *** System calls *)

(** The error of a lookup that fails: a file on the way is [ENOTDIR], a
    missing name is [ENOENT]. *)
Fixpoint lookup_error (p : path) (t : node) : errno :=
  match p, t with
  | _ :: _, File _ => ENOTDIR
  | c :: p', Dir m =>
      match m !! c with
      | Some n => lookup_error p' n
      | None => ENOENT
      end
  | [], _ => ENOENT
  end.

Definition Stat (p : path) (t : node) : errno + node :=
  match get p t with Some n => inr n | None => inl (lookup_error p t) end.

Definition ReadFile (p : path) (t : node) : errno + bytes :=
  match get p t with
  | Some (File c) => inr c
  | Some (Dir _) => inl EISDIR
  | None => inl (lookup_error p t)
  end.

(** [os.WriteFile] and [os.OpenFile(O_WRONLY|O_CREATE|O_TRUNC)] followed by
    writes: the directory must exist, the name must not be a directory. *)
Definition WriteFile (p : path) (c : bytes) (t : node) : errno + node :=
  match p with
  | [] => inl EISDIR
  | _ =>
      if negb (is_dir (get (parent p) t)) then inl (lookup_error p t)
      else if is_dir (get p t) then inl EISDIR
      else inr (put p (File c) t)
  end.

(** [os.MkdirAll]: creates the missing directories along [p]; fails when a
    component on the way is a file. *)
Fixpoint mkdirAll (p : path) (t : node) : option node :=
  match t with
  | File _ => None
  | Dir m =>
      match p with
      | [] => Some t
      | c :: p' =>
          child ← mkdirAll p' (default (Dir ∅) (m !! c));
          Some (Dir (<[c := child]> m))
      end
  end.

Definition MkdirAll (p : path) (t : node) : errno + node :=
  match mkdirAll p t with Some t' => inr t' | None => inl ENOTDIR end.

Definition no_entries (m : gmap string node) : bool := bool_decide (size m = 0).

(** [os.Rename] (rename(2)): a file replaces a file, a directory replaces
    only an empty directory, nothing moves below itself. *)
Definition Rename (old new : path) (t : node) : errno + node :=
  match get old t with
  | None => inl (lookup_error old t)
  | Some n =>
      if bool_decide (old = new) then inr t
      else if bool_decide (old = []) || bool_decide (new = []) then inl EINVAL
      else if bool_decide (old `prefix_of` new) then inl EINVAL
      else if negb (is_dir (get (parent new) t)) then inl (lookup_error new t)
      else
        let moved := put new n (del old t) in
        match n, get new t with
        | File _, Some (Dir _) => inl EISDIR
        | Dir _, Some (File _) => inl ENOTDIR
        | Dir _, Some (Dir m) => if no_entries m then inr moved else inl ENOTEMPTY
        | _, _ => inr moved
        end
  end.

(** [os.Remove]: a file or an empty directory. *)
Definition Remove (p : path) (t : node) : errno + node :=
  match p, get p t with
  | [], _ => inl EINVAL
  | _, None => inl (lookup_error p t)
  | _, Some (File _) => inr (del p t)
  | _, Some (Dir m) => if no_entries m then inr (del p t) else inl ENOTEMPTY
  end.

(** [os.RemoveAll]: removes the entry and everything below it; a missing
    entry is not an error. *)
Definition RemoveAll (p : path) (t : node) : node := del p t.

(** *** Algebra of [get] and [palter] *)

Local Arguments palter : simpl never.

Lemma get_app p q t : get (p ++ q) t = get p t ≫= get q.
Proof.
  revert t. induction p as [|c p IH]; intros t; simpl; [done|].
  destruct t as [|m]; [done|]. destruct (m !! c); simpl; auto.
Qed.

Lemma get_snoc_dir d c t m :
  get d t = Some (Dir m) → get (d ++ [c]) t = m !! c.
Proof. intros H. rewrite get_app, H. simpl. by destruct (m !! c). Qed.

Lemma get_snoc_not_dir d c t :
  is_dir (get d t) = false → get (d ++ [c]) t = None.
Proof.
  intros H. rewrite get_app. destruct (get d t) as [[|m]|]; simpl in *; done.
Qed.

Lemma palter_cons f c p t :
  p ≠ [] → palter f (c :: p) t =
    match t with Dir m => Dir (alter (palter f p) c m) | File _ => t end.
Proof. destruct p; [done|]. by destruct t. Qed.

Lemma palter_single f c t :
  palter f [c] t =
    match t with Dir m => Dir (partial_alter f c m) | File _ => t end.
Proof. by destruct t. Qed.

Lemma get_palter_eq f p t :
  p ≠ [] → is_dir (get (parent p) t) = true →
  get p (palter f p t) = f (get p t).
Proof.
  unfold parent. revert t. induction p as [|c p IH]; intros t Hp Hd; [done|].
  destruct p as [|c' p].
  - rewrite palter_single. destruct t as [|m]; [done|]. cbn [get].
    rewrite lookup_partial_alter_eq.
    destruct (m !! c); simpl; by destruct (f _).
  - rewrite palter_cons by done.
    change (removelast (c :: c' :: p)) with (c :: removelast (c' :: p)) in Hd.
    destruct t as [|m]; [done|].
    cbn [get] in *. rewrite lookup_alter_eq.
    destruct (m !! c) as [n|]; [|done]. simpl in *. by apply IH.
Qed.

Lemma get_palter_ne f p q t :
  ¬ p `prefix_of` q → ¬ q `prefix_of` p →
  get q (palter f p t) = get q t.
Proof.
  revert q t. induction p as [|c p IH]; intros q t Hpq Hqp.
  - destruct Hpq. apply prefix_nil.
  - destruct q as [|c' q]; [destruct Hqp; apply prefix_nil|].
    destruct t as [|m]; [by destruct p|].
    destruct (decide (c = c')) as [->|Hc].
    + destruct p as [|c2 p]; [destruct Hpq; by apply prefix_cons, prefix_nil|].
      rewrite palter_cons by done. cbn [get]. rewrite lookup_alter_eq.
      destruct (m !! c') as [n|]; [|done]. simpl. apply IH.
      * intros H. apply Hpq. by apply prefix_cons.
      * intros H. apply Hqp. by apply prefix_cons.
    + destruct p as [|c2 p].
      * rewrite palter_single. cbn [get]. by rewrite lookup_partial_alter_ne.
      * rewrite palter_cons by done. cbn [get]. by rewrite lookup_alter_ne.
Qed.

Lemma is_dir_get_palter f p q t :
  q `prefix_of` p → q ≠ p →
  is_dir (get q (palter f p t)) = is_dir (get q t).
Proof.
  revert q t. induction p as [|c p IH]; intros q t Hqp Hne.
  - apply prefix_nil_inv in Hqp. done.
  - destruct q as [|c' q].
    + simpl. destruct p; [rewrite palter_single|rewrite palter_cons by done];
        by destruct t.
    + apply prefix_cons_inv_1 in Hqp as Hc. subst c'.
      apply prefix_cons_inv_2 in Hqp.
      destruct p as [|c2 p].
      { apply prefix_nil_inv in Hqp. by subst. }
      rewrite palter_cons by done. destruct t as [|m]; [done|].
      cbn [get]. rewrite lookup_alter_eq. destruct (m !! c) as [n|]; [|done].
      simpl. apply IH; [done|congruence].
Qed.

Lemma palter_compose f g p t :
  palter f p (palter g p t) = palter (f ∘ g) p t.
Proof.
  revert t. induction p as [|c p IH]; intros t; [done|].
  destruct p as [|c2 p].
  - rewrite !palter_single. destruct t as [|m]; [done|]. f_equal.
    by rewrite partial_alter_partial_alter_eq.
  - rewrite !palter_cons by done. destruct t as [|m]; [done|].
    f_equal. unfold alter, map_alter. rewrite partial_alter_partial_alter_eq.
    apply partial_alter_ext. intros [n|] _; simpl; [|done]. f_equal. apply IH.
Qed.

Lemma palter_ext f g p t :
  f (get p t) = g (get p t) → palter f p t = palter g p t.
Proof.
  revert t. induction p as [|c p IH]; intros t H; [done|].
  destruct p as [|c2 p].
  - rewrite !palter_single. destruct t as [|m]; [done|]. cbn [get] in H. f_equal.
    apply partial_alter_ext. intros x Hx. rewrite <-Hx.
    by destruct (m !! c).
  - rewrite !palter_cons by done. destruct t as [|m]; [done|]. f_equal.
    apply partial_alter_ext. intros [n|] Hn; simpl; [|done]. f_equal.
    apply IH. cbn [get] in H. by rewrite Hn in H.
Qed.

Lemma palter_id f p t :
  f (get p t) = get p t → palter f p t = t.
Proof.
  revert t. induction p as [|c p IH]; intros t H; [done|].
  destruct p as [|c2 p].
  - rewrite palter_single. destruct t as [|m]; [done|]. cbn [get] in H. f_equal.
    apply partial_alter_id. by destruct (m !! c).
  - rewrite palter_cons by done. destruct t as [|m]; [done|]. f_equal.
    cbn [get] in H. apply map_eq. intros k.
    destruct (decide (k = c)) as [->|Hk].
    + rewrite lookup_alter_eq. destruct (m !! c) as [n|]; [|done].
      simpl in *. f_equal. by apply IH.
    + by rewrite lookup_alter_ne.
Qed.

Lemma palter_commute f g p q t :
  ¬ p `prefix_of` q → ¬ q `prefix_of` p →
  palter f p (palter g q t) = palter g q (palter f p t).
Proof.
  revert q t. induction p as [|c p IH]; intros q t Hpq Hqp.
  - destruct Hpq. apply prefix_nil.
  - destruct q as [|c' q]; [destruct Hqp; apply prefix_nil|].
    destruct (decide (c = c')) as [->|Hc].
    + destruct p as [|c2 p]; [destruct Hpq; by apply prefix_cons, prefix_nil|].
      destruct q as [|c3 q]; [destruct Hqp; by apply prefix_cons, prefix_nil|].
      rewrite !palter_cons by done. destruct t as [|m]; [done|]. f_equal.
      unfold alter, map_alter. rewrite !partial_alter_partial_alter_eq.
      apply partial_alter_ext. intros [n|] _; simpl; [|done]. f_equal.
      apply IH.
      * intros H. apply Hpq. by apply prefix_cons.
      * intros H. apply Hqp. by apply prefix_cons.
    + destruct p as [|c2 p], q as [|c3 q];
        rewrite ?palter_single, ?palter_cons by done;
        destruct t as [|m]; try done; f_equal;
        unfold alter, map_alter; by apply partial_alter_partial_alter_ne.
Qed.

(** Two entries of one directory are not below one another. *)
Lemma sibling_not_prefix (d : path) (c c' : string) :
  c ≠ c' → ¬ (d ++ [c]) `prefix_of` (d ++ [c']).
Proof.
  intros Hc [k Hk]. rewrite <-app_assoc in Hk. apply app_inv_head in Hk.
  simpl in Hk. congruence.
Qed.

Lemma parent_snoc (d : path) (c : string) : parent (d ++ [c]) = d.
Proof. unfold parent. apply removelast_last. Qed.

Lemma add_ext_snoc (d : path) (c ext : string) :
  add_ext (d ++ [c]) ext = d ++ [String.append c ext].
Proof.
  unfold add_ext. rewrite removelast_last, last_last.
  by destruct d.
Qed.

Lemma append_ne (c ext : string) : ext ≠ "" → String.append c ext ≠ c.
Proof.
  intros Hext H. apply (f_equal String.length) in H.
  rewrite Str.length_append in H. destruct ext; [done|]. simpl in H. lia.
Qed.

Lemma snoc_ne_nil (d : path) (c : string) : d ++ [c] ≠ [].
Proof. by destruct d. Qed.

Lemma WriteFile_eq p c t :
  p ≠ [] →
  WriteFile p c t =
    if negb (is_dir (get (parent p) t)) then inl (lookup_error p t)
    else if is_dir (get p t) then inl EISDIR
    else inr (put p (File c) t).
Proof. by destruct p. Qed.

(** Staging a file next to its destination and renaming it over: the
    destination holds the new content, the staging name is gone. *)
Lemma write_rename (d : path) (c c' : string) (content : bytes) (t : node) :
  c ≠ c' →
  is_dir (get d t) = true →
  is_dir (get (d ++ [c]) t) = false →
  is_dir (get (d ++ [c']) t) = false →
  ∃ t1 t2,
    WriteFile (d ++ [c']) content t = inr t1 ∧
    Rename (d ++ [c']) (d ++ [c]) t1 = inr t2 ∧
    get (d ++ [c]) t2 = Some (File content) ∧
    get (d ++ [c']) t2 = None ∧
    is_dir (get d t2) = true.
Proof.
  intros Hc Hd Hp Htmp.
  assert (Hdp : ∀ x, d `prefix_of` d ++ [x]) by (intros; by apply prefix_app_r).
  assert (Hne : ∀ x, d ≠ d ++ [x]).
  { intros x E. apply (f_equal length) in E. rewrite length_app in E. simpl in E. lia. }
  set (t1 := put (d ++ [c']) (File content) t).
  set (t2 := put (d ++ [c]) (File content) (del (d ++ [c']) t1)).
  assert (Hd1 : is_dir (get d t1) = true).
  { unfold t1, put. by rewrite is_dir_get_palter. }
  assert (Hd2 : is_dir (get d (del (d ++ [c']) t1)) = true).
  { unfold del. by rewrite is_dir_get_palter. }
  exists t1, t2. split_and!.
  - rewrite WriteFile_eq by apply snoc_ne_nil.
    by rewrite parent_snoc, Hd, Htmp.
  - unfold Rename.
    assert (get (d ++ [c']) t1 = Some (File content)) as ->.
    { unfold t1, put. rewrite get_palter_eq; [done|apply snoc_ne_nil|].
      by rewrite parent_snoc. }
    rewrite bool_decide_eq_false_2
      by (intros E; apply app_inv_head in E; congruence).
    rewrite (bool_decide_eq_false_2 (d ++ [c'] = [])) by apply snoc_ne_nil.
    rewrite (bool_decide_eq_false_2 (d ++ [c] = [])) by apply snoc_ne_nil.
    rewrite bool_decide_eq_false_2 by (by apply sibling_not_prefix).
    rewrite parent_snoc, Hd1. simpl.
    assert (get (d ++ [c]) t1 = get (d ++ [c]) t) as ->.
    { unfold t1, put. apply get_palter_ne; by apply sibling_not_prefix. }
    destruct (get (d ++ [c]) t) as [[|m]|]; done.
  - unfold t2, put. rewrite get_palter_eq; [done|apply snoc_ne_nil|].
    by rewrite parent_snoc.
  - unfold t2, put. rewrite get_palter_ne by (by apply sibling_not_prefix).
    unfold del. rewrite get_palter_eq; [done|apply snoc_ne_nil|].
    by rewrite parent_snoc.
  - unfold t2, put. by rewrite is_dir_get_palter.
Qed.

Lemma mkdirAll_is_dir p t t' :
  mkdirAll p t = Some t' → is_dir (get p t') = true.
Proof.
  revert t t'. induction p as [|c p IH]; intros [|m] t' H; simpl in H; try done.
  - by simplify_eq.
  - destruct (mkdirAll p (default (Dir ∅) (m !! c))) as [child|] eqn:E; [|done].
    simpl in H. simplify_eq. simpl. rewrite lookup_insert_eq. simpl. eauto.
Qed.

Lemma mkdirAll_existing p t :
  is_dir (get p t) = true → mkdirAll p t = Some t.
Proof.
  revert t. induction p as [|c p IH]; intros [|m] H; simpl in *; try done.
  destruct (m !! c) as [n|] eqn:E; [|done]. simpl in *.
  rewrite (IH n H). simpl. by rewrite insert_id.
Qed.

Lemma mkdirAll_new (d : path) (c : string) (t : node) :
  is_dir (get d t) = true → get (d ++ [c]) t = None →
  mkdirAll (d ++ [c]) t = Some (put (d ++ [c]) (Dir ∅) t).
Proof.
  unfold put. revert t. induction d as [|x d IH]; intros [|m] Hd Hn; simpl in *; try done.
  - rewrite palter_single. destruct (m !! c) as [n|] eqn:E; [by destruct n|].
    done.
  - rewrite palter_cons by (by destruct d).
    destruct (m !! x) as [n|] eqn:E; [|done]. simpl in *.
    rewrite (IH n Hd Hn). simpl. f_equal. f_equal. apply map_eq. intros k.
    destruct (decide (k = x)) as [->|Hk].
    + by rewrite lookup_insert_eq, lookup_alter_eq, E.
    + by rewrite lookup_insert_ne, lookup_alter_ne.
Qed.

Lemma get_prefix_is_Some (p q : path) (t : node) :
  p `prefix_of` q → is_Some (get q t) → is_Some (get p t).
Proof.
  intros [k ->]. rewrite get_app. destruct (get p t); [eauto|].
  by intros [? ?].
Qed.

Lemma get_snoc_is_dir (d : path) (c : string) (t : node) :
  is_Some (get (d ++ [c]) t) → is_dir (get d t) = true.
Proof.
  rewrite get_app. destruct (get d t) as [[|m]|]; simpl; try done;
    by intros [? ?].
Qed.

(** Rewriting at [p] does not change whether a path that is not at or
    below [p] is a directory. *)
Lemma is_dir_palter_not_below f p q t :
  ¬ p `prefix_of` q →
  is_dir (get q (palter f p t)) = is_dir (get q t).
Proof.
  intros Hpq. destruct (decide (q `prefix_of` p)) as [Hqp|Hqp].
  - apply is_dir_get_palter; [done|]. intros ->. by apply Hpq.
  - by rewrite get_palter_ne.
Qed.

Lemma prefix_snoc_inv (p d : path) (c : string) :
  p `prefix_of` d ++ [c] → p = d ++ [c] ∨ p `prefix_of` d.
Proof.
  intros [k Hk]. destruct (decide (k = [])) as [->|Hne].
  - left. by rewrite app_nil_r in Hk.
  - right. destruct (exists_last Hne) as (k' & x & ->).
    rewrite app_assoc in Hk. apply app_inj_tail in Hk as [-> _].
    by apply prefix_app_r.
Qed.

(** Neither path is at or below the other. *)
Definition apart (p q : path) : Prop := ¬ p `prefix_of` q ∧ ¬ q `prefix_of` p.

Lemma apart_sym p q : apart p q → apart q p.
Proof. by intros [? ?]. Qed.

Lemma apart_snoc (p d : path) (c : string) : apart p d → apart p (d ++ [c]).
Proof.
  intros [Hpd Hdp]. split.
  - intros H. apply prefix_snoc_inv in H as [->|H]; [|done].
    apply Hdp. by apply prefix_app_r.
  - intros H. apply Hdp. etrans; [|exact H]. by apply prefix_app_r.
Qed.

Lemma get_palter_apart f p q t : apart p q → get q (palter f p t) = get q t.
Proof. intros [? ?]. by apply get_palter_ne. Qed.

Lemma palter_commute_apart f g p q t :
  apart p q → palter f p (palter g q t) = palter g q (palter f p t).
Proof. intros [? ?]. by apply palter_commute. Qed.

Lemma Join_name (d : path) (c : string) :
  c ≠ "" → c ≠ "." → c ≠ ".." → Str.split "/" c = [c] →
  Join d c = d ++ [c].
Proof.
  intros H1 H2 H3 Hs. unfold Join. rewrite Hs. simpl. unfold clean_step.
  rewrite !(proj2 (String.eqb_neq _ _)) by done. done.
Qed.

(** [MkdirAll] only adds empty directories: what is not on the way to [p]
    is as before. *)
Lemma mkdirAll_get p q t t' :
  mkdirAll p t = Some t' → ¬ q `prefix_of` p → get q t' = get q t.
Proof.
  revert q t t'. induction p as [|c p IH]; intros q [|m] t' H Hq; simpl in H; try done.
  - by simplify_eq.
  - destruct (mkdirAll p (default (Dir ∅) (m !! c))) as [child|] eqn:E; [|done].
    simpl in H. simplify_eq.
    destruct q as [|c' q]; [destruct Hq; apply prefix_nil|].
    cbn [get]. destruct (decide (c = c')) as [->|Hc].
    + rewrite lookup_insert_eq. simpl.
      rewrite (IH q _ _ E) by (intros ?; apply Hq; by apply prefix_cons).
      destruct (m !! c') as [n|]; [done|]. simpl.
      destruct q as [|c2 q]; [destruct Hq; by apply prefix_cons, prefix_nil|].
      done.
    + by rewrite lookup_insert_ne.
Qed.

(** *** What a write leaves alone *)

(** From [t] to [t'] the entry at [q] is as it was and no directory has
    stopped being one. *)
Definition keeps (q : path) (t t' : node) : Prop :=
  get q t' = get q t ∧
  ∀ p, is_dir (get p t) = true → is_dir (get p t') = true.

Lemma keeps_refl q t : keeps q t t.
Proof. by split. Qed.

Lemma keeps_trans q t1 t2 t3 : keeps q t1 t2 → keeps q t2 t3 → keeps q t1 t3.
Proof. intros [H1 D1] [H2 D2]. split; [congruence|auto]. Qed.

Lemma get_below_not_dir (p k : path) (t : node) :
  k ≠ [] → is_dir (get p t) = false → get (p ++ k) t = None.
Proof.
  intros Hk Hd. rewrite get_app. destruct (get p t) as [[|m]|]; simpl in *; try done.
  by destruct k.
Qed.

Lemma WriteFile_keeps (q p : path) (c : bytes) (t t' : node) :
  ¬ q `prefix_of` p → WriteFile p c t = inr t' → keeps q t t'.
Proof.
  intros Hq Hw. destruct (decide (p = [])) as [->|Hp]; [done|].
  rewrite WriteFile_eq in Hw by done.
  destruct (is_dir (get (parent p) t)) eqn:Hpar; [|done]. cbn [negb] in Hw.
  destruct (is_dir (get p t)) eqn:Hd; [done|]. injection Hw as <-.
  assert (Hafter : get p (put p (File c) t) = Some (File c)).
  { unfold put. by rewrite get_palter_eq. }
  assert (Hbelow : ∀ x, p `prefix_of` x → x ≠ p →
            get x t = None ∧ get x (put p (File c) t) = None).
  { intros x [k ->] Hne. assert (k ≠ []) by (intros ->; by rewrite app_nil_r in Hne).
    split; apply get_below_not_dir; try done. by rewrite Hafter. }
  split.
  - destruct (decide (p `prefix_of` q)) as [Hpq|Hpq].
    + destruct (Hbelow q Hpq) as [-> ->]; [|done]. intros ->. by apply Hq.
    + unfold put. by apply get_palter_ne.
  - intros x Hx. destruct (decide (p `prefix_of` x)) as [Hpx|Hpx].
    + destruct (decide (x = p)) as [->|Hne]; [congruence|].
      destruct (Hbelow x Hpx Hne) as [E _]. by rewrite E in Hx.
    + unfold put. by rewrite is_dir_palter_not_below.
Qed.

Lemma mkdirAll_keeps_dirs (p : path) (t t' : node) :
  mkdirAll p t = Some t' →
  ∀ x, is_dir (get x t) = true → is_dir (get x t') = true.
Proof.
  revert t t'. induction p as [|c p IH]; intros [|m] t' H x Hx; simpl in H; try done.
  - by simplify_eq.
  - destruct (mkdirAll p (default (Dir ∅) (m !! c))) as [child|] eqn:E; [|done].
    simpl in H. simplify_eq.
    destruct x as [|c' x]; [done|]. cbn [get] in *.
    destruct (decide (c = c')) as [->|Hc].
    + rewrite lookup_insert_eq. simpl.
      destruct (m !! c') as [n|]; [|done]. simpl in *. by apply (IH _ _ E).
    + by rewrite lookup_insert_ne.
Qed.

Lemma MkdirAll_keeps (q p : path) (t t' : node) :
  ¬ q `prefix_of` p → MkdirAll p t = inr t' → keeps q t t'.
Proof.
  unfold MkdirAll. intros Hq H.
  destruct (mkdirAll p t) as [t1|] eqn:E; [|done]. injection H as <-.
  split; [by apply (mkdirAll_get p)|by apply (mkdirAll_keeps_dirs p)].
Qed.

Lemma parent_prefix (p : path) : parent p `prefix_of` p.
Proof.
  unfold parent. destruct (decide (p = [])) as [->|Hp]; [done|].
  destruct (exists_last Hp) as (d & c & ->). rewrite removelast_last.
  by apply prefix_app_r.
Qed.

Lemma Remove_eq (p : path) (t : node) :
  p ≠ [] →
  Remove p t =
    match get p t with
    | None => inl (lookup_error p t)
    | Some (File _) => inr (del p t)
    | Some (Dir m) => if no_entries m then inr (del p t) else inl ENOTEMPTY
    end.
Proof. by destruct p. Qed.

Lemma Remove_keeps (q p : path) (t t' : node) :
  apart p q → Remove p t = inr t' → get q t' = get q t.
Proof.
  intros Hap H. unfold Remove in H.
  destruct p as [|c p]; [done|].
  destruct (get (c :: p) t) as [[|m]|]; try done.
  - injection H as <-. by apply get_palter_apart.
  - destruct (no_entries m); [|done]. injection H as <-. by apply get_palter_apart.
Qed.

(** *** Walking a tree *)

(** The number of entries of a tree; the walk descends along it. *)
Fixpoint weight (n : node) : nat :=
  match n with
  | File _ => 1
  | Dir m => S (map_fold (λ _ c acc, weight c + acc) 0 m)
  end.

Definition by_name {A} (x y : string * A) : Prop := String.le x.1 y.1.

#[local] Instance by_name_dec {A} : RelDecision (@by_name A) :=
  λ x y, decide (String.le x.1 y.1).

(** The paths of [l], each put below [r]. *)
Definition under {A} (r : path) (l : list (path * A)) : list (path * A) :=
  (λ v, (r ++ v.1, v.2)) <$> l.

(** [filepath.Walk] on a tree: what it hands to its function, in its
    order.  Each entry is the path from the root of the walk and whether
    the entry is a directory; a directory comes before what it holds, and
    the names of a directory are visited in lexical order. *)
Fixpoint walk (n : node) : list (path * bool) :=
  match n with
  | File _ => [([], false)]
  | Dir m =>
      ([], true) ::
      mjoin ((λ e, under [e.1] e.2) <$>
             merge_sort by_name
               (map_fold (λ name c acc, (name, walk c) :: acc) [] m))
  end.

Lemma weight_child (m : gmap string node) (k : string) (c : node) :
  m !! k = Some c → weight c < weight (Dir m).
Proof.
  intros H. cbn [weight]. rewrite map_fold_foldr.
  apply elem_of_map_to_list in H.
  induction (map_to_list m) as [|[k' c'] l IH]; [by apply elem_of_nil in H|].
  apply elem_of_cons in H as [[= <- <-]|H]; simpl.
  - lia.
  - apply IH in H. lia.
Qed.

(** Induction on a tree: a directory from its entries. *)
Lemma node_children_ind (P : node → Prop) :
  (∀ c, P (File c)) →
  (∀ m, (∀ k c, m !! k = Some c → P c) → P (Dir m)) →
  ∀ n, P n.
Proof.
  intros HF HD n. remember (weight n) as s eqn:Hs. revert n Hs.
  induction s as [s IH] using lt_wf_ind. intros [c|m] ->; [apply HF|].
  apply HD. intros k c Hk. apply (IH (weight c)); [by apply (weight_child m k)|done].
Qed.

Lemma under_cons {A} (r p : path) (a : A) (l : list (path * A)) :
  under r ((p, a) :: l) = (r ++ p, a) :: under r l.
Proof. done. Qed.

Lemma under_nil {A} (l : list (path * A)) : under [] l = l.
Proof.
  unfold under. rewrite <-(list_fmap_id l) at 2.
  apply list_fmap_ext. by intros _ [p a] _.
Qed.

Lemma under_app {A} (r q : path) (l : list (path * A)) :
  under r (under q l) = under (r ++ q) l.
Proof.
  unfold under. rewrite <-list_fmap_compose. apply list_fmap_ext.
  intros _ [p a] _. simpl. by rewrite app_assoc.
Qed.

Lemma under_join {A} (r : path) (ls : list (list (path * A))) :
  under r (mjoin ls) = mjoin (under r <$> ls).
Proof.
  unfold under. induction ls as [|l ls IH]; [done|].
  simpl. by rewrite fmap_app, IH.
Qed.

(** The walk of a directory: the directory, then the walk of each entry,
    the entries in an order of the directory's listing. *)
Lemma walk_Dir (m : gmap string node) (r : path) :
  ∃ entries : list (string * node),
    entries ≡ₚ map_to_list m ∧
    under r (walk (Dir m)) =
      (r, true) :: mjoin ((λ e, under (r ++ [e.1]) (walk e.2)) <$> entries).
Proof.
  cbn [walk]. rewrite map_fold_foldr.
  set (f := λ e : string * node, (e.1, walk e.2)).
  assert (Hl : ∀ l,
    foldr (uncurry (λ (name : string) (c : node) acc, (name, walk c) :: acc)) [] l
    = map f l).
  { induction l as [|[k c] l IH]; [done|]. simpl. by rewrite IH. }
  rewrite Hl.
  destruct (Permutation_map_inv f (map_to_list m)
              (merge_sort_Permutation by_name (map f (map_to_list m))))
    as (entries & -> & Hp).
  exists entries. split; [done|].
  rewrite under_cons, app_nil_r. f_equal. rewrite under_join.
  change (map f entries) with (f <$> entries).
  rewrite <-!list_fmap_compose. f_equal. apply list_fmap_ext.
  intros _ [k c] _. simpl. by rewrite under_app.
Qed.

Lemma apart_app (p q a b : path) : apart p q → apart (p ++ a) (q ++ b).
Proof.
  intros [Hpq Hqp]. split; intros H.
  - destruct (prefix_weak_total p q (q ++ b)) as [?|?]; try done.
    + etrans; [|exact H]. by apply prefix_app_r.
    + by apply prefix_app_r.
  - destruct (prefix_weak_total p q (p ++ a)) as [?|?]; try done.
    + by apply prefix_app_r.
    + etrans; [|exact H]. by apply prefix_app_r.
Qed.

Lemma apart_ne_nil (p q : path) : apart p q → q ≠ [].
Proof. intros [_ H] ->. apply H, prefix_nil. Qed.

(** A new entry of a directory, seen from the directory. *)
Lemma get_put_child (d : path) (k : string) (c t : node) (a : gmap string node) :
  get d t = Some (Dir a) →
  get d (put (d ++ [k]) c t) = Some (Dir (<[k := c]> a)).
Proof.
  unfold put. revert t. induction d as [|x d IH]; intros t H; simpl in *.
  - simplify_eq. by rewrite palter_single.
  - destruct t as [|m]; [done|]. rewrite palter_cons by apply snoc_ne_nil.
    cbn [get]. rewrite lookup_alter_eq.
    destruct (m !! x) as [n|]; [|done]. simpl in *. by apply IH.
Qed.

(** Replacing an entry forgets what was done below it. *)
Lemma put_over (d q : path) (g : option node → option node) (x t : node) :
  d ≠ [] → put d x (palter g (d ++ q) t) = put d x t.
Proof.
  unfold put. revert t. induction d as [|c d IH]; intros t Hd; [done|].
  destruct d as [|c' d].
  - destruct q as [|c2 q]; cbn [app].
    + rewrite !palter_single. destruct t as [|m]; [done|]. f_equal.
      rewrite partial_alter_partial_alter_eq. by apply partial_alter_ext.
    + rewrite !palter_single, palter_cons by done.
      destruct t as [|m]; [done|]. f_equal. unfold alter, map_alter.
      rewrite partial_alter_partial_alter_eq. by apply partial_alter_ext.
  - change ((c :: c' :: d) ++ q) with (c :: ((c' :: d) ++ q)).
    rewrite !palter_cons by done. destruct t as [|m]; [done|]. f_equal.
    unfold alter, map_alter. rewrite partial_alter_partial_alter_eq.
    apply partial_alter_ext. intros [n|] _; simpl; [|done]. f_equal.
    by apply IH.
Qed.

Lemma lookup_foldl_insert (l : list (string * node)) (acc : gmap string node) (k : string) :
  NoDup l.*1 →
  foldl (λ a e, <[e.1 := e.2]> a) acc l !! k =
    match (list_to_map l : gmap string node) !! k with
    | Some c => Some c
    | None => acc !! k
    end.
Proof.
  revert acc. induction l as [|[k0 c0] l IH]; intros acc Hnd; simpl.
  - by rewrite lookup_empty.
  - apply NoDup_cons in Hnd as [Hk0 Hnd]. rewrite IH by done.
    destruct (decide (k = k0)) as [->|Hk].
    + rewrite !lookup_insert_eq.
      by rewrite (not_elem_of_list_to_map_1 _ _ Hk0).
    + by rewrite !lookup_insert_ne.
Qed.

(** Entering the entries of a listing one by one gives the directory. *)
Lemma foldl_insert_listing (l : list (string * node)) (m : gmap string node) :
  l ≡ₚ map_to_list m → foldl (λ a e, <[e.1 := e.2]> a) ∅ l = m.
Proof.
  intros Hp.
  assert (Hnd : NoDup l.*1).
  { rewrite Hp. apply NoDup_fst_map_to_list. }
  trans (list_to_map l : gmap string node);
    [|by rewrite (list_to_map_proper l _ Hnd Hp), list_to_map_to_list].
  apply map_eq. intros k. rewrite lookup_foldl_insert by done.
  rewrite lookup_empty. by destruct (_ !! k).
Qed.

End FS.

(** ** The world and the error monad *)

(** What the program sees of the machine: the directory tree, the bytes
    [crypto/rand] will deliver, and the wall clock. *)
Record World := mkWorld {
  fs : FS.node;
  entropy : bytes;
  clock : Z;
}.

Definition set_fs (t : FS.node) (w : World) : World :=
  mkWorld t (entropy w) (clock w).

Lemma fs_set_fs t w : fs (set_fs t w) = t.
Proof. done. Qed.

Lemma set_fs_set_fs t t' w : set_fs t (set_fs t' w) = set_fs t w.
Proof. done. Qed.

Lemma set_fs_fs w : set_fs (fs w) w = w.
Proof. by destruct w. Qed.

(** A computation over a state [S] that may stop with an error of type [E];
    the state reached at the error is kept, as a Go function leaves behind
    what it has already written when it returns [err]. *)
Definition M (E S A : Type) : Type := S → (E + A) * S.

Definition ret {E S A} (a : A) : M E S A := λ s, (inr a, s).
Definition fail {E S A} (e : E) : M E S A := λ s, (inl e, s).
Definition bind {E S A B} (m : M E S A) (k : A → M E S B) : M E S B :=
  λ s, match m s with
       | (inr a, s') => k a s'
       | (inl e, s') => (inl e, s')
       end.

Declare Scope go_scope.
Delimit Scope go_scope with go.
Notation "x <- m ;; k" := (bind m (λ x, k))
  (at level 100, m at next level, right associativity) : go_scope.
Notation "m ;;; k" := (bind m (λ _, k))
  (at level 100, right associativity) : go_scope.

Definition gets {E S A} (f : S → A) : M E S A := λ s, (inr (f s), s).
Definition modify {E S} (f : S → S) : M E S unit := λ s, (inr tt, f s).

(** [if err != nil { return fmt.Errorf(...) }] around a call. *)
Definition try_ {E E' S A} (wrap : E' → E) (m : M E' S A) : M E S A :=
  λ s, match m s with
       | (inr a, s') => (inr a, s')
       | (inl e, s') => (inl (wrap e), s')
       end.

(** A call whose error result is dropped. *)
Definition ignore {E E' S A} (m : M E' S A) : M E S unit :=
  λ s, (inr tt, snd (m s)).

(** Run a computation on one half of a pair of states. *)
Definition on_snd {E S1 S2 A} (m : M E S2 A) : M E (S1 * S2) A :=
  λ '(s1, s2), let '(r, s2') := m s2 in (r, (s1, s2')).
Definition on_fst {E S1 S2 A} (m : M E S1 A) : M E (S1 * S2) A :=
  λ '(s1, s2), let '(r, s1') := m s1 in (r, (s1', s2)).

Module OS.

(** A system call that changes the tree. *)
Definition sys (op : FS.node → FS.errno + FS.node) : M FS.errno World unit :=
  λ w, match op (fs w) with
       | inr t => (inr tt, set_fs t w)
       | inl e => (inl e, w)
       end.

(** A system call that only reads the tree. *)
Definition ask {A} (op : FS.node → FS.errno + A) : M FS.errno World A :=
  λ w, (op (fs w), w).

Definition MkdirAll (p : FS.path) := sys (FS.MkdirAll p).
Definition WriteFile (p : FS.path) (c : bytes) := sys (FS.WriteFile p c).
Definition Rename (old new : FS.path) := sys (FS.Rename old new).
Definition Remove (p : FS.path) := sys (FS.Remove p).
Definition RemoveAll (p : FS.path) : M FS.errno World unit :=
  λ w, (inr tt, set_fs (FS.RemoveAll p (fs w)) w).
Definition ReadFile (p : FS.path) := ask (FS.ReadFile p).
Definition Stat (p : FS.path) := ask (FS.Stat p).

(** [rand.Read(buf)] with [len(buf) = n]: all [n] bytes or an error. *)
Definition rand_Read {E} (n : nat) (e : E) : M E World bytes :=
  λ w, if (n <=? length (entropy w))%nat
       then (inr (take n (entropy w)), mkWorld (fs w) (drop n (entropy w)) (clock w))
       else (inl e, w).

(** [time.Now()]; the clock moves on. *)
Definition time_Now {E} : M E World Z :=
  λ w, (inr (clock w), mkWorld (fs w) (entropy w) (clock w + 1)%Z).

End OS.

(** ** internal/vault *)

Module Vault.

Local Open Scope go_scope.

Definition magicNumber : Z := 0x4343474F%Z.
Definition vaultVersion : Z := 1%Z.
Definition argonTime : Z := 3%Z.
Definition argonMemory : Z := (64 * 1024)%Z.
Definition argonThreads : Z := 4%Z.
Definition argonKeyLen : Z := 32%Z.
Definition saltSize : nat := 32.
Definition nonceSize : nat := 12.

Inductive error :=
  | ErrVaultLocked
  | ErrWrongPassword
  | ErrInvalidVault
  | ErrVaultNotFound
  | ErrEntryNotFound
  | ErrVaultCorrupted
  | ErrUnsupportedVersion (version : Z)
  | Wrapped (msg : string) (cause : error)
  | OsError (e : FS.errno)
  | RandError
  | KeySizeError (n : nat)
  | MarshalError
  | Panic (msg : string).

Definition Time := Z.
Definition IsZero (t : Time) : bool := (t =? 0)%Z.

Definition CredentialOAuth : string := "oauth".
Definition CredentialAPIKey : string := "apikey".
Definition CredentialAWS : string := "aws".
Definition CredentialGCP : string := "gcp".
Definition CredentialMCP : string := "mcp".

Record Entry := mkEntry {
  ID : string;
  Type_ : string;
  Provider : string;
  Data : bytes;
  CreatedAt : Time;
  UpdatedAt : Time;
  ExpiresAt : option Time;
  Metadata : gmap string string;
}.

Record vaultData := mkData {
  Version : Z;
  Entries : gmap string Entry;
  dCreatedAt : Time;
  dUpdatedAt : Time;
}.

(** The [cipher.AEAD] made by [aes.NewCipher] and [cipher.NewGCM]: it holds
    the key it was made from. *)
Record AEAD := mkAEAD { aead_key : bytes }.

Record Vault := mkVault {
  path : FS.path;
  salt : bytes;
  key : bytes;
  gcm : option AEAD;
  data : option vaultData;
  unlocked : bool;
}.

Definition set_salt (x : bytes) (v : Vault) : Vault :=
  mkVault (path v) x (key v) (gcm v) (data v) (unlocked v).
Definition set_key (x : bytes) (v : Vault) : Vault :=
  mkVault (path v) (salt v) x (gcm v) (data v) (unlocked v).
Definition set_gcm (x : option AEAD) (v : Vault) : Vault :=
  mkVault (path v) (salt v) (key v) x (data v) (unlocked v).
Definition set_data (x : option vaultData) (v : Vault) : Vault :=
  mkVault (path v) (salt v) (key v) (gcm v) x (unlocked v).
Definition set_unlocked (x : bool) (v : Vault) : Vault :=
  mkVault (path v) (salt v) (key v) (gcm v) (data v) x.

(** *** encoding/binary, big endian *)

Definition byte_of_Z (z : Z) : Byte.byte :=
  default Byte.x00 (Byte.of_N (Z.to_N (z mod 256)%Z)).
Definition Z_of_byte (b : Byte.byte) : Z := Z.of_N (Byte.to_N b).

Definition PutUint32 (x : Z) : bytes :=
  [byte_of_Z (Z.shiftr x 24); byte_of_Z (Z.shiftr x 16);
   byte_of_Z (Z.shiftr x 8); byte_of_Z x]%Z.
Definition PutUint16 (x : Z) : bytes :=
  [byte_of_Z (Z.shiftr x 8); byte_of_Z x]%Z.

Definition Uint32 (b : bytes) : Z :=
  match b with
  | b0 :: b1 :: b2 :: b3 :: _ =>
      (Z.lor (Z.lor (Z.lor (Z.shiftl (Z_of_byte b0) 24) (Z.shiftl (Z_of_byte b1) 16))
                    (Z.shiftl (Z_of_byte b2) 8)) (Z_of_byte b3))%Z
  | _ => 0%Z
  end.
Definition Uint16 (b : bytes) : Z :=
  match b with
  | b0 :: b1 :: _ => (Z.lor (Z.shiftl (Z_of_byte b0) 8) (Z_of_byte b1))%Z
  | _ => 0%Z
  end.

(** [b[lo:hi]] *)
Definition slice (b : bytes) (lo hi : nat) : bytes := take (hi - lo) (drop lo b).

(** [copy(dst[off:], src)]: as many bytes as fit. *)
Definition copy_at (dst : bytes) (off : nat) (src : bytes) : bytes :=
  take off dst ++ take (length dst - off) src ++ drop (off + length src) dst.

(** [aes.NewCipher] accepts keys of 16, 24 and 32 bytes; [cipher.NewGCM]
    over an AES block cannot fail. *)
Definition NewCipherGCM (k : bytes) : error + AEAD :=
  if bool_decide (length k = 16 ∨ length k = 24 ∨ length k = 32)
  then inr (mkAEAD k) else inl (KeySizeError (length k)).

Definition lift {S A} (r : error + A) : M error S A := λ s, (r, s).

Definition zero_data : vaultData := mkData 0%Z ∅ 0%Z 0%Z.

Section WithCrypto.

(** The libraries the vault calls and this repository does not contain:
    Argon2id, AES-GCM and encoding/json. *)
Variable argon2_IDKey : string → bytes → Z → Z → Z → Z → bytes.
Variable gcm_Seal : bytes → bytes → bytes → bytes.
Variable gcm_Open : bytes → bytes → bytes → option bytes.
Variable json_Marshal : option vaultData → option bytes.
Variable json_Unmarshal : bytes → option vaultData.

Definition derive (password : string) (salt : bytes) : bytes :=
  argon2_IDKey password salt argonTime argonMemory argonThreads argonKeyLen.

(** save writes the encrypted vault to disk *)
Definition save (v : Vault) : M error World unit :=
  if negb (unlocked v) then fail ErrVaultLocked else
  plaintext <- lift (match json_Marshal (data v) with
                     | Some b => inr b
                     | None => inl (Wrapped "failed to serialize vault" MarshalError)
                     end) ;;
  nonce <- OS.rand_Read nonceSize (Wrapped "failed to generate nonce" RandError) ;;
  aead <- lift (match gcm v with
                | Some a => inr a
                | None => inl (Panic "nil pointer dereference")
                end) ;;
  let ciphertext := gcm_Seal (aead_key aead) nonce plaintext in
  let fileSize := (4 + 2 + saltSize + nonceSize + length ciphertext)%nat in
  let file := replicate fileSize Byte.x00 in
  let file := copy_at file 0 (PutUint32 magicNumber) in
  let file := copy_at file 4 (PutUint16 vaultVersion) in
  let file := copy_at file 6 (salt v) in
  let file := copy_at file (6 + saltSize) nonce in
  let file := copy_at file (6 + saltSize + nonceSize) ciphertext in
  let tmpPath := FS.add_ext (path v) ".tmp" in
  try_ (λ e, Wrapped "failed to write vault" (OsError e)) (OS.WriteFile tmpPath file) ;;;
  λ w, match OS.Rename tmpPath (path v) w with
       | (inl e, w') =>
           (inl (Wrapped "failed to finalize vault" (OsError e)),
            snd (OS.Remove tmpPath w'))
       | (inr _, w') => (inr tt, w')
       end.

(** Create initializes a new vault with the given password *)
Definition Create (path : FS.path) (password : string) : M error World Vault :=
  salt <- OS.rand_Read saltSize (Wrapped "failed to generate salt" RandError) ;;
  let key := derive password salt in
  gcm <- lift (match NewCipherGCM key with
               | inr a => inr a
               | inl e => inl (Wrapped "failed to create cipher" e)
               end) ;;
  now <- OS.time_Now ;;
  let v := {| path := path; salt := salt; key := key; gcm := Some gcm;
              unlocked := true;
              data := Some {| Version := 1%Z; Entries := ∅;
                              dCreatedAt := now; dUpdatedAt := now |} |} in
  try_ (λ e, Wrapped "failed to create vault directory" (OsError e))
       (OS.MkdirAll (FS.parent path)) ;;;
  try_ (Wrapped "failed to save vault") (save v) ;;;
  ret v.

(** Open loads an existing vault (but doesn't unlock it) *)
Definition Open (path : FS.path) (w : World) : error + Vault :=
  match FS.Stat path (fs w) with
  | inl FS.ENOENT => inl ErrVaultNotFound
  | _ => inr {| path := path; salt := []; key := []; gcm := None;
                data := None; unlocked := false |}
  end.

(** Unlock decrypts the vault with the given password *)
Definition Unlock (password : string) : M error (Vault * World) unit :=
  v <- gets fst ;;
  data <- on_snd (try_ (λ e, Wrapped "failed to read vault" (OsError e))
                       (OS.ReadFile (path v))) ;;
  if (length data <? 6)%nat then fail ErrInvalidVault else
  let magic := Uint32 (slice data 0 4) in
  if negb (magic =? magicNumber)%Z then fail ErrInvalidVault else
  let version := Uint16 (slice data 4 6) in
  if negb (version =? vaultVersion)%Z then fail (ErrUnsupportedVersion version) else
  let offset := 6%nat in
  if (length data <? offset + saltSize)%nat then fail ErrVaultCorrupted else
  let salt := slice data offset (offset + saltSize) in
  on_fst (modify (set_salt salt)) ;;;
  let offset := (offset + saltSize)%nat in
  let key := derive password salt in
  on_fst (modify (set_key key)) ;;;
  aead <- lift (match NewCipherGCM key with
                | inr a => inr a
                | inl e => inl (Wrapped "failed to create cipher" e)
                end) ;;
  on_fst (modify (set_gcm (Some aead))) ;;;
  if (length data <? offset + nonceSize)%nat then fail ErrVaultCorrupted else
  let nonce := slice data offset (offset + nonceSize) in
  let offset := (offset + nonceSize)%nat in
  let ciphertext := drop offset data in
  match gcm_Open (aead_key aead) nonce ciphertext with
  | None => fail ErrWrongPassword
  | Some plaintext =>
      match json_Unmarshal plaintext with
      | None => on_fst (modify (set_data (Some zero_data))) ;;; fail ErrVaultCorrupted
      | Some d =>
          on_fst (modify (set_data (Some d))) ;;;
          on_fst (modify (set_unlocked true))
      end
  end.

(** Lock clears sensitive data from memory *)
Definition Lock (v : Vault) : Vault :=
  let v := set_key (replicate (length (key v)) Byte.x00) v in
  set_unlocked false (set_data None (set_gcm None (set_key [] v))).

(** IsUnlocked returns whether the vault is currently unlocked *)
Definition IsUnlocked (v : Vault) : bool := unlocked v.

Definition with_data {A} (v : Vault) (k : vaultData → M error (Vault * World) A)
    : M error (Vault * World) A :=
  match data v with
  | Some d => k d
  | None => fail (Panic "nil pointer dereference")
  end.

(** SetEntry adds or updates a credential entry.  The caller's [*Entry] is
    written through the pointer; the entry as stored is the entry as the
    caller sees it afterwards. *)
Definition stamp (now : Time) (entry : Entry) : Entry :=
  {| ID := ID entry; Type_ := Type_ entry; Provider := Provider entry;
     Data := Data entry;
     CreatedAt := if IsZero (CreatedAt entry) then now else CreatedAt entry;
     UpdatedAt := now;
     ExpiresAt := ExpiresAt entry; Metadata := Metadata entry |}.

Definition SetEntry (entry : Entry) : M error (Vault * World) unit :=
  v <- gets fst ;;
  if negb (unlocked v) then fail ErrVaultLocked else
  now <- on_snd OS.time_Now ;;
  let entry := stamp now entry in
  with_data v (λ d,
    let d := {| Version := Version d;
                Entries := <[ID entry := entry]> (Entries d);
                dCreatedAt := dCreatedAt d; dUpdatedAt := now |} in
    on_fst (modify (set_data (Some d))) ;;;
    v <- gets fst ;;
    on_snd (save v)).

(** GetEntry retrieves a credential entry by ID *)
Definition GetEntry (id : string) (v : Vault) : error + Entry :=
  if negb (unlocked v) then inl ErrVaultLocked else
  match data v with
  | None => inl (Panic "nil pointer dereference")
  | Some d =>
      match Entries d !! id with
      | Some entry => inr entry
      | None => inl ErrEntryNotFound
      end
  end.

(** DeleteEntry removes a credential entry *)
Definition DeleteEntry (id : string) : M error (Vault * World) unit :=
  v <- gets fst ;;
  if negb (unlocked v) then fail ErrVaultLocked else
  with_data v (λ d,
    match Entries d !! id with
    | None => fail ErrEntryNotFound
    | Some _ =>
        now <- on_snd OS.time_Now ;;
        let d := {| Version := Version d; Entries := delete id (Entries d);
                    dCreatedAt := dCreatedAt d; dUpdatedAt := now |} in
        on_fst (modify (set_data (Some d))) ;;;
        v <- gets fst ;;
        on_snd (save v)
    end).

(** ListEntries returns all entry IDs and their types.  Go ranges over the
    map in an unspecified order; the list comes in the order of
    [map_to_list]. *)
Definition ListEntries (v : Vault) : error + list Entry :=
  if negb (unlocked v) then inl ErrVaultLocked else
  match data v with
  | None => inl (Panic "nil pointer dereference")
  | Some d =>
      inr ((λ kv : string * Entry,
              let entry := kv.2 in
              {| ID := ID entry; Type_ := Type_ entry; Provider := Provider entry;
                 Data := [];
                 CreatedAt := CreatedAt entry; UpdatedAt := UpdatedAt entry;
                 ExpiresAt := ExpiresAt entry; Metadata := Metadata entry |})
           <$> map_to_list (Entries d))
  end.

(** Exists checks if a vault file exists at the given path *)
Definition Exists (path : FS.path) (w : World) : bool :=
  match FS.Stat path (fs w) with inr _ => true | inl _ => false end.

(** *** The file image *)

(** magic + version + salt + nonce + ciphertext *)
Definition file_image (salt nonce ciphertext : bytes) : bytes :=
  PutUint32 magicNumber ++ PutUint16 vaultVersion ++ salt ++ nonce ++ ciphertext.

Lemma copy_at_fill (pre src : bytes) (n : nat) :
  length src ≤ n →
  copy_at (pre ++ replicate n Byte.x00) (length pre) src =
  (pre ++ src) ++ replicate (n - length src) Byte.x00.
Proof.
  intros Hn. unfold copy_at.
  rewrite take_app_length, length_app, length_replicate.
  replace (length pre + n - length pre) with n by lia.
  rewrite take_ge by lia.
  rewrite drop_app_ge by lia.
  replace (length pre + length src - length pre) with (length src) by lia.
  rewrite drop_replicate. by rewrite <-app_assoc.
Qed.

Lemma copy_chain (m ver salt nonce ct : bytes) (n : nat) :
  n = length m + length ver + length salt + length nonce + length ct →
  copy_at (copy_at (copy_at (copy_at (copy_at (replicate n Byte.x00)
    0 m) (length m) ver) (length m + length ver) salt)
    (length m + length ver + length salt) nonce)
    (length m + length ver + length salt + length nonce) ct
  = m ++ ver ++ salt ++ nonce ++ ct.
Proof.
  intros Hn.
  change (copy_at (replicate n Byte.x00) 0 m)
    with (copy_at ([] ++ replicate n Byte.x00) (length (@nil Byte.byte)) m).
  rewrite copy_at_fill by lia. rewrite app_nil_l.
  rewrite copy_at_fill by lia.
  rewrite <-(length_app m ver). rewrite copy_at_fill by lia.
  rewrite <-(length_app (m ++ ver) salt). rewrite copy_at_fill by lia.
  rewrite <-(length_app ((m ++ ver) ++ salt) nonce). rewrite copy_at_fill by lia.
  replace (n - length m - length ver - length salt - length nonce - length ct)
    with 0 by lia.
  simpl replicate. rewrite app_nil_r. by rewrite <-!app_assoc.
Qed.

Lemma save_image (salt nonce ct : bytes) :
  length salt = saltSize → length nonce = nonceSize →
  let file := replicate (4 + 2 + saltSize + nonceSize + length ct) Byte.x00 in
  let file := copy_at file 0 (PutUint32 magicNumber) in
  let file := copy_at file 4 (PutUint16 vaultVersion) in
  let file := copy_at file 6 salt in
  let file := copy_at file (6 + saltSize) nonce in
  copy_at file (6 + saltSize + nonceSize) ct = file_image salt nonce ct.
Proof.
  intros Hs Hn. cbv zeta. unfold file_image.
  rewrite <-(copy_chain _ _ salt nonce ct (4 + 2 + saltSize + nonceSize + length ct)).
  - rewrite Hs, Hn. reflexivity.
  - rewrite Hs, Hn. reflexivity.
Qed.

(** [path] can take a vault file: its directory exists, and neither it
    nor its staging name is a directory. *)
Definition writable (p : FS.path) (t : FS.node) : bool :=
  bool_decide (p ≠ []) && FS.is_dir (FS.get (FS.parent p) t)
  && negb (FS.is_dir (FS.get p t))
  && negb (FS.is_dir (FS.get (FS.add_ext p ".tmp") t)).

Lemma writable_inv p t :
  writable p t = true →
  ∃ d c, p = d ++ [c] ∧ FS.is_dir (FS.get d t) = true ∧
         FS.is_dir (FS.get (d ++ [c]) t) = false ∧
         FS.is_dir (FS.get (d ++ [String.append c ".tmp"]) t) = false.
Proof.
  unfold writable. rewrite !andb_true_iff, !negb_true_iff, bool_decide_eq_true.
  intros [[[Hp Hd] Hf] Ht].
  destruct (exists_last Hp) as (d & c & ->).
  rewrite FS.parent_snoc in Hd. rewrite FS.add_ext_snoc in Ht. eauto 10.
Qed.

Lemma writable_intro d c t :
  FS.is_dir (FS.get d t) = true →
  FS.is_dir (FS.get (d ++ [c]) t) = false →
  FS.is_dir (FS.get (d ++ [String.append c ".tmp"]) t) = false →
  writable (d ++ [c]) t = true.
Proof.
  intros Hd Hf Ht. unfold writable.
  rewrite FS.parent_snoc, FS.add_ext_snoc, Hd, Hf, Ht.
  rewrite bool_decide_eq_true_2 by apply FS.snoc_ne_nil. done.
Qed.

(** What [save] leaves on disk when nothing fails. *)
Lemma save_ok (v : Vault) (w : World) (a : AEAD) (pt : bytes) :
  unlocked v = true →
  gcm v = Some a →
  json_Marshal (data v) = Some pt →
  length (salt v) = saltSize →
  nonceSize ≤ length (entropy w) →
  writable (path v) (fs w) = true →
  ∃ t',
    save v w = (inr tt, mkWorld t' (drop nonceSize (entropy w)) (clock w)) ∧
    FS.ReadFile (path v) t' =
      inr (file_image (salt v) (take nonceSize (entropy w))
             (gcm_Seal (aead_key a) (take nonceSize (entropy w)) pt)) ∧
    writable (path v) t' = true.
Proof.
  intros Hu Hg Hm Hs Hn Hw.
  apply writable_inv in Hw as (d & c & Hp & Hd & Hf & Ht).
  set (nonce := take nonceSize (entropy w)).
  set (ct := gcm_Seal (aead_key a) nonce pt).
  assert (Hne : c ≠ String.append c ".tmp") by (symmetry; by apply FS.append_ne).
  destruct (FS.write_rename d c _ (file_image (salt v) nonce ct) (fs w) Hne Hd Hf Ht)
    as (t1 & t2 & Hwr & Hrn & Hget & Htmp & Hd2).
  exists t2. split_and!.
  - unfold save. rewrite Hu, Hm, Hg. cbn [negb].
    unfold bind at 1. unfold lift at 1.
    unfold bind at 1. unfold OS.rand_Read at 1.
    rewrite (proj2 (Nat.leb_le _ _) Hn).
    unfold bind at 1. unfold lift at 1. cbv zeta.
    rewrite save_image; [|done|by apply length_take_le].
    fold nonce. fold ct. rewrite Hp, FS.add_ext_snoc.
    unfold bind, try_, OS.WriteFile, OS.Rename, OS.sys. cbn [fs set_fs].
    rewrite Hwr. cbn [fs set_fs]. rewrite Hrn. done.
  - unfold FS.ReadFile. by rewrite Hp, Hget.
  - rewrite Hp. apply writable_intro; [done|by rewrite Hget|by rewrite Htmp].
Qed.

(** *** Reading an image back *)

Lemma image_cons (salt nonce ct : bytes) :
  file_image salt nonce ct =
  Byte.x43 :: Byte.x43 :: Byte.x47 :: Byte.x4f :: Byte.x00 :: Byte.x01 ::
  salt ++ nonce ++ ct.
Proof. reflexivity. Qed.

Lemma image_length (salt nonce ct : bytes) :
  length (file_image salt nonce ct) = 6 + length salt + length nonce + length ct.
Proof. rewrite image_cons. simpl. rewrite !length_app. lia. Qed.

Lemma image_magic (salt nonce ct : bytes) :
  Uint32 (slice (file_image salt nonce ct) 0 4) = magicNumber.
Proof. rewrite image_cons. reflexivity. Qed.

Lemma image_version (salt nonce ct : bytes) :
  Uint16 (slice (file_image salt nonce ct) 4 6) = vaultVersion.
Proof. rewrite image_cons. reflexivity. Qed.

Lemma image_salt (salt nonce ct : bytes) :
  length salt = saltSize →
  slice (file_image salt nonce ct) 6 (6 + saltSize) = salt.
Proof.
  intros H. rewrite image_cons. unfold slice.
  replace (6 + saltSize - 6) with (length salt) by lia.
  change (drop 6 (_ :: _ :: _ :: _ :: _ :: _ :: ?l)) with l.
  by rewrite take_app_length.
Qed.

Lemma image_nonce (salt nonce ct : bytes) :
  length salt = saltSize → length nonce = nonceSize →
  slice (file_image salt nonce ct) (6 + saltSize) (6 + saltSize + nonceSize) = nonce.
Proof.
  intros Hs Hn. rewrite image_cons. unfold slice.
  replace (6 + saltSize + nonceSize - (6 + saltSize)) with (length nonce) by lia.
  rewrite <-Hs.
  change (drop (6 + length salt) (_ :: _ :: _ :: _ :: _ :: _ :: ?l))
    with (drop (length salt) l).
  by rewrite drop_app_length, take_app_length.
Qed.

Lemma image_ciphertext (salt nonce ct : bytes) :
  length salt = saltSize → length nonce = nonceSize →
  drop (6 + saltSize + nonceSize) (file_image salt nonce ct) = ct.
Proof.
  intros Hs Hn. rewrite image_cons. rewrite <-Hs, <-Hn.
  change (drop (6 + length salt + length nonce) (_ :: _ :: _ :: _ :: _ :: _ :: ?l))
    with (drop (length salt + length nonce) l).
  rewrite <-drop_drop. by rewrite !drop_app_length.
Qed.

(** [Unlock] on a file that [save] wrote. *)
Lemma Unlock_image (password : string) (v : Vault) (w : World)
    (salt nonce ct : bytes) :
  FS.ReadFile (path v) (fs w) = inr (file_image salt nonce ct) →
  length salt = saltSize → length nonce = nonceSize →
  length (derive password salt) = 32 →
  Unlock password (v, w) =
    let k := derive password salt in
    let v1 := set_gcm (Some (mkAEAD k)) (set_key k (set_salt salt v)) in
    match gcm_Open k nonce ct with
    | None => (inl ErrWrongPassword, (v1, w))
    | Some plaintext =>
        match json_Unmarshal plaintext with
        | None => (inl ErrVaultCorrupted, (set_data (Some zero_data) v1, w))
        | Some d => (inr tt, (set_unlocked true (set_data (Some d) v1), w))
        end
    end.
Proof.
  intros Hr Hs Hn Hk. unfold Unlock.
  unfold bind at 1. unfold gets at 1. cbn [fst].
  unfold bind at 1. unfold on_snd at 1, try_ at 1, OS.ReadFile at 1, OS.ask at 1.
  rewrite Hr.
  assert (Hlen : length (file_image salt nonce ct) = 50 + length ct).
  { rewrite image_length, Hs, Hn. unfold saltSize, nonceSize. lia. }
  rewrite (proj2 (Nat.ltb_ge _ 6)) by lia.
  rewrite image_magic, Z.eqb_refl. cbn [negb].
  rewrite image_version, Z.eqb_refl. cbn [negb]. cbv zeta.
  rewrite (proj2 (Nat.ltb_ge _ (6 + saltSize))) by (unfold saltSize; lia).
  rewrite image_salt by done.
  unfold bind at 1. unfold on_fst at 1, modify at 1.
  unfold bind at 1. unfold on_fst at 1, modify at 1.
  unfold NewCipherGCM. rewrite bool_decide_eq_true_2 by auto.
  unfold bind at 1. unfold lift at 1.
  unfold bind at 1. unfold on_fst at 1, modify at 1.
  rewrite (proj2 (Nat.ltb_ge _ (6 + saltSize + nonceSize)))
    by (unfold saltSize, nonceSize; lia).
  rewrite image_nonce, image_ciphertext by done. cbn [aead_key].
  destruct (gcm_Open _ nonce ct) as [pt|]; [|done].
  destruct (json_Unmarshal pt) as [d|]; done.
Qed.

(** *** [Create] and [SetEntry] when nothing fails *)

(** [Create] can write a vault at [p]: the directories on the way can be
    made, and neither [p] nor its staging name is a directory. *)
Definition creatable (p : FS.path) (t : FS.node) : bool :=
  bool_decide (p ≠ []) &&
  match FS.mkdirAll (FS.parent p) t with Some _ => true | None => false end
  && negb (FS.is_dir (FS.get p t))
  && negb (FS.is_dir (FS.get (FS.add_ext p ".tmp") t)).

Lemma creatable_writable p t :
  creatable p t = true →
  ∃ t1, FS.mkdirAll (FS.parent p) t = Some t1 ∧ writable p t1 = true.
Proof.
  unfold creatable. rewrite !andb_true_iff, !negb_true_iff, bool_decide_eq_true.
  intros [[[Hp Hd] Hf] Ht].
  destruct (FS.mkdirAll (FS.parent p) t) as [t1|] eqn:E; [|done].
  exists t1. split; [done|].
  destruct (exists_last Hp) as (d & c & ->).
  rewrite FS.parent_snoc in E. rewrite FS.add_ext_snoc in Ht.
  assert (Hnp : ∀ x, ¬ (d ++ [x]) `prefix_of` d).
  { intros x Hx. apply prefix_length in Hx. rewrite length_app in Hx. simpl in Hx. lia. }
  apply writable_intro.
  - by apply (FS.mkdirAll_is_dir _ t).
  - by rewrite (FS.mkdirAll_get _ _ _ _ E).
  - by rewrite (FS.mkdirAll_get _ _ _ _ E).
Qed.

Definition fresh_data (now : Time) : vaultData :=
  {| Version := 1%Z; Entries := ∅; dCreatedAt := now; dUpdatedAt := now |}.

Lemma Create_ok (p : FS.path) (password : string) (w : World) (pt : bytes) :
  let salt := take saltSize (entropy w) in
  let nonce := take nonceSize (drop saltSize (entropy w)) in
  let k := derive password salt in
  saltSize + nonceSize ≤ length (entropy w) →
  length k = 32 →
  json_Marshal (Some (fresh_data (clock w))) = Some pt →
  creatable p (fs w) = true →
  ∃ t',
    Create p password w =
      (inr {| path := p; salt := salt; key := k; gcm := Some (mkAEAD k);
              data := Some (fresh_data (clock w)); unlocked := true |},
       mkWorld t' (drop (saltSize + nonceSize) (entropy w)) (clock w + 1)%Z) ∧
    FS.ReadFile p t' = inr (file_image salt nonce (gcm_Seal k nonce pt)) ∧
    writable p t' = true.
Proof.
  intros salt nonce k He Hk Hm Hc.
  apply creatable_writable in Hc as (t1 & Hmk & Hw).
  set (v := {| path := p; salt := salt; key := k; gcm := Some (mkAEAD k);
               data := Some (fresh_data (clock w)); unlocked := true |}).
  set (w1 := mkWorld t1 (drop saltSize (entropy w)) (clock w + 1)%Z).
  destruct (save_ok v w1 (mkAEAD k) pt) as (t' & Hsave & Hread & Hw');
    try done.
  { unfold v, salt. cbn [Vault.salt]. apply length_take_le. lia. }
  { unfold w1. cbn [entropy]. rewrite length_drop. lia. }
  exists t'. split_and!; [|done|done].
  unfold Create. unfold bind at 1. unfold OS.rand_Read at 1.
  rewrite (proj2 (Nat.leb_le saltSize _)) by lia.
  fold salt. fold k. unfold NewCipherGCM.
  rewrite bool_decide_eq_true_2 by auto.
  unfold bind at 1. unfold lift at 1.
  unfold bind at 1. unfold OS.time_Now at 1. cbn [fs entropy clock].
  unfold bind at 1. unfold try_ at 1, OS.MkdirAll, OS.sys, FS.MkdirAll.
  cbn [fs]. rewrite Hmk. unfold set_fs. cbn [fs entropy clock].
  unfold bind at 1. unfold try_ at 1.
  fold (fresh_data (clock w)). fold v. fold w1. rewrite Hsave.
  unfold ret, w1. cbn [entropy clock]. by rewrite drop_drop.
Qed.

Definition with_entry (now : Time) (entry : Entry) (d : vaultData) : vaultData :=
  {| Version := Version d;
     Entries := <[ID entry := stamp now entry]> (Entries d);
     dCreatedAt := dCreatedAt d; dUpdatedAt := now |}.

Lemma SetEntry_ok (entry : Entry) (v : Vault) (w : World)
    (a : AEAD) (d : vaultData) (pt : bytes) :
  let d' := with_entry (clock w) entry d in
  let nonce := take nonceSize (entropy w) in
  unlocked v = true →
  gcm v = Some a →
  data v = Some d →
  json_Marshal (Some d') = Some pt →
  length (salt v) = saltSize →
  nonceSize ≤ length (entropy w) →
  writable (path v) (fs w) = true →
  ∃ t',
    SetEntry entry (v, w) =
      (inr tt, (set_data (Some d') v,
                mkWorld t' (drop nonceSize (entropy w)) (clock w + 1)%Z)) ∧
    FS.ReadFile (path v) t' =
      inr (file_image (salt v) nonce (gcm_Seal (aead_key a) nonce pt)) ∧
    writable (path v) t' = true.
Proof.
  intros d' nonce Hu Hg Hd Hm Hs He Hw.
  set (w1 := mkWorld (fs w) (entropy w) (clock w + 1)%Z).
  destruct (save_ok (set_data (Some d') v) w1 a pt) as (t' & Hsave & Hread & Hw');
    try done.
  exists t'. split_and!; [|done|done].
  unfold SetEntry. unfold bind at 1. unfold gets at 1. cbn [fst].
  rewrite Hu. cbn [negb].
  unfold bind at 1. unfold on_snd at 1, OS.time_Now at 1.
  unfold with_data. rewrite Hd.
  unfold bind at 1. unfold on_fst at 1, modify at 1.
  unfold bind at 1. unfold gets at 1. cbn [fst].
  unfold on_snd. change (ID (stamp (clock w) entry)) with (ID entry).
  fold (with_entry (clock w) entry d). fold d'. fold w1.
  by rewrite Hsave.
Qed.

(** An entry without the timestamps the store assigns. *)
Definition untimed (e : Entry) : Entry :=
  {| ID := ID e; Type_ := Type_ e; Provider := Provider e; Data := Data e;
     CreatedAt := 0%Z; UpdatedAt := 0%Z;
     ExpiresAt := ExpiresAt e; Metadata := Metadata e |}.

(** [SetEntry] for each entry of a list, in order, stopping at the first
    error. *)
Fixpoint SetEntries (es : list Entry) : M error (Vault * World) unit :=
  match es with
  | [] => ret tt
  | e :: es' => SetEntry e ;;; SetEntries es'
  end.

Lemma untimed_stamp now e : untimed (stamp now e) = untimed e.
Proof. done. Qed.

Definition record (f : Entry → Entry) (m : gmap string Entry) (es : list Entry) :=
  foldl (λ m e, <[ID e := f e]> m) m es.

Lemma record_lookup_elem (f : Entry → Entry) m es e :
  NoDup (ID <$> es) → e ∈ es → record f m es !! ID e = Some (f e).
Proof.
  revert m. induction es as [|x es IH]; intros m Hnd He; [by apply elem_of_nil in He|].
  rewrite fmap_cons in Hnd. apply NoDup_cons in Hnd as [Hx Hnd].
  apply elem_of_cons in He as [->|He]; simpl.
  - assert (∀ m', m' !! ID x = Some (f x) → record f m' es !! ID x = Some (f x)) as Hkeep.
    { clear -Hx. induction es as [|y es IH]; intros m' Hm'; [done|].
      simpl. apply IH.
      - intros Hin. apply Hx. rewrite fmap_cons. by apply list_elem_of_further.
      - rewrite lookup_insert_ne; [done|]. intros E. apply Hx.
        rewrite fmap_cons, E. apply list_elem_of_here. }
    apply Hkeep. apply lookup_insert_eq.
  - by apply IH.
Qed.

Lemma record_lookup_inv (f : Entry → Entry) m es id x :
  record f m es !! id = Some x →
  m !! id = Some x ∨ ∃ e, e ∈ es ∧ ID e = id ∧ x = f e.
Proof.
  revert m. induction es as [|y es IH]; intros m H; [by left|].
  simpl in H. apply IH in H as [H|(e & He & Hid & Hx)].
  - destruct (decide (ID y = id)) as [E|E].
    + rewrite E, lookup_insert_eq in H. simplify_eq. right. exists y.
      split_and!; [apply list_elem_of_here|done..].
    + rewrite lookup_insert_ne in H by done. by left.
  - right. exists e. split_and!; [by apply list_elem_of_further|done..].
Qed.

(** *** What is assumed of the libraries *)

Section Laws.

(** [json.Valid] on a payload: [json.Marshal] refuses a [RawMessage] that
    is not JSON. *)
Variable json_Valid : bytes → bool.

Definition encodable (d : vaultData) : Prop :=
  map_Forall (λ _ e, json_Valid (Data e) = true) (Entries d).

(** The bytes [json.Marshal] writes for a [RawMessage]: the document in
    compact form, without the white space between its tokens and with
    [<], [>], [&], U+2028 and U+2029 escaped; for a payload that is nil,
    [null]. *)
Variable json_Compact : bytes → bytes.

(** [utf8.ValidString]: [json.Marshal] replaces what is not UTF-8 in a
    string or a key by U+FFFD. *)
Variable utf8_Valid : string → bool.

(** An entry as it is read back: [Unmarshal] copies a [RawMessage] from
    the document, where it is compact. *)
Definition written (e : Entry) : Entry :=
  {| ID := ID e; Type_ := Type_ e; Provider := Provider e;
     Data := json_Compact (Data e);
     CreatedAt := CreatedAt e; UpdatedAt := UpdatedAt e;
     ExpiresAt := ExpiresAt e; Metadata := Metadata e |}.

Definition read_back (d : vaultData) : vaultData :=
  {| Version := Version d; Entries := written <$> Entries d;
     dCreatedAt := dCreatedAt d; dUpdatedAt := dUpdatedAt d |}.

(** What [GetEntry] returns after the entries were read back. *)
Definition as_read (r : error + Entry) : error + Entry :=
  match r with inr e => inr (written e) | inl x => inl x end.

(** The text of an entry is valid UTF-8. *)
Definition plain_text (e : Entry) : Prop :=
  utf8_Valid (ID e) = true ∧ utf8_Valid (Type_ e) = true ∧
  utf8_Valid (Provider e) = true ∧
  map_Forall (λ k x, utf8_Valid k = true ∧ utf8_Valid x = true) (Metadata e).

Definition readable (d : vaultData) : Prop :=
  map_Forall (λ k e, utf8_Valid k = true ∧ plain_text e) (Entries d).

(** Argon2id returns the key length it was asked for. *)
Hypothesis derive_len : ∀ p s, length (derive p s) = 32.
(** AES-GCM opens under the sealing key and nonce. *)
Hypothesis Open_Seal : ∀ k n p, gcm_Open k n (gcm_Seal k n p) = Some p.
(** encoding/json writes any state whose payloads are JSON.  What it
    reads back is the state it wrote with every payload as [json.Marshal]
    wrote it, in compact form; this for text that is valid UTF-8, which
    is the text JSON can carry unchanged. *)
Hypothesis Unmarshal_Marshal :
  ∀ d b, readable d → json_Marshal (Some d) = Some b →
         json_Unmarshal b = Some (read_back d).
Hypothesis Marshal_defined :
  ∀ d, encodable d → is_Some (json_Marshal (Some d)).

(** The handle is unlocked under [password] with state [d], and the file
    on disk is an image of [d] under the key of the handle. *)
Record in_sync (password : string) (v : Vault) (w : World) (d : vaultData)
    : Prop := {
  sync_unlocked : unlocked v = true;
  sync_salt : length (salt v) = saltSize;
  sync_gcm : gcm v = Some (mkAEAD (derive password (salt v)));
  sync_data : data v = Some d;
  sync_enc : encodable d;
  sync_writable : writable (path v) (fs w) = true;
  sync_file : ∃ nonce pt,
    length nonce = nonceSize ∧ json_Marshal (Some d) = Some pt ∧
    FS.ReadFile (path v) (fs w) =
      inr (file_image (salt v) nonce
             (gcm_Seal (derive password (salt v)) nonce pt));
}.

Lemma Create_in_sync (p : FS.path) (password : string) (w : World) :
  creatable p (fs w) = true →
  saltSize + nonceSize ≤ length (entropy w) →
  ∃ v0 w0,
    Create p password w = (inr v0, w0) ∧
    in_sync password v0 w0 (fresh_data (clock w)) ∧
    path v0 = p ∧
    length (entropy w0) = length (entropy w) - (saltSize + nonceSize) ∧
    salt v0 = take saltSize (entropy w) ∧
    clock w0 = (clock w + 1)%Z.
Proof.
  intros Hc He.
  assert (Henc : encodable (fresh_data (clock w))) by apply map_Forall_empty.
  destruct (Marshal_defined _ Henc) as [pt Hpt].
  destruct (Create_ok p password w pt) as (t' & HC & Hread & Hw); try done.
  eexists _, _. split; [exact HC|]. split_and!; [|done| |done|done].
  - constructor; cbn [unlocked salt gcm data path fs]; try done.
    + apply length_take_le. lia.
    + eexists _, pt. split_and!; [|done|exact Hread].
      apply length_take_le. rewrite length_drop. lia.
  - cbn [entropy]. by rewrite length_drop.
Qed.

Lemma SetEntry_in_sync (password : string) (e : Entry)
    (v : Vault) (w : World) (d : vaultData) :
  in_sync password v w d →
  json_Valid (Data e) = true →
  nonceSize ≤ length (entropy w) →
  ∃ v' w',
    SetEntry e (v, w) = (inr tt, (v', w')) ∧
    in_sync password v' w' (with_entry (clock w) e d) ∧
    path v' = path v ∧
    length (entropy w') = length (entropy w) - nonceSize ∧
    salt v' = salt v ∧
    clock w' = (clock w + 1)%Z.
Proof.
  intros [Hu Hs Hg Hd Henc Hw _] Hv He.
  assert (Henc' : encodable (with_entry (clock w) e d)).
  { unfold encodable. cbn [with_entry Entries]. by apply map_Forall_insert_2. }
  destruct (Marshal_defined _ Henc') as [pt Hpt].
  destruct (SetEntry_ok e v w _ d pt Hu Hg Hd Hpt Hs He Hw) as (t' & HS & Hread & Hw').
  eexists _, _. split; [exact HS|]. split_and!; [|done| |done|done].
  - constructor; cbn [unlocked salt gcm data path fs set_data]; try done.
    eexists _, pt. split_and!; [|done|exact Hread].
    by apply length_take_le.
  - cbn [entropy]. by rewrite length_drop.
Qed.

Lemma SetEntries_in_sync (password : string) (es : list Entry)
    (v : Vault) (w : World) (d : vaultData) :
  in_sync password v w d →
  Forall (λ e, json_Valid (Data e) = true) es →
  nonceSize * length es ≤ length (entropy w) →
  ∃ v' w' d',
    SetEntries es (v, w) = (inr tt, (v', w')) ∧
    in_sync password v' w' d' ∧
    path v' = path v ∧
    untimed <$> Entries d' = record untimed (untimed <$> Entries d) es ∧
    salt v' = salt v.
Proof.
  revert v w d. induction es as [|e es IH]; intros v w d Hsync Hval He.
  - by exists v, w, d.
  - apply Forall_cons in Hval as [Hv Hval]. rewrite length_cons in He.
    destruct (SetEntry_in_sync password e v w d Hsync Hv)
      as (v1 & w1 & HS & Hs1 & Hp1 & He1 & Hsalt1 & _);
      [unfold nonceSize in *; lia|].
    destruct (IH v1 w1 _ Hs1 Hval) as (v' & w' & d' & HS' & Hs' & Hp' & Hrec & Hsalt');
      [unfold nonceSize in *; lia|].
    exists v', w', d'. split_and!; [|done|congruence| |congruence].
    + cbn [SetEntries]. unfold bind. by rewrite HS.
    + rewrite Hrec. cbn [with_entry Entries record foldl].
      by rewrite fmap_insert, untimed_stamp.
Qed.

(** Entries that are read back. *)
Lemma untimed_written (e : Entry) : untimed (written e) = written (untimed e).
Proof. done. Qed.

Lemma written_compact (e : Entry) :
  json_Compact (Data e) = Data e → written e = e.
Proof. intros H. destruct e. unfold written. cbn in *. by rewrite H. Qed.

Lemma plain_text_untimed (a b : Entry) :
  untimed a = untimed b → plain_text a → plain_text b.
Proof.
  intros E. unfold plain_text.
  assert (ID a = ID b) as -> by apply (f_equal ID E).
  assert (Type_ a = Type_ b) as -> by apply (f_equal Type_ E).
  assert (Provider a = Provider b) as -> by apply (f_equal Provider E).
  assert (Metadata a = Metadata b) as -> by apply (f_equal Metadata E).
  done.
Qed.

Lemma GetEntry_read_back (id : string) (h v : Vault) (d : vaultData) :
  unlocked h = true → data h = Some (read_back d) →
  unlocked v = true → data v = Some d →
  GetEntry id h = as_read (GetEntry id v).
Proof.
  intros Hu Hd Hu' Hd'. unfold GetEntry. rewrite Hu, Hd, Hu', Hd'.
  cbn [negb read_back Entries]. rewrite lookup_fmap.
  by destruct (Entries d !! id).
Qed.

Lemma readable_with_entry (now : Time) (e : Entry) (d : vaultData) :
  readable d → plain_text e → readable (with_entry now e d).
Proof.
  intros Hd He. unfold readable. cbn [with_entry Entries].
  apply map_Forall_insert_2; [|done]. split; [apply He|].
  by apply (plain_text_untimed e).
Qed.

Lemma readable_record (es : list Entry) (d d' : vaultData) :
  readable d → Forall plain_text es →
  untimed <$> Entries d' = record untimed (untimed <$> Entries d) es →
  readable d'.
Proof.
  intros Hd Hes Hrec k e' Hk.
  assert (Hl : (untimed <$> Entries d') !! k = Some (untimed e'))
    by (by rewrite lookup_fmap, Hk).
  rewrite Hrec in Hl. apply record_lookup_inv in Hl as [Hl|(e & Hin & Hid & Hl)].
  - rewrite lookup_fmap in Hl.
    destruct (Entries d !! k) as [e0|] eqn:E0; [|done].
    apply (inj Some) in Hl. destruct (Hd k e0 E0) as [Hk0 He0].
    split; [done|]. by apply (plain_text_untimed e0).
  - rewrite Forall_forall in Hes. pose proof (Hes e Hin) as He.
    split; [rewrite <-Hid; apply He|]. by apply (plain_text_untimed e).
Qed.

(** A fresh handle on a vault in sync unlocks to the state as it is read
    back. *)
Lemma reopen (password : string) (v : Vault) (w : World) (d : vaultData) :
  in_sync password v w d → readable d →
  ∃ h h',
    Open (path v) w = inr h ∧
    Unlock password (h, w) = (inr tt, (h', w)) ∧
    unlocked h' = true ∧ data h' = Some (read_back d).
Proof.
  intros [_ Hs _ _ _ _ (nonce & pt & Hn & Hpt & Hread)] Htext.
  set (h := {| path := path v; salt := []; key := []; gcm := None;
               data := None; unlocked := false |}).
  assert (HU := Unlock_image password h w (salt v) nonce
                  (gcm_Seal (derive password (salt v)) nonce pt)
                  Hread Hs Hn (derive_len _ _)).
  cbv zeta in HU. rewrite Open_Seal, (Unmarshal_Marshal _ _ Htext Hpt) in HU.
  eexists h, _. split_and!; [|exact HU|done..].
  unfold Open, FS.Stat. unfold FS.ReadFile in Hread.
  destruct (FS.get (path v) (fs w)) as [[|?]|]; done.
Qed.

(** AES-GCM rejects what was sealed under another key. *)
Hypothesis Open_other_key :
  ∀ k k' n p, length k = 32 → length k' = 32 → k ≠ k' →
    gcm_Open k' n (gcm_Seal k n p) = None.

(** A fresh handle on a vault in sync stays locked under a password that
    derives another key. *)
Lemma reopen_wrong (P Q : string) (v : Vault) (w : World) (d : vaultData) :
  in_sync P v w d →
  derive Q (salt v) ≠ derive P (salt v) →
  ∃ h h',
    Open (path v) w = inr h ∧
    Unlock Q (h, w) = (inl ErrWrongPassword, (h', w)) ∧
    unlocked h' = false ∧ data h' = None.
Proof.
  intros [_ Hs _ _ _ _ (nonce & pt & Hn & Hpt & Hread)] Hne.
  set (h := {| path := path v; salt := []; key := []; gcm := None;
               data := None; unlocked := false |}).
  assert (HU := Unlock_image Q h w (salt v) nonce
                  (gcm_Seal (derive P (salt v)) nonce pt)
                  Hread Hs Hn (derive_len _ _)).
  cbv zeta in HU. rewrite Open_other_key in HU by (by auto).
  eexists h, _. split_and!; [|exact HU|done..].
  unfold Open, FS.Stat. unfold FS.ReadFile in Hread.
  destruct (FS.get (path v) (fs w)) as [[|?]|]; done.
Qed.

(** What a fresh handle finds after [Create] and a [SetEntry] for each
    entry of a list. *)
Lemma stored_then_reopened (p : FS.path) (P : string) (E : list Entry) (w : World) :
  NoDup (ID <$> E) →
  Forall (λ e, json_Valid (Data e) = true) E →
  Forall plain_text E →
  creatable p (fs w) = true →
  saltSize + nonceSize * (1 + length E) ≤ length (entropy w) →
  ∃ v0 w0 v1 w1 h h',
    Create p P w = (inr v0, w0) ∧
    SetEntries E (v0, w0) = (inr tt, (v1, w1)) ∧
    Open p w1 = inr h ∧
    Unlock P (h, w1) = (inr tt, (h', w1)) ∧
    IsUnlocked h' = true ∧
    (∀ e, e ∈ E →
       ∃ e', GetEntry (ID e) h' = inr e' ∧ untimed e' = untimed (written e)) ∧
    (∀ id e', GetEntry id h' = inr e' →
       ∃ e, e ∈ E ∧ ID e = id ∧ untimed e' = untimed (written e)).
Proof.
  intros Hnd Hval Htext Hc He. unfold saltSize, nonceSize in He.
  destruct (Create_in_sync p P w Hc) as (v0 & w0 & HC & Hs0 & Hp0 & He0 & _ & _);
    [unfold saltSize, nonceSize; lia|].
  destruct (SetEntries_in_sync P E v0 w0 _ Hs0 Hval) as (v1 & w1 & d1 & HS & Hs1 & Hp1 & Hrec & _);
    [unfold saltSize, nonceSize in *; lia|].
  assert (Hr1 : readable d1).
  { apply (readable_record E (fresh_data (clock w))); [|done..].
    apply map_Forall_empty. }
  destruct (reopen P v1 w1 d1 Hs1 Hr1) as (h & h' & HO & HU & Hu & Hd).
  rewrite Hp1, Hp0 in HO.
  exists v0, w0, v1, w1, h, h'. split_and!; try done.
  - intros e Hin. unfold GetEntry. rewrite Hu, Hd. cbn [negb read_back Entries].
    pose proof (record_lookup_elem untimed (untimed <$> Entries (fresh_data (clock w)))
                  E e Hnd Hin) as Hl.
    rewrite <-Hrec, lookup_fmap in Hl. rewrite lookup_fmap.
    destruct (Entries d1 !! ID e) as [e1|]; [|done]. apply (inj Some) in Hl.
    exists (written e1). split; [done|].
    by rewrite !untimed_written, Hl.
  - intros id e'. unfold GetEntry. rewrite Hu, Hd. cbn [negb read_back Entries].
    rewrite lookup_fmap.
    destruct (Entries d1 !! id) as [x|] eqn:Hx; [|done]. intros [= <-].
    assert (Hl : (untimed <$> Entries d1) !! id = Some (untimed x))
      by (by rewrite lookup_fmap, Hx).
    rewrite Hrec in Hl. apply record_lookup_inv in Hl as [Hl|(e & Hin & Hid & Hl)].
    + by rewrite lookup_fmap in Hl.
    + exists e. split_and!; [done..|]. by rewrite !untimed_written, Hl.
Qed.

(** C2, as the code has it.  Round trip: for any password and any
    entries with distinct identifiers, JSON payloads and UTF-8 text, on a
    machine where the vault file can be written and the random source
    lasts, [Create], then [SetEntry] for each entry, then [Open] and
    [Unlock] with the same password on a fresh handle all succeed, and
    the unlocked handle holds these entries and no other, up to the
    timestamps the store assigns and with each payload in the compact
    form [json.Marshal] wrote; an entry whose payload is in that form
    comes back with the same bytes, and when all are, the handle holds
    exactly the entries, timestamps apart. *)
Theorem round_trip (p : FS.path) (P : string) (E : list Entry) (w : World) :
  NoDup (ID <$> E) →
  Forall (λ e, json_Valid (Data e) = true) E →
  Forall plain_text E →
  creatable p (fs w) = true →
  saltSize + nonceSize * (1 + length E) ≤ length (entropy w) →
  ∃ v0 w0 v1 w1 h h',
    Create p P w = (inr v0, w0) ∧
    SetEntries E (v0, w0) = (inr tt, (v1, w1)) ∧
    Open p w1 = inr h ∧
    Unlock P (h, w1) = (inr tt, (h', w1)) ∧
    IsUnlocked h' = true ∧
    (∀ e, e ∈ E →
       ∃ e', GetEntry (ID e) h' = inr e' ∧ untimed e' = untimed (written e)) ∧
    (∀ e, e ∈ E → json_Compact (Data e) = Data e →
       ∃ e', GetEntry (ID e) h' = inr e' ∧ untimed e' = untimed e) ∧
    (∀ id e', GetEntry id h' = inr e' →
       ∃ e, e ∈ E ∧ ID e = id ∧ untimed e' = untimed (written e)) ∧
    (Forall (λ e, json_Compact (Data e) = Data e) E →
     ∀ id e', GetEntry id h' = inr e' →
       ∃ e, e ∈ E ∧ ID e = id ∧ untimed e' = untimed e).
Proof.
  intros Hnd Hval Htext Hc He.
  destruct (stored_then_reopened p P E w Hnd Hval Htext Hc He)
    as (v0 & w0 & v1 & w1 & h & h' & HC & HS & HO & HU & Hu & Hread & Honly).
  exists v0, w0, v1, w1, h, h'. split_and!; try done.
  - intros e Hin Hcompact. destruct (Hread e Hin) as (e' & HG & He').
    exists e'. split; [done|]. by rewrite He', written_compact.
  - intros Hall id e' HG. destruct (Honly id e' HG) as (e & Hin & Hid & He').
    exists e. split_and!; [done..|].
    rewrite Forall_forall in Hall. by rewrite He', written_compact by auto.
Qed.

(** C3.  Wrong password: on a vault created with [P] (and filled with any
    entries), [Unlock] with a password [Q] that derives another key fails
    with [ErrWrongPassword]; the handle stays locked and holds no data, and
    [GetEntry] and [ListEntries] fail with [ErrVaultLocked]. *)
Theorem wrong_password_stays_locked
    (p : FS.path) (P Q : string) (E : list Entry) (w : World) :
  derive Q (take saltSize (entropy w)) ≠ derive P (take saltSize (entropy w)) →
  Forall (λ e, json_Valid (Data e) = true) E →
  creatable p (fs w) = true →
  saltSize + nonceSize * (1 + length E) ≤ length (entropy w) →
  ∃ v0 w0 v1 w1 h h',
    Create p P w = (inr v0, w0) ∧
    SetEntries E (v0, w0) = (inr tt, (v1, w1)) ∧
    Open p w1 = inr h ∧
    Unlock Q (h, w1) = (inl ErrWrongPassword, (h', w1)) ∧
    IsUnlocked h' = false ∧
    data h' = None ∧
    (∀ id, GetEntry id h' = inl ErrVaultLocked) ∧
    ListEntries h' = inl ErrVaultLocked.
Proof.
  intros Hne Hval Hc He. unfold saltSize, nonceSize in He.
  destruct (Create_in_sync p P w Hc) as (v0 & w0 & HC & Hs0 & Hp0 & He0 & Hsalt0 & _);
    [unfold saltSize, nonceSize; lia|].
  destruct (SetEntries_in_sync P E v0 w0 _ Hs0 Hval) as (v1 & w1 & d1 & HS & Hs1 & Hp1 & Hrec & Hsalt1);
    [unfold saltSize, nonceSize in *; lia|].
  destruct (reopen_wrong P Q v1 w1 d1 Hs1) as (h & h' & HO & HU & Hu & Hd).
  { by rewrite Hsalt1, Hsalt0. }
  rewrite Hp1, Hp0 in HO.
  exists v0, w0, v1, w1, h, h'. split_and!; try done.
  - intros id. unfold GetEntry. by rewrite Hu.
  - unfold ListEntries. by rewrite Hu.
Qed.

Lemma writable_creatable p t : writable p t = true → creatable p t = true.
Proof.
  unfold writable, creatable. rewrite !andb_true_iff.
  intros [[[Hp Hd] Hf] Ht]. by rewrite (FS.mkdirAll_existing _ _ Hd).
Qed.

(** C7, as the code has it.  [Create] fails when the directory of [p]
    cannot be made, and nothing is written then.  It does not look for a
    file at [p]: where a vault already is (and can be rewritten), [Create]
    succeeds and puts a new vault with no entries in its place. *)
Theorem Create_replaces_existing
    (P0 P : string) (v : Vault) (w : World) (d : vaultData) :
  (FS.mkdirAll (FS.parent (path v)) (fs w) = None →
   saltSize ≤ length (entropy w) →
   ∃ w', Create (path v) P w =
           (inl (Wrapped "failed to create vault directory" (OsError FS.ENOTDIR)), w') ∧
         fs w' = fs w) ∧
  (in_sync P0 v w d →
   saltSize + nonceSize ≤ length (entropy w) →
   ∃ v' w', Create (path v) P w = (inr v', w') ∧
            in_sync P v' w' (fresh_data (clock w)) ∧
            ∀ id, GetEntry id v' = inl ErrEntryNotFound).
Proof.
  split.
  - intros Hmk He. eexists. split.
    + unfold Create. unfold bind at 1. unfold OS.rand_Read at 1.
      rewrite (proj2 (Nat.leb_le saltSize _)) by done.
      unfold NewCipherGCM. rewrite bool_decide_eq_true_2 by (rewrite derive_len; auto).
      unfold bind at 1. unfold lift at 1.
      unfold bind at 1. unfold OS.time_Now at 1. cbn [fs entropy clock].
      unfold bind at 1. unfold try_ at 1, OS.MkdirAll, OS.sys, FS.MkdirAll.
      cbn [fs]. rewrite Hmk. reflexivity.
    + done.
  - intros Hsync He.
    destruct (Create_in_sync (path v) P w) as (v' & w' & HC & Hs' & _);
      [apply writable_creatable, Hsync|done|].
    exists v', w'. split_and!; [done..|].
    intros id. unfold GetEntry.
    rewrite (sync_unlocked _ _ _ _ Hs'), (sync_data _ _ _ _ Hs'). done.
Qed.

(** *** Locking *)

(** [Lock] and back.  A locked handle holds no key, no cipher and no
    entries, and every operation on it fails with [ErrVaultLocked] and
    changes nothing; the file is not touched, so [Unlock] with the
    password brings back the entries the handle held, as they are read
    back from the file: each with its payload in the compact form
    [json.Marshal] wrote, and with the same bytes when the payload was
    in that form. *)
Theorem Lock_then_Unlock (P : string) (v : Vault) (w : World) (d : vaultData) :
  in_sync P v w d → readable d →
  IsUnlocked (Lock v) = false ∧
  key (Lock v) = [] ∧ gcm (Lock v) = None ∧ data (Lock v) = None ∧
  (∀ id, GetEntry id (Lock v) = inl ErrVaultLocked) ∧
  ListEntries (Lock v) = inl ErrVaultLocked ∧
  (∀ e, SetEntry e (Lock v, w) = (inl ErrVaultLocked, (Lock v, w))) ∧
  (∀ id, DeleteEntry id (Lock v, w) = (inl ErrVaultLocked, (Lock v, w))) ∧
  ∃ v', Unlock P (Lock v, w) = (inr tt, (v', w)) ∧
        IsUnlocked v' = true ∧ data v' = Some (read_back d) ∧
        (∀ id, GetEntry id v' = as_read (GetEntry id v)) ∧
        (∀ id e, GetEntry id v = inr e → json_Compact (Data e) = Data e →
                 GetEntry id v' = inr e).
Proof.
  intros [Hu Hs _ Hd _ _ (nonce & pt & Hn & Hpt & Hread)] Htext.
  split_and!; try done.
  assert (HU := Unlock_image P (Lock v) w (salt v) nonce
                  (gcm_Seal (derive P (salt v)) nonce pt)
                  Hread Hs Hn (derive_len _ _)).
  cbv zeta in HU. rewrite Open_Seal, (Unmarshal_Marshal _ _ Htext Hpt) in HU.
  eexists. split; [exact HU|].
  assert (HG : ∀ id,
            GetEntry id (set_unlocked true (set_data (Some (read_back d))
              (set_gcm (Some (mkAEAD (derive P (salt v))))
                 (set_key (derive P (salt v)) (set_salt (salt v) (Lock v))))))
            = as_read (GetEntry id v)).
  { intros id. by apply (GetEntry_read_back id _ v d). }
  split_and!; try done.
  intros id e Hg Hc. rewrite HG, Hg. cbn [as_read]. by rewrite written_compact.
Qed.

(** *** Removing an entry *)

Definition without (id : string) (now : Time) (d : vaultData) : vaultData :=
  {| Version := Version d; Entries := delete id (Entries d);
     dCreatedAt := dCreatedAt d; dUpdatedAt := now |}.

Lemma DeleteEntry_ok (id : string) (v : Vault) (w : World)
    (a : AEAD) (d : vaultData) (e : Entry) (pt : bytes) :
  let d' := without id (clock w) d in
  let nonce := take nonceSize (entropy w) in
  unlocked v = true →
  gcm v = Some a →
  data v = Some d →
  Entries d !! id = Some e →
  json_Marshal (Some d') = Some pt →
  length (salt v) = saltSize →
  nonceSize ≤ length (entropy w) →
  writable (path v) (fs w) = true →
  ∃ t',
    DeleteEntry id (v, w) =
      (inr tt, (set_data (Some d') v,
                mkWorld t' (drop nonceSize (entropy w)) (clock w + 1)%Z)) ∧
    FS.ReadFile (path v) t' =
      inr (file_image (salt v) nonce (gcm_Seal (aead_key a) nonce pt)) ∧
    writable (path v) t' = true.
Proof.
  intros d' nonce Hu Hg Hd Hid Hm Hs He Hw.
  set (w1 := mkWorld (fs w) (entropy w) (clock w + 1)%Z).
  destruct (save_ok (set_data (Some d') v) w1 a pt) as (t' & Hsave & Hread & Hw');
    try done.
  exists t'. split_and!; [|done|done].
  unfold DeleteEntry. unfold bind at 1. unfold gets at 1. cbn [fst].
  rewrite Hu. cbn [negb]. unfold with_data. rewrite Hd, Hid.
  unfold bind at 1. unfold on_snd at 1, OS.time_Now at 1.
  unfold bind at 1. unfold on_fst at 1, modify at 1.
  unfold bind at 1. unfold gets at 1. cbn [fst].
  unfold on_snd. fold (without id (clock w) d). fold d'. fold w1.
  by rewrite Hsave.
Qed.

(** [DeleteEntry] on a vault in sync.  An identifier that is stored is
    removed from the handle and from the file (a fresh handle unlocked
    with the password no longer finds it), the other entries stay, in
    the handle as they were and in the file as they are read back from
    it; an identifier that is not stored gives [ErrEntryNotFound], a
    locked handle [ErrVaultLocked], and then nothing is written and
    nothing changes. *)
Theorem DeleteEntry_effect (P : string) (id : string) (v : Vault) (w : World)
    (d : vaultData) :
  (unlocked v = false →
   DeleteEntry id (v, w) = (inl ErrVaultLocked, (v, w))) ∧
  (unlocked v = true → data v = Some d → Entries d !! id = None →
   DeleteEntry id (v, w) = (inl ErrEntryNotFound, (v, w))) ∧
  (in_sync P v w d → readable d → is_Some (Entries d !! id) →
   nonceSize ≤ length (entropy w) →
   ∃ v' w' h h',
     DeleteEntry id (v, w) = (inr tt, (v', w')) ∧
     in_sync P v' w' (without id (clock w) d) ∧
     GetEntry id v' = inl ErrEntryNotFound ∧
     (∀ id', id' ≠ id → GetEntry id' v' = GetEntry id' v) ∧
     Open (path v) w' = inr h ∧
     Unlock P (h, w') = (inr tt, (h', w')) ∧
     GetEntry id h' = inl ErrEntryNotFound ∧
     (∀ id', id' ≠ id → GetEntry id' h' = as_read (GetEntry id' v)) ∧
     (∀ id' e, id' ≠ id → GetEntry id' v = inr e →
               json_Compact (Data e) = Data e → GetEntry id' h' = inr e)).
Proof.
  split_and!.
  - intros Hu. unfold DeleteEntry, bind, gets. cbn [fst]. by rewrite Hu.
  - intros Hu Hd Hid. unfold DeleteEntry, bind, gets, with_data. cbn [fst].
    by rewrite Hu, Hd, Hid.
  - intros [Hu Hs Hg Hd Henc Hw _] Htext [e Hid] He.
    assert (Henc' : encodable (without id (clock w) d)).
    { unfold encodable. cbn [without Entries]. by apply map_Forall_delete. }
    assert (Htext' : readable (without id (clock w) d)).
    { unfold readable. cbn [without Entries]. by apply map_Forall_delete. }
    destruct (Marshal_defined _ Henc') as [pt Hpt].
    destruct (DeleteEntry_ok id v w _ d e pt Hu Hg Hd Hid Hpt Hs He Hw)
      as (t' & HD & Hread & Hw').
    assert (Hsync : in_sync P (set_data (Some (without id (clock w) d)) v)
                      (mkWorld t' (drop nonceSize (entropy w)) (clock w + 1)%Z)
                      (without id (clock w) d)).
    { constructor; cbn [unlocked salt gcm data path fs set_data]; try done.
      eexists _, pt. split_and!; [|done|exact Hread]. by apply length_take_le. }
    destruct (reopen P _ _ _ Hsync Htext') as (h & h' & HO & HU & Hu' & Hd').
    assert (Hlook : ∀ x : Vault, unlocked x = true →
              data x = Some (without id (clock w) d) →
              GetEntry id x = inl ErrEntryNotFound ∧
              ∀ id', id' ≠ id → GetEntry id' x = GetEntry id' v).
    { intros x Hux Hdx. unfold GetEntry. rewrite Hux, Hdx, Hu, Hd.
      cbn [negb without Entries]. split.
      - by rewrite lookup_delete_eq.
      - intros id' Hne. by rewrite lookup_delete_ne. }
    destruct (Hlook (set_data (Some (without id (clock w) d)) v) Hu eq_refl)
      as [H1 H2].
    assert (H3 : GetEntry id h' = inl ErrEntryNotFound).
    { rewrite (GetEntry_read_back id h' (set_data (Some (without id (clock w) d)) v)
                 _ Hu' Hd' Hu eq_refl).
      by rewrite H1. }
    assert (H4 : ∀ id', id' ≠ id → GetEntry id' h' = as_read (GetEntry id' v)).
    { intros id' Hne.
      rewrite (GetEntry_read_back id' h' (set_data (Some (without id (clock w) d)) v)
                 _ Hu' Hd' Hu eq_refl).
      by rewrite H2. }
    eexists _, _, h, h'. split; [exact HD|]. split_and!; try done.
    intros id' x Hne Hg' Hc. rewrite H4, Hg' by done. cbn [as_read].
    by rewrite written_compact.
Qed.

(** *** A save that fails *)

(** [SetEntry] changes the handle before it saves.  Whatever the save
    does, the handle afterwards holds the entry; when the random source
    cannot give a nonce, [SetEntry] returns the error and the file system
    is as before: the handle and the file then differ. *)
Theorem SetEntry_keeps_entry_when_save_fails (entry : Entry) (v : Vault) (w : World)
    (d : vaultData) :
  unlocked v = true → data v = Some d →
  (∃ r v' w', SetEntry entry (v, w) = (r, (v', w')) ∧
      GetEntry (ID entry) v' = inr (stamp (clock w) entry)) ∧
  (is_Some (json_Marshal (Some (with_entry (clock w) entry d))) →
   length (entropy w) < nonceSize →
   ∃ v', SetEntry entry (v, w) =
           (inl (Wrapped "failed to generate nonce" RandError),
            (v', mkWorld (fs w) (entropy w) (clock w + 1)%Z)) ∧
         GetEntry (ID entry) v' = inr (stamp (clock w) entry)).
Proof.
  intros Hu Hd.
  assert (Hstart : SetEntry entry (v, w) =
    let v1 := set_data (Some (with_entry (clock w) entry d)) v in
    let '(r, w') := save v1 (mkWorld (fs w) (entropy w) (clock w + 1)%Z) in
    (r, (v1, w'))).
  { unfold SetEntry. unfold bind at 1. unfold gets at 1. cbn [fst].
    rewrite Hu. cbn [negb].
    unfold bind at 1. unfold on_snd at 1, OS.time_Now at 1.
    unfold with_data. rewrite Hd.
    unfold bind at 1. unfold on_fst at 1, modify at 1.
    unfold bind at 1. unfold gets at 1. cbn [fst].
    unfold on_snd. change (ID (stamp (clock w) entry)) with (ID entry).
    fold (with_entry (clock w) entry d). done. }
  assert (Hget : GetEntry (ID entry)
                   (set_data (Some (with_entry (clock w) entry d)) v) =
                 inr (stamp (clock w) entry)).
  { unfold GetEntry. cbn [unlocked data set_data with_entry Entries].
    by rewrite Hu, lookup_insert_eq. }
  split.
  - rewrite Hstart. cbv zeta. destruct (save _ _) as [r w']. eauto.
  - intros [pt Hpt] He. rewrite Hstart. cbv zeta.
    eexists. split; [|exact Hget].
    unfold save. cbn [unlocked data set_data]. rewrite Hu, Hpt. cbn [negb].
    unfold bind at 1, lift at 1. unfold bind at 1, OS.rand_Read.
    cbn [entropy]. by rewrite (proj2 (Nat.leb_gt _ _) He).
Qed.

(** *** A file cut short *)

(** A file that has the header of a vault and ends before the ciphertext
    begins gives [ErrVaultCorrupted]: nothing is read beyond its end, the
    handle stays as locked or unlocked as it was and keeps its entries. *)
Theorem Unlock_truncated (password : string) (v : Vault) (w : World) (file : bytes) :
  FS.ReadFile (path v) (fs w) = inr file →
  6 ≤ length file →
  Uint32 (slice file 0 4) = magicNumber →
  Uint16 (slice file 4 6) = vaultVersion →
  length file < 6 + saltSize + nonceSize →
  ∃ v', Unlock password (v, w) = (inl ErrVaultCorrupted, (v', w)) ∧
        unlocked v' = unlocked v ∧ data v' = data v ∧
        (length file < 6 + saltSize → v' = v).
Proof.
  intros Hr Hlen Hm Hv Hshort. unfold Unlock.
  unfold bind at 1. unfold gets at 1. cbn [fst].
  unfold bind at 1. unfold on_snd at 1, try_ at 1, OS.ReadFile at 1, OS.ask at 1.
  rewrite Hr.
  rewrite (proj2 (Nat.ltb_ge _ 6)) by done.
  rewrite Hm, Hv, !Z.eqb_refl. cbn [negb]. cbv zeta.
  destruct (Nat.ltb_spec (length file) (6 + saltSize)) as [H1|H1].
  { exists v. by split_and!. }
  unfold bind at 1. unfold on_fst at 1, modify at 1.
  unfold bind at 1. unfold on_fst at 1, modify at 1.
  unfold NewCipherGCM. rewrite bool_decide_eq_true_2 by (rewrite derive_len; auto).
  unfold bind at 1. unfold lift at 1.
  unfold bind at 1. unfold on_fst at 1, modify at 1.
  rewrite (proj2 (Nat.ltb_lt _ (6 + saltSize + nonceSize))) by done.
  eexists. split; [reflexivity|]. split_and!; [done..|]. intros H. lia.
Qed.

(** *** A failed [Unlock] on an unlocked handle *)

(** [Unlock] stores the salt, the key and the cipher before it tries to
    decrypt.  On a handle that is unlocked, [Unlock] with a password that
    derives another key fails with [ErrWrongPassword] and leaves the handle
    unlocked with its entries, but with the key of the failed password:
    the next [SetEntry] writes the file under that key.  From then on a
    fresh handle is unlocked by the password that failed and no longer by
    the password of the vault. *)
Theorem failed_Unlock_changes_key (P Q : string) (e : Entry)
    (v : Vault) (w : World) (d : vaultData) :
  in_sync P v w d →
  derive Q (salt v) ≠ derive P (salt v) →
  json_Valid (Data e) = true →
  readable d → plain_text e →
  nonceSize ≤ length (entropy w) →
  ∃ v1 v2 w2 h hP hQ,
    Unlock Q (v, w) = (inl ErrWrongPassword, (v1, w)) ∧
    IsUnlocked v1 = true ∧ data v1 = Some d ∧
    SetEntry e (v1, w) = (inr tt, (v2, w2)) ∧
    Open (path v) w2 = inr h ∧
    Unlock P (h, w2) = (inl ErrWrongPassword, (hP, w2)) ∧
    Unlock Q (h, w2) = (inr tt, (hQ, w2)) ∧
    GetEntry (ID e) hQ = inr (written (stamp (clock w) e)) ∧
    (json_Compact (Data e) = Data e →
     GetEntry (ID e) hQ = inr (stamp (clock w) e)).
Proof.
  intros Hsync Hne Hval Htext Hetext He.
  destruct Hsync as [Hu Hs Hg Hd Henc Hw (nonce & pt & Hn & Hpt & Hread)].
  assert (HU := Unlock_image Q v w (salt v) nonce
                  (gcm_Seal (derive P (salt v)) nonce pt)
                  Hread Hs Hn (derive_len _ _)).
  cbv zeta in HU. rewrite Open_other_key in HU by (by auto).
  set (v1 := set_gcm (Some (mkAEAD (derive Q (salt v))))
               (set_key (derive Q (salt v)) (set_salt (salt v) v))) in *.
  assert (Henc' : encodable (with_entry (clock w) e d)).
  { unfold encodable. cbn [with_entry Entries]. by apply map_Forall_insert_2. }
  destruct (Marshal_defined _ Henc') as [pt' Hpt'].
  destruct (SetEntry_ok e v1 w (mkAEAD (derive Q (salt v))) d pt')
    as (t' & HS & Hread' & Hw'); try done.
  set (v2 := set_data (Some (with_entry (clock w) e d)) v1) in *.
  set (w2 := mkWorld t' (drop nonceSize (entropy w)) (clock w + 1)%Z) in *.
  assert (Hsync2 : in_sync Q v2 w2 (with_entry (clock w) e d)).
  { constructor; cbn [unlocked salt gcm data path fs set_data]; try done.
    eexists _, pt'. split_and!; [|done|exact Hread']. by apply length_take_le. }
  destruct (reopen Q v2 w2 _ Hsync2 (readable_with_entry _ _ _ Htext Hetext))
    as (h & hQ & HO & HUQ & HuQ & HdQ).
  destruct (reopen_wrong Q P v2 w2 _ Hsync2) as (h0 & hP & HO' & HUP & _);
    [by intros E; apply Hne|].
  rewrite HO in HO'. injection HO' as <-.
  assert (HG : GetEntry (ID e) hQ = inr (written (stamp (clock w) e))).
  { unfold GetEntry. rewrite HuQ, HdQ. cbn [negb read_back with_entry Entries].
    by rewrite lookup_fmap, lookup_insert_eq. }
  exists v1, v2, w2, h, hP, hQ. split_and!; try done.
  intros Hc. rewrite HG. f_equal. by apply written_compact.
Qed.

(** *** The staging file *)

(** [save] writes to [path + ".tmp"] and renames.  When the rename fails
    because the vault path is a directory, the staging file is removed
    again: [SetEntry] returns the error and the file system is as
    before. *)
Theorem save_removes_staging_file (entry : Entry) (v : Vault) (w : World)
    (a : AEAD) (d : vaultData) (pt : bytes) (dir : FS.path) (name : string) :
  unlocked v = true → gcm v = Some a → data v = Some d →
  json_Marshal (Some (with_entry (clock w) entry d)) = Some pt →
  nonceSize ≤ length (entropy w) →
  path v = dir ++ [name] →
  FS.is_dir (FS.get (dir ++ [name]) (fs w)) = true →
  FS.get (dir ++ [String.append name ".tmp"]) (fs w) = None →
  ∃ v' w',
    SetEntry entry (v, w) =
      (inl (Wrapped "failed to finalize vault" (OsError FS.EISDIR)), (v', w')) ∧
    fs w' = fs w.
Proof.
  intros Hu Hg Hd Hm He Hp Hdir Htmp.
  assert (Hne : name ≠ String.append name ".tmp") by (symmetry; by apply FS.append_ne).
  assert (Hparent : FS.is_dir (FS.get dir (fs w)) = true).
  { apply (FS.get_snoc_is_dir _ name). by destruct (FS.get (dir ++ [name]) (fs w)). }
  unfold SetEntry. unfold bind at 1. unfold gets at 1. cbn [fst].
  rewrite Hu. cbn [negb].
  unfold bind at 1. unfold on_snd at 1, OS.time_Now at 1.
  unfold with_data. rewrite Hd.
  unfold bind at 1. unfold on_fst at 1, modify at 1.
  unfold bind at 1. unfold gets at 1. cbn [fst].
  unfold on_snd. change (ID (stamp (clock w) entry)) with (ID entry).
  fold (with_entry (clock w) entry d).
  unfold save. cbn [unlocked data gcm salt path set_data]. rewrite Hu, Hm, Hg.
  cbn [negb]. unfold bind at 1. unfold lift at 1.
  unfold bind at 1. unfold OS.rand_Read at 1. cbn [entropy fs clock].
  rewrite (proj2 (Nat.leb_le _ _) He).
  unfold bind at 1. unfold lift at 1. cbv zeta.
  rewrite Hp, FS.add_ext_snoc.
  set (file := copy_at _ _ _).
  set (tmp := dir ++ [String.append name ".tmp"]).
  unfold bind, try_, OS.WriteFile, OS.Rename, OS.Remove, OS.sys. cbn [fs set_fs].
  rewrite FS.WriteFile_eq by apply FS.snoc_ne_nil.
  replace (FS.parent tmp) with dir by (unfold tmp; by rewrite FS.parent_snoc).
  rewrite Hparent. fold tmp in Htmp. rewrite Htmp.
  cbn [negb FS.is_dir fs set_fs].
  set (t1 := FS.put tmp (FS.File file) (fs w)).
  assert (Hget1 : FS.get tmp t1 = Some (FS.File file)).
  { unfold t1, FS.put. rewrite FS.get_palter_eq; [done|apply FS.snoc_ne_nil|].
    unfold tmp. by rewrite FS.parent_snoc. }
  assert (Hdir1 : FS.get (dir ++ [name]) t1 = FS.get (dir ++ [name]) (fs w)).
  { unfold t1, FS.put. apply FS.get_palter_ne; apply FS.sibling_not_prefix; congruence. }
  assert (Hparent1 : FS.is_dir (FS.get dir t1) = true).
  { unfold t1, FS.put. rewrite FS.is_dir_get_palter; [done|by apply prefix_app_r|].
    intros E. apply (f_equal length) in E. unfold tmp in E.
    rewrite length_app in E. simpl in E. lia. }
  unfold FS.Rename. rewrite Hget1.
  rewrite bool_decide_eq_false_2
    by (unfold tmp; intros E; apply app_inv_head in E; congruence).
  rewrite (bool_decide_eq_false_2 (tmp = [])) by apply FS.snoc_ne_nil.
  rewrite (bool_decide_eq_false_2 (dir ++ [name] = [])) by apply FS.snoc_ne_nil.
  rewrite bool_decide_eq_false_2 by (apply FS.sibling_not_prefix; congruence).
  rewrite FS.parent_snoc, Hparent1, Hdir1. cbn [orb negb].
  destruct (FS.get (dir ++ [name]) (fs w)) as [[c|m]|] eqn:Hn; try done.
  cbn [fs set_fs snd]. rewrite FS.Remove_eq by apply FS.snoc_ne_nil.
  rewrite Hget1. cbn [snd fs set_fs]. eexists _, _. split; [reflexivity|].
  cbn [fs]. unfold t1, FS.del, FS.put. rewrite FS.palter_compose.
  apply FS.palter_id. by rewrite Htmp.
Qed.

(** *** [Unlock] only reads *)

(** Whatever the file, the password and the handle: [Unlock] returns the
    machine as it was (no file written, no random byte taken, the clock not
    read), keeps the path, and changes whether the handle is unlocked only
    by succeeding: after an error the handle is as locked or unlocked as
    before, after success it is unlocked and holds the decoded state. *)
Theorem Unlock_only_reads (password : string) (v : Vault) (w : World) :
  ∃ r v', Unlock password (v, w) = (r, (v', w)) ∧
          path v' = path v ∧
          (∀ e, r = inl e → unlocked v' = unlocked v) ∧
          (r = inr tt → unlocked v' = true ∧ is_Some (data v')).
Proof.
  unfold Unlock, bind, gets, on_snd, on_fst, modify, try_, lift, fail,
    OS.ReadFile, OS.ask.
  cbn [fst snd].
  destruct (FS.ReadFile (path v) (fs w)) as [e|file]; [by (eexists _, _; split; [reflexivity|]; split_and!)|].
  destruct (length file <? 6); [by (eexists _, _; split; [reflexivity|]; split_and!)|].
  destruct (negb (Uint32 (slice file 0 4) =? magicNumber)%Z); [by (eexists _, _; split; [reflexivity|]; split_and!)|].
  destruct (negb (Uint16 (slice file 4 6) =? vaultVersion)%Z); [by (eexists _, _; split; [reflexivity|]; split_and!)|].
  cbv zeta.
  destruct (length file <? 6 + saltSize); [by (eexists _, _; split; [reflexivity|]; split_and!)|].
  destruct (NewCipherGCM _) as [e|a]; [by (eexists _, _; split; [reflexivity|]; split_and!)|].
  destruct (length file <? 6 + saltSize + nonceSize); [by (eexists _, _; split; [reflexivity|]; split_and!)|].
  destruct (gcm_Open _ _ _) as [pt|]; [|by (eexists _, _; split; [reflexivity|]; split_and!)].
  destruct (json_Unmarshal pt) as [d|].
  - eexists _, _. split; [reflexivity|]. split_and!; [done|done|].
    intros _. split; [done|]. by eexists.
  - eexists _, _. split; [reflexivity|]. by split_and!.
Qed.

End Laws.

(** C6.  [Unlock] checks the header first: a file shorter than the header
    or with another magic number gives [ErrInvalidVault], a file with the
    magic number and another format version gives the unsupported-version
    error.  In both cases the handle is returned as it was: no salt is
    read, no key derived, nothing decrypted or parsed, whatever the
    password and the rest of the file. *)
Theorem Unlock_checks_header_first
    (password : string) (v : Vault) (w : World) (file : bytes) :
  FS.ReadFile (path v) (fs w) = inr file →
  (length file < 6 ∨ Uint32 (slice file 0 4) ≠ magicNumber →
   Unlock password (v, w) = (inl ErrInvalidVault, (v, w))) ∧
  (6 ≤ length file →
   Uint32 (slice file 0 4) = magicNumber →
   Uint16 (slice file 4 6) ≠ vaultVersion →
   Unlock password (v, w) =
     (inl (ErrUnsupportedVersion (Uint16 (slice file 4 6))), (v, w))).
Proof.
  intros Hr.
  assert (Hstart : ∀ k : bytes → M error (Vault * World) unit,
    (v0 <- gets fst ;;
     data <- on_snd (try_ (λ e, Wrapped "failed to read vault" (OsError e))
                          (OS.ReadFile (path v0))) ;; k data) (v, w) = k file (v, w)).
  { intros k. unfold bind, gets, on_snd, try_, OS.ReadFile, OS.ask. cbn [fst].
    by rewrite Hr. }
  split.
  - intros H. unfold Unlock. rewrite Hstart.
    destruct (Nat.ltb_spec (length file) 6) as [?|Hlen]; [done|].
    destruct H as [?|Hm]; [lia|].
    by rewrite (proj2 (Z.eqb_neq _ _) Hm).
  - intros Hlen Hm Hv. unfold Unlock. rewrite Hstart.
    rewrite (proj2 (Nat.ltb_ge _ _) Hlen), Hm, Z.eqb_refl. cbn [negb].
    by rewrite (proj2 (Z.eqb_neq _ _) Hv).
Qed.

(** C8, as the code has it.  [SetEntry] on a locked vault fails with
    [ErrVaultLocked] and changes nothing.  On an unlocked vault (where the
    file can be written) it stores the entry under its ID with
    [UpdatedAt] set to now and with [CreatedAt] set to now exactly when the
    [CreatedAt] of the entry handed in is zero (a non-zero one is kept,
    whether or not the ID was stored before), leaves the other entries
    alone, and writes a file that is the image of the whole new state. *)
Theorem SetEntry_effect (entry : Entry) (v : Vault) (w : World)
    (a : AEAD) (d : vaultData) (pt : bytes) :
  let now := clock w in
  let d' := with_entry now entry d in
  (unlocked v = false → SetEntry entry (v, w) = (inl ErrVaultLocked, (v, w))) ∧
  (unlocked v = true → gcm v = Some a → data v = Some d →
   json_Marshal (Some d') = Some pt →
   length (salt v) = saltSize →
   nonceSize ≤ length (entropy w) →
   writable (path v) (fs w) = true →
   ∃ v' w' stored nonce,
     SetEntry entry (v, w) = (inr tt, (v', w')) ∧
     data v' = Some d' ∧
     GetEntry (ID entry) v' = inr stored ∧
     CreatedAt stored =
       (if IsZero (CreatedAt entry) then now else CreatedAt entry) ∧
     UpdatedAt stored = now ∧
     untimed stored = untimed entry ∧
     (∀ id, id ≠ ID entry → GetEntry id v' = GetEntry id v) ∧
     FS.ReadFile (path v) (fs w') =
       inr (file_image (salt v) nonce (gcm_Seal (aead_key a) nonce pt))).
Proof.
  intros now d'. split.
  - intros Hu. unfold SetEntry, bind, gets. cbn [fst]. by rewrite Hu.
  - intros Hu Hg Hd Hm Hs He Hw.
    destruct (SetEntry_ok entry v w a d pt Hu Hg Hd Hm Hs He Hw)
      as (t' & HS & Hread & _).
    eexists _, _, (stamp now entry), _. split; [exact HS|].
    split_and!; try done.
    + unfold GetEntry. cbn [unlocked data set_data]. rewrite Hu. cbn [negb].
      unfold d'. cbn [with_entry Entries]. by rewrite lookup_insert_eq.
    + intros id Hid. unfold GetEntry. cbn [unlocked data set_data].
      rewrite Hu, Hd. cbn [negb]. unfold d'. cbn [with_entry Entries].
      by rewrite lookup_insert_ne.
Qed.

(** C9.  On an unlocked vault [ListEntries] returns one record for each
    stored entry and nothing else; each record carries the identifier,
    type, provider, timestamps, expiry and metadata of its entry and an
    empty [Data]. *)
Theorem ListEntries_omits_Data (v : Vault) (d : vaultData) :
  unlocked v = true → data v = Some d →
  ∃ l, ListEntries v = inr l ∧
       length l = size (Entries d) ∧
       (∀ e, e ∈ l → Data e = []) ∧
       (∀ e, e ∈ l ↔
          ∃ id s, Entries d !! id = Some s ∧
                  e = {| ID := ID s; Type_ := Type_ s; Provider := Provider s;
                         Data := [];
                         CreatedAt := CreatedAt s; UpdatedAt := UpdatedAt s;
                         ExpiresAt := ExpiresAt s; Metadata := Metadata s |}).
Proof.
  intros Hu Hd. unfold ListEntries. rewrite Hu, Hd. cbn [negb].
  eexists. split; [reflexivity|]. split_and!.
  - by rewrite length_fmap, length_map_to_list.
  - intros e He. apply list_elem_of_fmap in He as ([id s] & -> & _). done.
  - intros e. rewrite list_elem_of_fmap. split.
    + intros ([id s] & -> & Hin). apply elem_of_map_to_list in Hin. eauto.
    + intros (id & s & Hl & ->). exists (id, s). split; [done|].
      by apply elem_of_map_to_list.
Qed.

End WithCrypto.

End Vault.

(** ** A model of the library assumptions

    Functions that satisfy what [Vault.Laws] assumes of Argon2id, AES-GCM and
    encoding/json, so that the assumptions are consistent and the theorems
    apply to something. *)

Module VaultModel.

Import Vault.

#[local] Instance byte_eq_dec : EqDecision Byte.byte := Byte.byte_eq_dec.

Lemma byte_of_to_N (b : Byte.byte) :
  default Byte.x00 (Byte.of_N (Byte.to_N b)) = b.
Proof. by rewrite Byte.of_to_N. Qed.

#[local] Instance byte_countable : Countable Byte.byte :=
  inj_countable' Byte.to_N (λ n, default Byte.x00 (Byte.of_N n)) byte_of_to_N.

#[local] Instance Entry_eq_dec : EqDecision Entry.
Proof. solve_decision. Defined.

Definition Entry_fields (e : Entry) :=
  (ID e, Type_ e, Provider e, Data e,
   (CreatedAt e, UpdatedAt e, ExpiresAt e, Metadata e)).
Definition Entry_of_fields
    (t : string * string * string * bytes *
         (Time * Time * option Time * gmap string string)) : Entry :=
  let '(a, b, c, d, (e, f, g, h)) := t in mkEntry a b c d e f g h.

Lemma Entry_of_fields_fields e : Entry_of_fields (Entry_fields e) = e.
Proof. by destruct e. Qed.

#[local] Instance Entry_countable : Countable Entry :=
  inj_countable' Entry_fields Entry_of_fields Entry_of_fields_fields.

#[local] Instance vaultData_eq_dec : EqDecision vaultData.
Proof. solve_decision. Defined.

Definition data_fields (d : vaultData) :=
  (Version d, Entries d, dCreatedAt d, dUpdatedAt d).
Definition data_of_fields (t : Z * gmap string Entry * Time * Time) : vaultData :=
  let '(a, b, c, d) := t in mkData a b c d.

Lemma data_of_fields_fields d : data_of_fields (data_fields d) = d.
Proof. by destruct d. Qed.

#[local] Instance vaultData_countable : Countable vaultData :=
  inj_countable' data_fields data_of_fields data_of_fields_fields.

(** A number as bytes, one binary digit a byte. *)
Fixpoint pos_bytes (p : positive) : bytes :=
  match p with
  | xH => []
  | xO p => Byte.x00 :: pos_bytes p
  | xI p => Byte.x01 :: pos_bytes p
  end.

Fixpoint bytes_pos (b : bytes) : option positive :=
  match b with
  | [] => Some xH
  | Byte.x00 :: b => xO <$> bytes_pos b
  | Byte.x01 :: b => xI <$> bytes_pos b
  | _ => None
  end.

Lemma bytes_pos_bytes p : bytes_pos (pos_bytes p) = Some p.
Proof. induction p as [p IH|p IH|]; simpl; by rewrite ?IH. Qed.

Definition argon2_IDKey (password : string) (salt : bytes)
    (time memory threads keyLen : Z) : bytes :=
  take (Z.to_nat keyLen)
       (String.list_byte_of_string password ++ salt ++
        replicate (Z.to_nat keyLen) Byte.x00).

Definition gcm_Seal (k nonce plaintext : bytes) : bytes := k ++ nonce ++ plaintext.

Definition gcm_Open (k nonce ciphertext : bytes) : option bytes :=
  if decide (take (length k + length nonce) ciphertext = k ++ nonce)
  then Some (drop (length k + length nonce) ciphertext) else None.

(** [json.Compact] with the escapes of [json.Marshal], on a document
    that is JSON: outside its strings the white space goes; [<], [>], [&],
    U+2028 and U+2029 are written as escapes. *)
Fixpoint compact (in_string escaped : bool) (b : bytes) : bytes :=
  match b with
  | [] => []
  | Byte.xe2 :: Byte.x80 :: Byte.xa8 :: r =>
      String.list_byte_of_string "\u2028" ++ compact in_string false r
  | Byte.xe2 :: Byte.x80 :: Byte.xa9 :: r =>
      String.list_byte_of_string "\u2029" ++ compact in_string false r
  | Byte.x3c :: r => String.list_byte_of_string "\u003c" ++ compact in_string false r
  | Byte.x3e :: r => String.list_byte_of_string "\u003e" ++ compact in_string false r
  | Byte.x26 :: r => String.list_byte_of_string "\u0026" ++ compact in_string false r
  | c :: r =>
      if in_string then
        if escaped then c :: compact true false r
        else match c with
             | Byte.x5c => c :: compact true true r
             | Byte.x22 => c :: compact false false r
             | _ => c :: compact true false r
             end
      else match c with
           | Byte.x20 | Byte.x09 | Byte.x0a | Byte.x0d => compact false false r
           | Byte.x22 => c :: compact true false r
           | _ => c :: compact false false r
           end
  end.

Definition json_Compact (b : bytes) : bytes :=
  match b with
  | [] => String.list_byte_of_string "null"
  | _ => compact false false b
  end.

(** [utf8.ValidString] on ASCII text, which is all the text used here. *)
Definition utf8_Valid (s : string) : bool :=
  forallb (λ c, nat_of_ascii c <? 128) (list_ascii_of_string s).

(** The state is written with its payloads compact. *)
Definition json_Marshal (d : option vaultData) : option bytes :=
  Some (pos_bytes (encode (Vault.read_back json_Compact <$> d))).

Definition json_Unmarshal (b : bytes) : option vaultData :=
  p ← bytes_pos b; mjoin (decode p).

Definition json_Valid (b : bytes) : bool := true.

Lemma derive_len p s : length (derive argon2_IDKey p s) = 32.
Proof.
  unfold derive, argon2_IDKey, argonKeyLen.
  rewrite length_take, !length_app, length_replicate.
  change (Z.to_nat 32) with 32. lia.
Qed.

Lemma Open_Seal k n p : gcm_Open k n (gcm_Seal k n p) = Some p.
Proof.
  unfold gcm_Open, gcm_Seal. rewrite app_assoc, <-length_app.
  rewrite take_app_length, drop_app_length. by rewrite decide_True.
Qed.

Lemma Open_other_key k k' n p :
  length k = 32 → length k' = 32 → k ≠ k' →
  gcm_Open k' n (gcm_Seal k n p) = None.
Proof.
  intros Hk Hk' Hne. unfold gcm_Open, gcm_Seal.
  rewrite decide_False; [done|]. intros H. apply Hne.
  apply (f_equal (take 32)) in H. rewrite take_take in H.
  replace (32 `min` (length k' + length n)) with (length k) in H by lia.
  rewrite take_app_length in H. rewrite <-Hk' in H.
  by rewrite take_app_length in H.
Qed.

Lemma Unmarshal_Marshal d b :
  Vault.readable utf8_Valid d →
  json_Marshal (Some d) = Some b →
  json_Unmarshal b = Some (Vault.read_back json_Compact d).
Proof.
  unfold json_Marshal, json_Unmarshal. intros _ [= <-].
  rewrite bytes_pos_bytes. cbn [fmap option_fmap option_map mbind option_bind].
  by rewrite decode_encode.
Qed.

Lemma Marshal_defined d :
  encodable json_Valid d → is_Some (json_Marshal (Some d)).
Proof. intros _. by eexists. Qed.

(** *** A machine and a credential to try things on *)

Definition vault_path : FS.path := ["usb"; "vault"; "credentials.vault"].

Definition machine : World :=
  {| fs := FS.Dir {[ "usb" := FS.Dir ∅ ]};
     entropy := replicate 200 Byte.x2a;
     clock := 1700000000%Z |}.

(** The entry [auth.StoreTokens] builds: timestamps left zero. *)
Definition token : Entry :=
  {| ID := "auth/claudeai"; Type_ := CredentialOAuth; Provider := "claudeai";
     Data := String.list_byte_of_string "{}";
     CreatedAt := 0%Z; UpdatedAt := 0%Z; ExpiresAt := None; Metadata := ∅ |}.

Definition api_key : Entry :=
  {| ID := "auth/console"; Type_ := CredentialAPIKey; Provider := "console";
     Data := String.list_byte_of_string "{}";
     CreatedAt := 0%Z; UpdatedAt := 0%Z; ExpiresAt := None; Metadata := ∅ |}.

Local Abbreviation Create := (Vault.Create argon2_IDKey gcm_Seal json_Marshal).
Local Abbreviation SetEntry := (Vault.SetEntry gcm_Seal json_Marshal).
Local Abbreviation SetEntries := (Vault.SetEntries gcm_Seal json_Marshal).
Local Abbreviation Unlock := (Vault.Unlock argon2_IDKey gcm_Open json_Unmarshal).
Local Abbreviation in_sync := (Vault.in_sync argon2_IDKey gcm_Seal json_Marshal json_Valid).
Local Abbreviation plain_text := (Vault.plain_text utf8_Valid).
Local Abbreviation readable := (Vault.readable utf8_Valid).

Lemma token_plain : plain_text token.
Proof. split_and!; [reflexivity..|apply map_Forall_empty]. Qed.

Lemma api_key_plain : plain_text api_key.
Proof. split_and!; [reflexivity..|apply map_Forall_empty]. Qed.

Lemma fresh_readable (now : Time) : readable (fresh_data now).
Proof. apply map_Forall_empty. Qed.

Lemma machine_creatable : creatable vault_path (fs machine) = true.
Proof. vm_compute. reflexivity. Qed.

Lemma first_second_keys (s : bytes) :
  derive argon2_IDKey "first password" s ≠ derive argon2_IDKey "second password" s.
Proof. unfold derive, argon2_IDKey. simpl. discriminate. Qed.

Lemma round_trip_witness :
  NoDup (ID <$> [token; api_key]) ∧
  creatable vault_path (fs machine) = true ∧
  ∃ v0 w0 v1 w1 h h',
    Create vault_path "first password" machine = (inr v0, w0) ∧
    SetEntries [token; api_key] (v0, w0) = (inr tt, (v1, w1)) ∧
    Open vault_path w1 = inr h ∧
    Unlock "first password" (h, w1) = (inr tt, (h', w1)) ∧
    IsUnlocked h' = true ∧
    (∀ e, e ∈ [token; api_key] →
       ∃ e', GetEntry (ID e) h' = inr e' ∧ untimed e' = untimed e) ∧
    (∀ id e', GetEntry id h' = inr e' →
       ∃ e, e ∈ [token; api_key] ∧ ID e = id ∧ untimed e' = untimed e).
Proof.
  assert (Hnd : NoDup (ID <$> [token; api_key])).
  { apply (bool_decide_unpack _). vm_compute. exact I. }
  split; [exact Hnd|]. split; [vm_compute; reflexivity|].
  destruct (Vault.round_trip argon2_IDKey gcm_Seal gcm_Open json_Marshal
              json_Unmarshal json_Valid json_Compact utf8_Valid derive_len
              Open_Seal Unmarshal_Marshal Marshal_defined
              vault_path "first password" [token; api_key] machine)
    as (v0 & w0 & v1 & w1 & h & h' & HC & HS & HO & HU & Hu & _ & Hsame & _ & Honly).
  - exact Hnd.
  - repeat constructor.
  - constructor; [apply token_plain|]. constructor; [apply api_key_plain|].
    constructor.
  - vm_compute. reflexivity.
  - vm_compute. lia.
  - assert (Hcompact : ∀ e, e ∈ [token; api_key] → written json_Compact e = e).
    { intros e He. apply elem_of_cons in He as [->|He]; [reflexivity|].
      apply elem_of_cons in He as [->|He]; [reflexivity|].
      by apply elem_of_nil in He. }
    exists v0, w0, v1, w1, h, h'.
    split_and!; [exact HC|exact HS|exact HO|exact HU|exact Hu| |].
    + intros e He. apply (Hsame e He).
      rewrite <-(Hcompact e He) at 2. reflexivity.
    + apply Honly. constructor; [reflexivity|]. constructor; [reflexivity|].
      constructor.
Defined.

(** An entry whose payload is JSON with white space between its tokens. *)
Definition spaced : Entry :=
  {| ID := "auth/console"; Type_ := CredentialAPIKey; Provider := "console";
     Data := String.list_byte_of_string "{ }";
     CreatedAt := 0%Z; UpdatedAt := 0%Z; ExpiresAt := None; Metadata := ∅ |}.

(** C2 as stated fails: an entry whose payload is JSON with white space
    between its tokens comes back, after [Create], [SetEntry], [Open] and
    [Unlock] with the same password, with another payload: the compact
    form [json.Marshal] wrote. *)
Lemma round_trip_changes_payload :
  ∃ v0 w0 v1 w1 h h' e',
    Create vault_path "first password" machine = (inr v0, w0) ∧
    SetEntries [spaced] (v0, w0) = (inr tt, (v1, w1)) ∧
    Open vault_path w1 = inr h ∧
    Unlock "first password" (h, w1) = (inr tt, (h', w1)) ∧
    GetEntry (ID spaced) h' = inr e' ∧
    Data spaced = String.list_byte_of_string "{ }" ∧
    Data e' = String.list_byte_of_string "{}" ∧
    untimed e' ≠ untimed spaced.
Proof.
  destruct (Vault.stored_then_reopened argon2_IDKey gcm_Seal gcm_Open json_Marshal
              json_Unmarshal json_Valid json_Compact utf8_Valid derive_len
              Open_Seal Unmarshal_Marshal Marshal_defined
              vault_path "first password" [spaced] machine)
    as (v0 & w0 & v1 & w1 & h & h' & HC & HS & HO & HU & _ & Hread & _).
  - repeat constructor. by intros H%elem_of_nil.
  - repeat constructor.
  - constructor; [|constructor].
    split_and!; [reflexivity..|apply map_Forall_empty].
  - vm_compute. reflexivity.
  - vm_compute. lia.
  - destruct (Hread spaced) as (e' & Hg & He'); [apply list_elem_of_here|].
    assert (Hdata : Data e' = String.list_byte_of_string "{}")
      by apply (f_equal Data He').
    exists v0, w0, v1, w1, h, h', e'.
    split_and!; [exact HC|exact HS|exact HO|exact HU|exact Hg|reflexivity|exact Hdata|].
    intros E. apply (f_equal Data) in E. cbn [untimed Data] in E.
    rewrite Hdata in E. discriminate E.
Qed.

Lemma wrong_password_witness :
  ∃ v0 w0 v1 w1 h h',
    Create vault_path "first password" machine = (inr v0, w0) ∧
    SetEntries [token] (v0, w0) = (inr tt, (v1, w1)) ∧
    Open vault_path w1 = inr h ∧
    Unlock "second password" (h, w1) = (inl ErrWrongPassword, (h', w1)) ∧
    IsUnlocked h' = false ∧
    data h' = None ∧
    (∀ id, GetEntry id h' = inl ErrVaultLocked) ∧
    ListEntries h' = inl ErrVaultLocked.
Proof.
  apply (Vault.wrong_password_stays_locked argon2_IDKey gcm_Seal gcm_Open
           json_Marshal json_Unmarshal json_Valid derive_len Marshal_defined
           Open_other_key).
  - intros H. symmetry in H. by apply first_second_keys in H.
  - repeat constructor.
  - vm_compute. reflexivity.
  - vm_compute. lia.
Defined.

(** A file with the magic number and format version 2. *)
Definition version2_file : bytes :=
  PutUint32 magicNumber ++ PutUint16 2 ++ replicate 60 Byte.xff.

Definition version2_machine : World :=
  {| fs := FS.Dir {[ "usb" := FS.Dir {[ "vault" :=
             FS.Dir {[ "credentials.vault" := FS.File version2_file ]} ]} ]};
     entropy := []; clock := 1700000000%Z |}.

Definition locked_handle : Vault :=
  {| path := vault_path; salt := []; key := []; gcm := None; data := None;
     unlocked := false |}.

Lemma Unlock_checks_header_first_witness :
  FS.ReadFile vault_path (fs version2_machine) = inr version2_file ∧
  Unlock "first password" (locked_handle, version2_machine) =
    (inl (ErrUnsupportedVersion 2), (locked_handle, version2_machine)).
Proof.
  assert (Hr : FS.ReadFile (path locked_handle) (fs version2_machine)
               = inr version2_file) by (vm_compute; reflexivity).
  split; [exact Hr|].
  apply (proj2 (Vault.Unlock_checks_header_first argon2_IDKey gcm_Open
                  json_Unmarshal "first password" _ _ _ Hr)).
  - vm_compute. lia.
  - vm_compute. reflexivity.
  - vm_compute. discriminate.
Defined.

(** An unlocked handle that holds one entry. *)
Definition stored_token : Entry :=
  {| ID := "auth/claudeai"; Type_ := CredentialOAuth; Provider := "claudeai";
     Data := String.list_byte_of_string "{}";
     CreatedAt := 1600000000%Z; UpdatedAt := 1600000000%Z;
     ExpiresAt := None; Metadata := ∅ |}.

Definition open_data : vaultData :=
  {| Version := 1%Z; Entries := {[ "auth/claudeai" := stored_token ]};
     dCreatedAt := 1600000000%Z; dUpdatedAt := 1600000000%Z |}.

Definition open_handle : Vault :=
  let salt := replicate 32 Byte.x2a in
  let k := derive argon2_IDKey "first password" salt in
  {| path := vault_path; salt := salt; key := k; gcm := Some (mkAEAD k);
     data := Some open_data; unlocked := true |}.

Definition open_machine : World :=
  {| fs := FS.Dir {[ "usb" := FS.Dir {[ "vault" := FS.Dir ∅ ]} ]};
     entropy := replicate 12 Byte.x2a; clock := 1700000000%Z |}.

Lemma ListEntries_omits_Data_witness :
  ∃ l, ListEntries open_handle = inr l ∧
       length l = 1 ∧
       (∀ e, e ∈ l → Data e = []).
Proof.
  destruct (Vault.ListEntries_omits_Data open_handle open_data eq_refl eq_refl)
    as (l & Hl & Hlen & Hdata & _).
  exists l. split_and!; [exact Hl| |exact Hdata].
  rewrite Hlen. apply map_size_singleton.
Defined.

Lemma SetEntry_effect_witness :
  ∃ v' w' stored,
    SetEntry token (open_handle, open_machine) = (inr tt, (v', w')) ∧
    GetEntry "auth/claudeai" v' = inr stored ∧
    CreatedAt stored = 1700000000%Z ∧
    UpdatedAt stored = 1700000000%Z.
Proof.
  destruct (proj2 (Vault.SetEntry_effect gcm_Seal json_Marshal token
                     open_handle open_machine _ open_data _)
              eq_refl eq_refl eq_refl eq_refl eq_refl)
    as (v' & w' & stored & nonce & HS & _ & HG & HC & HU & _).
  - vm_compute. lia.
  - vm_compute. reflexivity.
  - exists v', w', stored. split_and!; [exact HS|exact HG|exact HC|exact HU].
Defined.

Lemma in_sync_Exists P v w d : in_sync P v w d → Exists (path v) w = true.
Proof.
  intros [_ _ _ _ _ _ (nonce & pt & _ & _ & Hr)].
  unfold Exists, FS.Stat. unfold FS.ReadFile in Hr.
  by destruct (FS.get (path v) (fs w)).
Qed.

Lemma Create_replaces_existing_witness :
  ∃ v0 w0 v1 w1,
    Create vault_path "first password" machine = (inr v0, w0) ∧
    Create vault_path "second password" w0 = (inr v1, w1) ∧
    ∀ id, GetEntry id v1 = inl ErrEntryNotFound.
Proof.
  destruct (Vault.Create_in_sync argon2_IDKey gcm_Seal json_Marshal json_Valid
              derive_len Marshal_defined vault_path "first password" machine)
    as (v0 & w0 & HC & Hs & Hp & He & _).
  - vm_compute. reflexivity.
  - vm_compute. lia.
  - destruct (proj2 (Vault.Create_replaces_existing argon2_IDKey gcm_Seal
                       json_Marshal json_Valid derive_len Marshal_defined
                       "first password" "second password" v0 w0 _) Hs)
      as (v1 & w1 & HC1 & _ & HG).
    + rewrite He. vm_compute. lia.
    + rewrite Hp in HC1. exists v0, w0, v1, w1. split_and!; [exact HC|exact HC1|exact HG].
Defined.

(** C7 as stated fails: on a path that holds a vault with a stored
    credential, [Create] returns without error, the credential is gone and
    the first password no longer opens the file. *)
Lemma Create_destroys_existing_vault :
  ∃ v0 w0 v1 w1 v2 w2 stored h h1 h2,
    Create vault_path "first password" machine = (inr v0, w0) ∧
    SetEntry token (v0, w0) = (inr tt, (v1, w1)) ∧
    GetEntry (ID token) v1 = inr stored ∧
    Exists vault_path w1 = true ∧
    Create vault_path "second password" w1 = (inr v2, w2) ∧
    GetEntry (ID token) v2 = inl ErrEntryNotFound ∧
    Open vault_path w2 = inr h ∧
    Unlock "first password" (h, w2) = (inl ErrWrongPassword, (h1, w2)) ∧
    Unlock "second password" (h, w2) = (inr tt, (h2, w2)) ∧
    ListEntries h2 = inr [].
Proof.
  destruct (Vault.Create_in_sync argon2_IDKey gcm_Seal json_Marshal json_Valid
              derive_len Marshal_defined vault_path "first password" machine)
    as (v0 & w0 & HC & Hs0 & Hp0 & He0 & _);
    [vm_compute; reflexivity|vm_compute; lia|].
  destruct (Vault.SetEntry_in_sync argon2_IDKey gcm_Seal json_Marshal json_Valid
              Marshal_defined "first password" token v0 w0 _ Hs0 eq_refl)
    as (v1 & w1 & HS & Hs1 & Hp1 & He1 & _);
    [rewrite He0; vm_compute; lia|].
  destruct (Vault.Create_in_sync argon2_IDKey gcm_Seal json_Marshal json_Valid
              derive_len Marshal_defined (path v1) "second password" w1)
    as (v2 & w2 & HC2 & Hs2 & Hp2 & _).
  { apply (Vault.writable_creatable), Hs1. }
  { rewrite He1, He0. vm_compute. lia. }
  destruct (Vault.reopen_wrong argon2_IDKey gcm_Seal gcm_Open json_Marshal
              json_Unmarshal json_Valid derive_len Open_other_key
              "second password" "first password" v2 w2 _ Hs2)
    as (h & h1 & HO & HU1 & _); [apply first_second_keys|].
  destruct (Vault.reopen argon2_IDKey gcm_Seal gcm_Open json_Marshal
              json_Unmarshal json_Valid json_Compact utf8_Valid derive_len
              Open_Seal Unmarshal_Marshal
              "second password" v2 w2 _ Hs2 (fresh_readable _))
    as (h' & h2 & HO' & HU2 & Hu2 & Hd2).
  rewrite HO in HO'. injection HO' as <-.
  assert (Hpath : path v1 = vault_path) by congruence.
  rewrite Hp2, Hpath in HO. rewrite Hpath in HC2.
  exists v0, w0, v1, w1, v2, w2, (stamp (clock w0) token), h, h1, h2.
  split_and!; try done.
  - unfold GetEntry. rewrite (Vault.sync_unlocked _ _ _ _ _ _ _ _ Hs1),
      (Vault.sync_data _ _ _ _ _ _ _ _ Hs1). cbn [negb with_entry Entries].
    by rewrite lookup_insert_eq.
  - rewrite <-Hpath. by apply (in_sync_Exists "first password" _ _ _ Hs1).
  - unfold GetEntry. rewrite (Vault.sync_unlocked _ _ _ _ _ _ _ _ Hs2),
      (Vault.sync_data _ _ _ _ _ _ _ _ Hs2). done.
  - unfold ListEntries. rewrite Hu2, Hd2.
    cbn [negb read_back fresh_data Entries].
    by rewrite fmap_empty, map_to_list_empty.
Qed.

(** C8 as stated fails: storing the same credential a second time, the
    way [auth] does with a newly built entry, is an update of an ID that is
    already there, and it moves [CreatedAt]. *)
Lemma SetEntry_update_moves_CreatedAt :
  ∃ v0 w0 v1 w1 v2 w2 first second,
    Create vault_path "first password" machine = (inr v0, w0) ∧
    SetEntry token (v0, w0) = (inr tt, (v1, w1)) ∧
    GetEntry (ID token) v1 = inr first ∧
    SetEntry token (v1, w1) = (inr tt, (v2, w2)) ∧
    GetEntry (ID token) v2 = inr second ∧
    CreatedAt first = 1700000001%Z ∧
    CreatedAt second = 1700000002%Z.
Proof.
  destruct (Vault.Create_in_sync argon2_IDKey gcm_Seal json_Marshal json_Valid
              derive_len Marshal_defined vault_path "first password" machine)
    as (v0 & w0 & HC & Hs0 & Hp0 & He0 & _ & Hc0);
    [vm_compute; reflexivity|vm_compute; lia|].
  destruct (Vault.SetEntry_in_sync argon2_IDKey gcm_Seal json_Marshal json_Valid
              Marshal_defined "first password" token v0 w0 _ Hs0 eq_refl)
    as (v1 & w1 & HS1 & Hs1 & Hp1 & He1 & _ & Hc1);
    [rewrite He0; vm_compute; lia|].
  destruct (Vault.SetEntry_in_sync argon2_IDKey gcm_Seal json_Marshal json_Valid
              Marshal_defined "first password" token v1 w1 _ Hs1 eq_refl)
    as (v2 & w2 & HS2 & Hs2 & Hp2 & He2 & _ & Hc2);
    [rewrite He1, He0; vm_compute; lia|].
  exists v0, w0, v1, w1, v2, w2, (stamp (clock w0) token), (stamp (clock w1) token).
  split_and!; try done.
  - unfold GetEntry. rewrite (Vault.sync_unlocked _ _ _ _ _ _ _ _ Hs1),
      (Vault.sync_data _ _ _ _ _ _ _ _ Hs1). cbn [negb with_entry Entries].
    by rewrite lookup_insert_eq.
  - unfold GetEntry. rewrite (Vault.sync_unlocked _ _ _ _ _ _ _ _ Hs2),
      (Vault.sync_data _ _ _ _ _ _ _ _ Hs2). cbn [negb with_entry Entries].
    by rewrite lookup_insert_eq.
  - cbn. by rewrite Hc1, Hc0.
Qed.

(** *** More of the vault on the machine *)

Local Abbreviation DeleteEntry := (Vault.DeleteEntry gcm_Seal json_Marshal).

Lemma Lock_then_Unlock_witness :
  ∃ v0 w0 v1 w1 v' stored,
    Create vault_path "first password" machine = (inr v0, w0) ∧
    SetEntry token (v0, w0) = (inr tt, (v1, w1)) ∧
    GetEntry "auth/claudeai" v1 = inr stored ∧
    Data stored = String.list_byte_of_string "{}" ∧
    IsUnlocked (Lock v1) = false ∧
    GetEntry "auth/claudeai" (Lock v1) = inl ErrVaultLocked ∧
    Unlock "first password" (Lock v1, w1) = (inr tt, (v', w1)) ∧
    IsUnlocked v' = true ∧
    GetEntry "auth/claudeai" v' = inr stored.
Proof.
  destruct (Vault.Create_in_sync argon2_IDKey gcm_Seal json_Marshal json_Valid
              derive_len Marshal_defined vault_path "first password" machine)
    as (v0 & w0 & HC & Hs0 & _ & He0 & _).
  { vm_compute. reflexivity. }
  { vm_compute. lia. }
  destruct (Vault.SetEntry_in_sync argon2_IDKey gcm_Seal json_Marshal json_Valid
              Marshal_defined "first password" token v0 w0 _ Hs0 eq_refl)
    as (v1 & w1 & HS & Hs1 & _).
  { rewrite He0. vm_compute. lia. }
  assert (HG : GetEntry "auth/claudeai" v1 = inr (stamp (clock w0) token)).
  { unfold GetEntry. rewrite (Vault.sync_unlocked _ _ _ _ _ _ _ _ Hs1),
      (Vault.sync_data _ _ _ _ _ _ _ _ Hs1). cbn [negb with_entry Entries].
    change "auth/claudeai" with (ID token). by rewrite lookup_insert_eq. }
  destruct (Vault.Lock_then_Unlock argon2_IDKey gcm_Seal gcm_Open json_Marshal
              json_Unmarshal json_Valid json_Compact utf8_Valid derive_len
              Open_Seal Unmarshal_Marshal
              "first password" v1 w1 _ Hs1)
    as (Hl & _ & _ & _ & Hlocked & _ & _ & _ & v' & HU & Hu & _ & _ & Hback).
  { apply Vault.readable_with_entry; [apply fresh_readable|apply token_plain]. }
  exists v0, w0, v1, w1, v', (stamp (clock w0) token).
  split_and!; [exact HC|exact HS|exact HG|reflexivity|exact Hl|apply Hlocked
              |exact HU|exact Hu|].
  apply (Hback _ _ HG). reflexivity.
Defined.

Lemma DeleteEntry_effect_witness :
  ∃ v0 w0 v1 w1 v2 w2 h h',
    Create vault_path "first password" machine = (inr v0, w0) ∧
    SetEntry token (v0, w0) = (inr tt, (v1, w1)) ∧
    DeleteEntry "auth/claudeai" (v1, w1) = (inr tt, (v2, w2)) ∧
    GetEntry "auth/claudeai" v2 = inl ErrEntryNotFound ∧
    Open vault_path w2 = inr h ∧
    Unlock "first password" (h, w2) = (inr tt, (h', w2)) ∧
    GetEntry "auth/claudeai" h' = inl ErrEntryNotFound.
Proof.
  destruct (Vault.Create_in_sync argon2_IDKey gcm_Seal json_Marshal json_Valid
              derive_len Marshal_defined vault_path "first password" machine)
    as (v0 & w0 & HC & Hs0 & Hp0 & He0 & _ & _).
  { vm_compute. reflexivity. }
  { vm_compute. lia. }
  destruct (Vault.SetEntry_in_sync argon2_IDKey gcm_Seal json_Marshal json_Valid
              Marshal_defined "first password" token v0 w0 _ Hs0 eq_refl)
    as (v1 & w1 & HS & Hs1 & Hp1 & He1 & _ & _).
  { rewrite He0. vm_compute. lia. }
  destruct (proj2 (proj2 (Vault.DeleteEntry_effect argon2_IDKey gcm_Seal gcm_Open
                            json_Marshal json_Unmarshal json_Valid json_Compact
                            utf8_Valid derive_len
                            Open_Seal Unmarshal_Marshal Marshal_defined
                            "first password" "auth/claudeai" v1 w1 _)) Hs1)
    as (v2 & w2 & h & h' & HD & _ & HG & _ & HO & HU & HG' & _).
  { apply Vault.readable_with_entry; [apply fresh_readable|apply token_plain]. }
  { eexists. apply lookup_insert_eq. }
  { rewrite He1, He0. vm_compute. lia. }
  rewrite Hp1, Hp0 in HO.
  exists v0, w0, v1, w1, v2, w2, h, h'.
  split_and!; [exact HC|exact HS|exact HD|exact HG|exact HO|exact HU|exact HG'].
Defined.

(** A machine whose random source is exhausted. *)
Definition dry_machine : World :=
  {| fs := FS.Dir {[ "usb" := FS.Dir {[ "vault" := FS.Dir ∅ ]} ]};
     entropy := []; clock := 1700000000%Z |}.

Lemma SetEntry_keeps_entry_when_save_fails_witness :
  ∃ v', SetEntry token (open_handle, dry_machine) =
          (inl (Wrapped "failed to generate nonce" RandError),
           (v', mkWorld (fs dry_machine) [] 1700000001%Z)) ∧
        GetEntry "auth/claudeai" v' = inr (stamp 1700000000%Z token).
Proof.
  destruct (proj2 (Vault.SetEntry_keeps_entry_when_save_fails gcm_Seal json_Marshal
                     token open_handle dry_machine open_data eq_refl eq_refl))
    as (v' & HS & HG).
  - by eexists.
  - vm_compute. lia.
  - exists v'. split; [exact HS|exact HG].
Defined.

(** A vault file that ends inside the salt. *)
Definition short_file : bytes :=
  [Byte.x43; Byte.x43; Byte.x47; Byte.x4f; Byte.x00; Byte.x01;
   Byte.x2a; Byte.x2a; Byte.x2a; Byte.x2a].

Definition short_machine : World :=
  {| fs := FS.Dir {[ "usb" := FS.Dir {[ "vault" :=
             FS.Dir {[ "credentials.vault" := FS.File short_file ]} ]} ]};
     entropy := []; clock := 1700000000%Z |}.

Lemma Unlock_truncated_witness :
  Open vault_path short_machine = inr locked_handle ∧
  Unlock "first password" (locked_handle, short_machine) =
    (inl ErrVaultCorrupted, (locked_handle, short_machine)).
Proof.
  split; [reflexivity|].
  destruct (Vault.Unlock_truncated argon2_IDKey gcm_Open json_Unmarshal derive_len
              "first password" locked_handle short_machine short_file)
    as (v' & HU & _ & _ & Hsame).
  - reflexivity.
  - vm_compute. lia.
  - reflexivity.
  - reflexivity.
  - vm_compute. lia.
  - rewrite <-Hsame at 2; [exact HU|vm_compute; lia].
Defined.

Lemma failed_Unlock_changes_key_witness :
  ∃ v0 w0 v1 v2 w2 h hP hQ,
    Create vault_path "first password" machine = (inr v0, w0) ∧
    Unlock "second password" (v0, w0) = (inl ErrWrongPassword, (v1, w0)) ∧
    IsUnlocked v1 = true ∧
    SetEntry token (v1, w0) = (inr tt, (v2, w2)) ∧
    Open vault_path w2 = inr h ∧
    Unlock "first password" (h, w2) = (inl ErrWrongPassword, (hP, w2)) ∧
    Unlock "second password" (h, w2) = (inr tt, (hQ, w2)).
Proof.
  destruct (Vault.Create_in_sync argon2_IDKey gcm_Seal json_Marshal json_Valid
              derive_len Marshal_defined vault_path "first password" machine)
    as (v0 & w0 & HC & Hs0 & Hp0 & He0 & _ & _).
  { vm_compute. reflexivity. }
  { vm_compute. lia. }
  destruct (Vault.failed_Unlock_changes_key argon2_IDKey gcm_Seal gcm_Open
              json_Marshal json_Unmarshal json_Valid json_Compact utf8_Valid
              derive_len Open_Seal
              Unmarshal_Marshal Marshal_defined Open_other_key
              "first password" "second password" token v0 w0 _ Hs0)
    as (v1 & v2 & w2 & h & hP & hQ & HU & Hu & _ & HS & HO & HUP & HUQ & _).
  { intros H. symmetry in H. by apply first_second_keys in H. }
  { reflexivity. }
  { apply fresh_readable. }
  { apply token_plain. }
  { rewrite He0. vm_compute. lia. }
  rewrite Hp0 in HO.
  exists v0, w0, v1, v2, w2, h, hP, hQ.
  split_and!; [exact HC|exact HU|exact Hu|exact HS|exact HO|exact HUP|exact HUQ].
Defined.

(** A machine where the vault path is a directory. *)
Definition blocked_machine : World :=
  {| fs := FS.Dir {[ "usb" := FS.Dir {[ "vault" :=
             FS.Dir {[ "credentials.vault" := FS.Dir ∅ ]} ]} ]};
     entropy := replicate 12 Byte.x2a; clock := 1700000000%Z |}.

Lemma save_removes_staging_file_witness :
  ∃ v' w',
    SetEntry token (open_handle, blocked_machine) =
      (inl (Wrapped "failed to finalize vault" (OsError FS.EISDIR)), (v', w')) ∧
    fs w' = fs blocked_machine.
Proof.
  apply (Vault.save_removes_staging_file gcm_Seal json_Marshal token open_handle
           blocked_machine _ open_data _ ["usb"; "vault"] "credentials.vault"
           eq_refl eq_refl eq_refl eq_refl).
  - vm_compute. lia.
  - reflexivity.
  - reflexivity.
  - reflexivity.
Defined.


End VaultModel.

(** ** fmt.Sscanf with the verb [%d]

    What [fmt.Sscanf(s, "%d", &n)] stores in [n]: leading blanks are
    skipped (a line feed is an error), one sign is accepted, then the
    longest run of digits and underscores is taken and given to
    [strconv.ParseInt(tok, 10, 64)], which refuses underscores and values
    outside [int64].  What follows the number is not looked at.  On an
    error nothing is stored. *)

Module Scan.

Definition is_digit (c : ascii) : bool :=
  (48 <=? nat_of_ascii c) && (nat_of_ascii c <=? 57).

Definition digit (c : ascii) : Z := Z.of_nat (nat_of_ascii c - 48).

Definition byte_is (c : ascii) (n : nat) : bool := nat_of_ascii c =? n.

(** The blanks of [fmt]'s [isSpace], in UTF-8, the line feed apart. *)
Definition blank1 (c : ascii) : bool :=
  byte_is c 9 || byte_is c 11 || byte_is c 12 || byte_is c 13 || byte_is c 32.

Definition blank2 (c1 c2 : ascii) : bool :=
  byte_is c1 194 && (byte_is c2 133 || byte_is c2 160).

Definition blank3 (c1 c2 c3 : ascii) : bool :=
  (byte_is c1 225 && byte_is c2 154 && byte_is c3 128) ||
  (byte_is c1 226 && byte_is c2 128 &&
     ((128 <=? nat_of_ascii c3) && (nat_of_ascii c3 <=? 138)
      || byte_is c3 168 || byte_is c3 169 || byte_is c3 175)) ||
  (byte_is c1 226 && byte_is c2 129 && byte_is c3 159) ||
  (byte_is c1 227 && byte_is c2 128 && byte_is c3 128).

(** [SkipSpace]: [None] is the "unexpected newline" error. *)
Fixpoint SkipSpace (s : string) : option string :=
  match s with
  | String c1 r1 =>
      if byte_is c1 10 then None
      else if blank1 c1 then SkipSpace r1
      else match r1 with
           | String c2 r2 =>
               if blank2 c1 c2 then SkipSpace r2
               else match r2 with
                    | String c3 r3 =>
                        if blank3 c1 c2 c3 then SkipSpace r3 else Some s
                    | EmptyString => Some s
                    end
           | EmptyString => Some s
           end
  | EmptyString => Some s
  end.

(** The run of digits and underscores [scanNumber] accepts. *)
Fixpoint number_token (s : string) : list ascii :=
  match s with
  | String c r => if is_digit c || byte_is c 95 then c :: number_token r else []
  | EmptyString => []
  end.

(** [strconv.ParseUint(tok, 10, 64)] before the range check. *)
Definition decimal (tok : list ascii) : option Z :=
  foldl (λ acc c, n ← acc; if is_digit c then Some (10 * n + digit c)%Z else None)
        (Some 0%Z) tok.

Definition scanInt (s : string) : option Z :=
  s ← SkipSpace s;
  let '(neg, r) :=
    match s with
    | String c r => if byte_is c 45 then (true, r)
                    else if byte_is c 43 then (false, r) else (false, s)
    | EmptyString => (false, s)
    end in
  match number_token r with
  | [] => None
  | tok =>
      n ← decimal tok;
      if neg then (if (n <=? 2 ^ 63)%Z then Some (- n)%Z else None)
      else (if (n <? 2 ^ 63)%Z then Some n else None)
  end.

(** The value of an [int] variable that was zero before
    [fmt.Sscanf(s, "%d", &n)]. *)
Definition Sscanf_d (s : string) : Z := default 0%Z (scanInt s).

End Scan.

(** ** internal/update *)

Module Update.

Local Open Scope go_scope.

Definition manifestURL : string :=
  "https://github.com/cxt9/claude-go/releases/latest/download/manifest.json".

(** Download represents download information for a platform *)
Record Download := mkDownload {
  URL : string;
  SHA256 : string;
  Size : Z;
}.

(** Manifest represents the version manifest from GitHub *)
Record Manifest := mkManifest {
  Version : string;
  ReleaseDate : string;
  Changelog : list string;
  Downloads : gmap string Download;
  MinVersion : string;
}.

(** Updater handles self-updates *)
Record Updater := mkUpdater {
  USBRoot : FS.path;
  CurrentVersion : string;
  Platform : string;
}.

(** What [http.Get] meets: no connection, or a status and the bytes the
    body delivers; [broken] when the stream then ends with an error
    instead of [io.EOF]. *)
Inductive http_result :=
  | ConnError
  | Response (status : Z) (body : bytes) (broken : bool).

(** The network, and the name [os.CreateTemp] comes up with. *)
Record Env := mkEnv {
  net : string → http_result;
  temp : FS.path;
}.

Inductive error :=
  | OsError (e : FS.errno)
  | ConnFailed
  | BadStatus (msg : string) (status : Z)
  | BodyError
  | ZipError
  | EntryError (name : string)
  | ChecksumMismatch (expected actual : string)
  | NoRollback
  | NoDownload (platform : string)
  | DecodeError
  | Wrapped (msg : string) (cause : error).

(** *** compareVersions *)

(** Simple version comparison (assumes semver format x.y.z) *)
Fixpoint compare_loop (n i : nat) (partsA partsB : list string) : Z :=
  match n with
  | 0 => 0%Z
  | S n' =>
      let numA := if i <? length partsA
                  then Scan.Sscanf_d (default "" (partsA !! i)) else 0%Z in
      let numB := if i <? length partsB
                  then Scan.Sscanf_d (default "" (partsB !! i)) else 0%Z in
      if (numA >? numB)%Z then 1%Z
      else if (numA <? numB)%Z then (-1)%Z
      else compare_loop n' (S i) partsA partsB
  end.

Definition compareVersions (a b : string) : Z :=
  compare_loop 3 0 (Str.split "." a) (Str.split "." b).

(** *** encoding/hex and strings.EqualFold *)

Definition hex_digit (n : N) : ascii :=
  if (n <? 10)%N then ascii_of_N (48 + n) else ascii_of_N (87 + n).

Definition hex_byte (b : Byte.byte) : string :=
  let n := Byte.to_N b in
  String (hex_digit (n / 16)%N) (String (hex_digit (n mod 16)%N) EmptyString).

(** [hex.EncodeToString] *)
Definition EncodeToString (b : bytes) : string :=
  foldr (λ x acc, String.append (hex_byte x) acc) EmptyString b.

Definition lower (c : ascii) : ascii :=
  let n := nat_of_ascii c in
  if (65 <=? n) && (n <=? 90) then ascii_of_nat (n + 32) else c.

Definition upper (c : ascii) : ascii :=
  let n := nat_of_ascii c in
  if (97 <=? n) && (n <=? 122) then ascii_of_nat (n - 32) else c.

(** [strings.EqualFold] on the ASCII letters; other bytes must be equal.
    (Unicode folds only [K] and [S] to letters outside ASCII, so against a
    hexadecimal digest this is all of [EqualFold].) *)
Fixpoint EqualFold (s t : string) : bool :=
  match s, t with
  | EmptyString, EmptyString => true
  | String a s', String b t' => Ascii.eqb (lower a) (lower b) && EqualFold s' t'
  | _, _ => false
  end.

Definition ToUpper (s : string) : string :=
  (fix go s := match s with
               | EmptyString => EmptyString
               | String c r => String (upper c) (go r)
               end) s.

(** *** archive/zip *)

(** A [*zip.File]: its name, whether [FileInfo().IsDir()], what [Open]
    gives ([None]: an error) and whether reading it to the end reports a
    checksum error. *)
Record ZipFile := mkZipFile {
  Name : string;
  IsDir : bool;
  Content : option bytes;
  BadCRC : bool;
}.

Definition lift {S A} (r : error + A) : M error S A := λ s, (r, s).

(** [os.CreateTemp]: the name is new. *)
Definition CreateTemp (p : FS.path) : M FS.errno World unit :=
  λ w, match FS.get p (fs w) with
       | Some _ => (inl FS.EEXIST, w)
       | None => OS.WriteFile p [] w
       end.

Section WithLibraries.

(** The libraries the updater calls and this repository does not contain:
    crypto/sha256, the zip reader, encoding/json on the two documents the
    updater reads, and the RFC 3339 layout of a time. *)
Variable sha256_Sum : bytes → bytes.
Variable zip_Files : bytes → option (list ZipFile).
Variable json_Manifest : bytes → option Manifest.
Variable json_version : bytes → option string.
Variable RFC3339 : Z → string.

Definition quote : string := String (ascii_of_nat 34) EmptyString.

(** CheckForUpdate checks if a newer version is available *)
Definition CheckForUpdate (u : Updater) (env : Env) : error + (Manifest * bool) :=
  match net env manifestURL with
  | ConnError => inl (Wrapped "failed to fetch manifest" ConnFailed)
  | Response status body _ =>
      if negb (status =? 200)%Z then inl (BadStatus "manifest not found" status)
      else match json_Manifest body with
           | None => inl (Wrapped "invalid manifest" DecodeError)
           | Some manifest =>
               let hasUpdate :=
                 (compareVersions (Version manifest) (CurrentVersion u) >? 0)%Z in
               inr (manifest, hasUpdate)
           end
  end.

Definition copyFile (src dst : FS.path) : M FS.errno World unit :=
  content <- OS.ReadFile src ;;
  OS.WriteFile dst content.

(** The function copyDir gives to [filepath.Walk], run on what the walk
    finds: [relPath] is the path from [src], the destination is
    [filepath.Join(dst, relPath)]; the first error ends the walk. *)
Fixpoint visit (src dst : FS.path) (found : list (FS.path * bool)) :
    M FS.errno World unit :=
  match found with
  | [] => ret tt
  | (relPath, isDir) :: rest =>
      (if isDir then OS.MkdirAll (dst ++ relPath)
       else copyFile (src ++ relPath) (dst ++ relPath)) ;;;
      visit src dst rest
  end.

(** The walk is that of the tree at [src] when copyDir starts: what the
    function writes is below [dst], and the only caller copies [bin] to
    its sibling [.rollback].  A [src] that cannot be examined is the error
    the walk hands to the function, which returns it. *)
Definition copyDir (src dst : FS.path) : M FS.errno World unit :=
  λ w, match FS.Stat src (fs w) with
       | inl e => (inl e, w)
       | inr n => visit src dst (FS.walk n) w
       end.

Definition createRollback (u : Updater) : M FS.errno World unit :=
  let binDir := FS.Join (USBRoot u) "bin" in
  let rollbackDir := FS.Join (USBRoot u) ".rollback" in
  OS.RemoveAll rollbackDir ;;;
  copyDir binDir rollbackDir.

Definition rollback (u : Updater) : M error World unit :=
  let rollbackDir := FS.Join (USBRoot u) ".rollback" in
  let binDir := FS.Join (USBRoot u) "bin" in
  λ w, match FS.Stat rollbackDir (fs w) with
       | inl FS.ENOENT => (inl NoRollback, w)
       | _ =>
           (ignore (E := error) (OS.RemoveAll binDir) ;;;
            try_ OsError (OS.Rename rollbackDir binDir)) w
       end.

Definition cleanupRollback (u : Updater) : M error World unit :=
  ignore (OS.RemoveAll (FS.Join (USBRoot u) ".rollback")).

Definition clearCache (u : Updater) : M error World unit :=
  let cacheDir := FS.Join (USBRoot u) "cache" in
  ignore (OS.RemoveAll cacheDir) ;;;
  ignore (OS.MkdirAll cacheDir).

(** The body is copied to a new temporary file as it arrives; the writes
    are not checked.  When the stream breaks the file stays behind. *)
Definition downloadUpdate (env : Env) (download : Download) : M error World FS.path :=
  match net env (URL download) with
  | ConnError => fail ConnFailed
  | Response status body broken =>
      if negb (status =? 200)%Z then fail (BadStatus "download failed" status)
      else
        try_ OsError (CreateTemp (temp env)) ;;;
        ignore (OS.WriteFile (temp env) body) ;;;
        if broken then fail BodyError else ret (temp env)
  end.

Definition verifyChecksum (filePath : FS.path) (expectedHash : string)
    : M error World unit :=
  content <- try_ OsError (OS.ReadFile filePath) ;;
  let actualHash := EncodeToString (sha256_Sum content) in
  if negb (EqualFold actualHash expectedHash)
  then fail (ChecksumMismatch expectedHash actualHash)
  else ret tt.

Definition extractFile (f : ZipFile) (destPath : FS.path) : M error World unit :=
  try_ OsError (OS.MkdirAll (FS.parent destPath)) ;;;
  rc <- lift (match Content f with
              | Some c => inr c
              | None => inl (EntryError (Name f))
              end) ;;
  try_ OsError (OS.WriteFile destPath rc) ;;;
  if BadCRC f then fail (EntryError (Name f)) else ret tt.

(** Only extract bin/ and scripts *)
Definition skipped (name : string) : bool :=
  negb (Str.HasPrefix name "bin/") &&
  negb (Str.HasSuffix name ".sh") &&
  negb (Str.HasSuffix name ".bat").

Fixpoint extractFiles (u : Updater) (files : list ZipFile) : M error World unit :=
  match files with
  | [] => ret tt
  | f :: rest =>
      if skipped (Name f) then extractFiles u rest
      else
        let destPath := FS.Join (USBRoot u) (Name f) in
        if IsDir f then
          ignore (OS.MkdirAll destPath) ;;; extractFiles u rest
        else
          extractFile f destPath ;;; extractFiles u rest
  end.

Definition extractUpdate (u : Updater) (zipPath : FS.path) : M error World unit :=
  content <- try_ OsError (OS.ReadFile zipPath) ;;
  match zip_Files content with
  | None => fail ZipError
  | Some files => extractFiles u files
  end.

Definition writeVersionFile (u : Updater) (version : string) : M error World unit :=
  let versionFile := FS.Join (USBRoot u) ".version" in
  now <- OS.time_Now ;;
  let data :=
    String.concat ""
      ["{"; quote; "version"; quote; ":"; quote; version; quote; ",";
       quote; "updated_at"; quote; ":"; quote; RFC3339 now; quote; "}"] in
  try_ OsError (OS.WriteFile versionFile (String.list_byte_of_string data)).

Definition readVersionFile (usbRoot : FS.path) (w : World) : string :=
  let versionFile := FS.Join usbRoot ".version" in
  match FS.ReadFile versionFile (fs w) with
  | inl _ => "0.0.0"
  | inr data =>
      match json_version data with
      | None => "0.0.0"
      | Some v => v
      end
  end.

(** NewUpdater creates a new updater; [plat] is [platform.Current()]. *)
Definition NewUpdater (usbRoot : FS.path) (plat : string) (w : World) : Updater :=
  {| USBRoot := usbRoot; CurrentVersion := readVersionFile usbRoot w;
     Platform := plat |}.

(** [defer cleanup] before [body]. *)
Definition deferred {A} (cleanup : M error World unit) (body : M error World A)
    : M error World A :=
  λ w, let '(r, w') := body w in (r, snd (cleanup w')).

(** PerformUpdate downloads and installs an update *)
Definition PerformUpdate (u : Updater) (env : Env) (manifest : Manifest)
    : M error World unit :=
  match Downloads manifest !! Platform u with
  | None => fail (NoDownload (Platform u))
  | Some download =>
      try_ (λ e, Wrapped "failed to create backup" (OsError e)) (createRollback u) ;;;
      λ w, match downloadUpdate env download w with
           | (inl e, w') =>
               (inl (Wrapped "download failed" e), snd (rollback u w'))
           | (inr tmpFile, w') =>
               deferred (ignore (OS.Remove tmpFile))
                 (λ w, match verifyChecksum tmpFile (SHA256 download) w with
                       | (inl e, w') =>
                           (inl (Wrapped "checksum verification failed" e),
                            snd (rollback u w'))
                       | (inr _, w') =>
                           match extractUpdate u tmpFile w' with
                           | (inl e, w'') =>
                               (inl (Wrapped "extraction failed" e),
                                snd (rollback u w''))
                           | (inr _, w'') =>
                               (ignore (writeVersionFile u (Version manifest)) ;;;
                                cleanupRollback u ;;;
                                clearCache u) w''
                           end
                       end) w'
           end
  end.

(** PerformOfflineUpdate installs from a local zip file *)
Definition PerformOfflineUpdate (u : Updater) (zipPath : FS.path)
    : M error World unit :=
  try_ (λ e, Wrapped "failed to create backup" (OsError e)) (createRollback u) ;;;
  λ w, match extractUpdate u zipPath w with
       | (inl e, w') => (inl (Wrapped "extraction failed" e), snd (rollback u w'))
       | (inr _, w') => (cleanupRollback u ;;; clearCache u) w'
       end.

(** *** Version comparison *)

(** The [i]-th component of a version: the integer [Sscanf] reads from the
    [i]-th piece between the dots, 0 when there is no such piece. *)
Definition component (v : string) (i : nat) : Z :=
  match Str.split "." v !! i with
  | Some s => Scan.Sscanf_d s
  | None => 0%Z
  end.

(** The order of the specification: numeric, component by component, on
    three components. *)
Definition spec_compare (a b : string) : comparison :=
  match (component a 0 ?= component b 0)%Z with
  | Eq =>
      match (component a 1 ?= component b 1)%Z with
      | Eq => (component a 2 ?= component b 2)%Z
      | c => c
      end
  | c => c
  end.

Definition sign (c : comparison) : Z :=
  match c with Lt => (-1)%Z | Eq => 0%Z | Gt => 1%Z end.

Lemma loop_component (v : string) (i : nat) :
  (if i <? length (Str.split "." v)
   then Scan.Sscanf_d (default "" (Str.split "." v !! i)) else 0%Z)
  = component v i.
Proof.
  unfold component. destruct (Nat.ltb_spec i (length (Str.split "." v))) as [H|H].
  - apply lookup_lt_is_Some_2 in H as [s ->]. done.
  - by rewrite lookup_ge_None_2.
Qed.

Lemma step_compare (x y r : Z) :
  (if (x >? y)%Z then 1%Z else if (x <? y)%Z then (-1)%Z else r) =
  match (x ?= y)%Z with Gt => 1%Z | Lt => (-1)%Z | Eq => r end.
Proof.
  rewrite Z.gtb_ltb, !Z.ltb_compare, (Z.compare_antisym x y).
  by destruct (x ?= y)%Z.
Qed.

Lemma compareVersions_spec (a b : string) :
  compareVersions a b = sign (spec_compare a b).
Proof.
  unfold compareVersions, spec_compare. cbn [compare_loop].
  rewrite !loop_component, !step_compare.
  destruct (component a 0 ?= component b 0)%Z; [|done..].
  destruct (component a 1 ?= component b 1)%Z; [|done..].
  by destruct (component a 2 ?= component b 2)%Z.
Qed.

(** C4.  [compareVersions] is the numeric, component-wise order on the
    first three dot-separated components, a missing component counting as
    0: so 1.10.0 is above 1.9.9, 1.3.0 above 1.2.9, and 1.2 equals 1.2.0.
    When the manifest is fetched and decoded, [CheckForUpdate] returns it
    and reports an update exactly when its version is above the current
    one in that order. *)
Theorem compareVersions_numeric (u : Updater) (env : Env)
    (body : bytes) (broken : bool) (m : Manifest) :
  (∀ a b, compareVersions a b = sign (spec_compare a b)) ∧
  (∀ v i, length (Str.split "." v) ≤ i → component v i = 0%Z) ∧
  compareVersions "1.10.0" "1.9.9" = 1%Z ∧
  compareVersions "1.3.0" "1.2.9" = 1%Z ∧
  compareVersions "1.2" "1.2.0" = 0%Z ∧
  (net env manifestURL = Response 200 body broken →
   json_Manifest body = Some m →
   ∃ hasUpdate,
     CheckForUpdate u env = inr (m, hasUpdate) ∧
     (hasUpdate = true ↔ spec_compare (Version m) (CurrentVersion u) = Gt)).
Proof.
  split_and!; try done.
  - apply compareVersions_spec.
  - intros v i H. unfold component. by rewrite lookup_ge_None_2.
  - intros Hnet Hm. unfold CheckForUpdate. rewrite Hnet, Hm. cbn [Z.eqb negb].
    eexists. split; [reflexivity|].
    rewrite compareVersions_spec, Z.gtb_ltb, Z.ltb_lt.
    destruct (spec_compare _ _); simpl; split; (done || lia).
Qed.

(** *** copyDir copies *)

Lemma visit_app src dst l1 l2 w :
  visit src dst (l1 ++ l2) w =
    match visit src dst l1 w with
    | (inr _, w') => visit src dst l2 w'
    | (inl e, w') => (inl e, w')
    end.
Proof.
  revert w. induction l1 as [|[p d] l1 IH]; intros w; [done|].
  cbn [app visit]. unfold bind.
  destruct (if d then _ else _) as [[e|[]] w']; [done|]. apply IH.
Qed.

Section Copy.

Variables src dst : FS.path.
Hypothesis Hap : FS.apart src dst.

(** The walk of [n], found at [r] below [src], leaves [n] at [r] below
    [dst], when nothing is there yet and the directory for it is. *)
Definition copies (n : FS.node) : Prop :=
  ∀ (r : FS.path) (t : FS.node) (w : World),
    FS.get (src ++ r) t = Some n →
    FS.is_dir (FS.get (FS.parent (dst ++ r)) t) = true →
    FS.get (dst ++ r) t = None →
    visit src dst (FS.under r (FS.walk n)) (set_fs t w) =
      (inr tt, set_fs (FS.put (dst ++ r) n t) w).

Lemma dst_ne_nil (r : FS.path) : dst ++ r ≠ [].
Proof. apply (FS.apart_ne_nil (src ++ r)). by apply FS.apart_app. Qed.

Lemma copies_File c : copies (FS.File c).
Proof.
  intros r t w Hs Hd Hn. cbn [FS.walk]. rewrite FS.under_cons, app_nil_r.
  cbn [FS.under fmap list_fmap visit]. unfold bind, copyFile, bind.
  unfold OS.ReadFile, OS.ask, FS.ReadFile. rewrite fs_set_fs, Hs.
  unfold OS.WriteFile, OS.sys. rewrite fs_set_fs.
  rewrite FS.WriteFile_eq by apply dst_ne_nil.
  rewrite Hd, Hn. cbn. by rewrite set_fs_set_fs.
Qed.

Lemma copies_entries (m : gmap string FS.node) (r : FS.path) :
  (∀ k c, m !! k = Some c → copies c) →
  ∀ (entries : list (string * FS.node)) (acc : gmap string FS.node)
    (t : FS.node) (w : World),
    NoDup entries.*1 →
    (∀ e, e ∈ entries → m !! e.1 = Some e.2 ∧ acc !! e.1 = None) →
    FS.get (src ++ r) t = Some (FS.Dir m) →
    FS.get (dst ++ r) t = Some (FS.Dir acc) →
    visit src dst
      (mjoin ((λ e, FS.under (r ++ [e.1]) (FS.walk e.2)) <$> entries))
      (set_fs t w) =
      (inr tt,
       set_fs (FS.put (dst ++ r)
                 (FS.Dir (foldl (λ a e, <[e.1 := e.2]> a) acc entries)) t) w).
Proof.
  intros IH. induction entries as [|[k c] l IHl]; intros acc t w Hnd Hin Hs Hd.
  - cbn. f_equal. f_equal. unfold FS.put. symmetry. apply FS.palter_id.
    by rewrite Hd.
  - rewrite fmap_cons in Hnd. apply NoDup_cons in Hnd as [Hk Hnd].
    destruct (Hin (k, c)) as [Hm Hacc]; [apply list_elem_of_here|].
    cbn [fst snd] in Hm, Hacc.
    rewrite fmap_cons. cbn [mjoin list_join fst snd]. rewrite visit_app.
    rewrite (IH k c Hm (r ++ [k]) t w).
    + rewrite (IHl (<[k := c]> acc)); [| done | | |].
      * cbn [foldl fst snd]. rewrite !app_assoc.
        f_equal. f_equal.
        apply (FS.put_over (dst ++ r) [k] (λ _, Some c)), dst_ne_nil.
      * intros e He. destruct (Hin e) as [? ?]; [by apply list_elem_of_further|].
        split; [done|]. rewrite lookup_insert_ne; [done|].
        intros E. apply Hk. apply list_elem_of_fmap. by exists e.
      * unfold FS.put. rewrite FS.get_palter_apart; [done|].
        apply FS.apart_sym. rewrite <-(app_nil_r (src ++ r)), <-app_assoc.
        by apply FS.apart_app.
      * rewrite app_assoc. by apply FS.get_put_child.
    + rewrite app_assoc. by rewrite (FS.get_snoc_dir _ _ _ _ Hs).
    + rewrite app_assoc, FS.parent_snoc. by rewrite Hd.
    + rewrite app_assoc. by rewrite (FS.get_snoc_dir _ _ _ _ Hd).
Qed.

Lemma copies_Dir (m : gmap string FS.node) :
  (∀ k c, m !! k = Some c → copies c) → copies (FS.Dir m).
Proof.
  intros IH r t w Hs Hd Hn.
  destruct (FS.walk_Dir m r) as (entries & Hp & ->).
  pose proof (dst_ne_nil r) as Hdne.
  cbn [visit]. unfold bind at 1. unfold OS.MkdirAll, OS.sys, FS.MkdirAll.
  rewrite fs_set_fs.
  rewrite (app_removelast_last "" Hdne) at 1.
  rewrite FS.mkdirAll_new;
    [| exact Hd |by rewrite <-(app_removelast_last "" Hdne)].
  rewrite <-(app_removelast_last "" Hdne). rewrite set_fs_set_fs.
  rewrite (copies_entries m r IH entries ∅).
  - rewrite (FS.foldl_insert_listing _ _ Hp). unfold FS.put.
    by rewrite FS.palter_compose.
  - rewrite Hp. apply NoDup_fst_map_to_list.
  - intros [k c] He. rewrite Hp in He. apply elem_of_map_to_list in He.
    split; [done|apply lookup_empty].
  - unfold FS.put. rewrite FS.get_palter_apart; [done|].
    apply FS.apart_sym. by apply FS.apart_app.
  - unfold FS.put. by rewrite FS.get_palter_eq.
Qed.

Lemma copies_all (n : FS.node) : copies n.
Proof.
  induction n as [c|m IH] using FS.node_children_ind;
    [apply copies_File|by apply copies_Dir].
Qed.

(** copyDir to a name that is free, in a directory that is there, leaves
    at that name the tree found at [src], and nothing else changes. *)
Lemma copyDir_copies (n : FS.node) (w : World) :
  FS.get src (fs w) = Some n →
  FS.is_dir (FS.get (FS.parent dst) (fs w)) = true →
  FS.get dst (fs w) = None →
  copyDir src dst w = (inr tt, set_fs (FS.put dst n (fs w)) w).
Proof.
  intros Hs Hd Hn. unfold copyDir, FS.Stat. rewrite Hs.
  pose proof (copies_all n [] (fs w) w) as H.
  rewrite !app_nil_r, set_fs_fs, FS.under_nil in H. by apply H.
Qed.

End Copy.

(** *** The snapshot and the way back *)

Definition binDir (u : Updater) : FS.path := USBRoot u ++ ["bin"].
Definition rollbackDir (u : Updater) : FS.path := USBRoot u ++ [".rollback"].

Lemma Join_bin u : FS.Join (USBRoot u) "bin" = binDir u.
Proof. by apply FS.Join_name. Qed.

Lemma Join_rollback u : FS.Join (USBRoot u) ".rollback" = rollbackDir u.
Proof. by apply FS.Join_name. Qed.

Lemma bin_rollback u : ¬ binDir u `prefix_of` rollbackDir u.
Proof. by apply FS.sibling_not_prefix. Qed.

Lemma rollback_bin u : ¬ rollbackDir u `prefix_of` binDir u.
Proof. by apply FS.sibling_not_prefix. Qed.

Lemma createRollback_ok (u : Updater) (w : World) (b : FS.node) :
  FS.get (binDir u) (fs w) = Some b →
  createRollback u w =
    (inr tt, set_fs (FS.put (rollbackDir u) b (FS.del (rollbackDir u) (fs w))) w).
Proof.
  intros Hb.
  assert (Hroot : FS.is_dir (FS.get (USBRoot u) (fs w)) = true).
  { apply (FS.get_snoc_is_dir _ "bin"). unfold binDir in Hb. by rewrite Hb. }
  set (t1 := FS.del (rollbackDir u) (fs w)).
  assert (Hb1 : FS.get (binDir u) t1 = Some b).
  { unfold t1, FS.del. rewrite FS.get_palter_ne;
      [done|apply rollback_bin|apply bin_rollback]. }
  assert (Hroot1 : FS.is_dir (FS.get (USBRoot u) t1) = true).
  { unfold t1, FS.del. rewrite FS.is_dir_get_palter; [done|by apply prefix_app_r|].
    intros E. apply (f_equal length) in E. unfold rollbackDir in E.
    rewrite length_app in E. simpl in E. lia. }
  assert (Hrb1 : FS.get (rollbackDir u) t1 = None).
  { unfold t1, FS.del. rewrite FS.get_palter_eq; [done|apply FS.snoc_ne_nil|].
    unfold rollbackDir. by rewrite FS.parent_snoc. }
  unfold createRollback. rewrite Join_bin, Join_rollback.
  unfold bind, OS.RemoveAll, FS.RemoveAll. cbn [fs set_fs]. fold t1.
  rewrite (copyDir_copies (binDir u) (rollbackDir u)) with (n := b).
  - by rewrite fs_set_fs, set_fs_set_fs.
  - split; [apply bin_rollback|apply rollback_bin].
  - by rewrite fs_set_fs.
  - rewrite fs_set_fs. unfold rollbackDir. by rewrite FS.parent_snoc.
  - by rewrite fs_set_fs.
Qed.

Lemma rollback_ok (u : Updater) (w : World) (b : FS.node) :
  FS.get (rollbackDir u) (fs w) = Some b →
  rollback u w =
    (inr tt, set_fs (FS.put (binDir u) b
                       (FS.del (rollbackDir u) (FS.del (binDir u) (fs w)))) w).
Proof.
  intros Hrb.
  assert (Hroot : FS.is_dir (FS.get (USBRoot u) (fs w)) = true).
  { apply (FS.get_snoc_is_dir _ ".rollback"). unfold rollbackDir in Hrb. by rewrite Hrb. }
  set (t1 := FS.del (binDir u) (fs w)).
  assert (Hrb1 : FS.get (rollbackDir u) t1 = Some b).
  { unfold t1, FS.del. rewrite FS.get_palter_ne;
      [done|apply bin_rollback|apply rollback_bin]. }
  assert (Hroot1 : FS.is_dir (FS.get (USBRoot u) t1) = true).
  { unfold t1, FS.del. rewrite FS.is_dir_palter_not_below; [done|].
    intros H. apply prefix_length in H. unfold binDir in H.
    rewrite length_app in H. simpl in H. lia. }
  assert (Hbin1 : FS.get (binDir u) t1 = None).
  { unfold t1, FS.del. rewrite FS.get_palter_eq; [done|apply FS.snoc_ne_nil|].
    unfold binDir. by rewrite FS.parent_snoc. }
  unfold rollback. rewrite Join_bin, Join_rollback.
  unfold FS.Stat. rewrite Hrb.
  unfold bind, ignore, try_, OS.RemoveAll, FS.RemoveAll, OS.Rename, OS.sys.
  cbn [snd]. rewrite fs_set_fs. fold t1.
  unfold FS.Rename. rewrite Hrb1.
  rewrite bool_decide_eq_false_2
    by (unfold rollbackDir, binDir; intros E; by apply app_inv_head in E).
  rewrite (bool_decide_eq_false_2 (rollbackDir u = [])) by apply FS.snoc_ne_nil.
  rewrite (bool_decide_eq_false_2 (binDir u = [])) by apply FS.snoc_ne_nil.
  rewrite bool_decide_eq_false_2 by apply rollback_bin.
  unfold binDir at 1. rewrite FS.parent_snoc, Hroot1, Hbin1. cbn [orb negb].
  by destruct b.
Qed.

Lemma download_body (env : Env) (dl : Download) (w : World)
    (body : bytes) (broken : bool) :
  net env (URL dl) = Response 200 body broken →
  FS.get (temp env) (fs w) = None →
  FS.is_dir (FS.get (FS.parent (temp env)) (fs w)) = true →
  downloadUpdate env dl w =
    (if broken then inl BodyError else inr (temp env),
     set_fs (FS.put (temp env) (FS.File body) (fs w)) w).
Proof.
  intros Hnet Hnew Hdir.
  assert (Hne : temp env ≠ []) by (by intros E; rewrite E in Hnew).
  unfold downloadUpdate. rewrite Hnet, Z.eqb_refl. cbn [negb].
  unfold bind, try_, ignore, CreateTemp, OS.WriteFile, OS.sys. rewrite Hnew.
  rewrite FS.WriteFile_eq, Hdir, Hnew by done. cbn [negb FS.is_dir snd].
  rewrite fs_set_fs, FS.WriteFile_eq by done.
  unfold FS.put.
  rewrite FS.is_dir_palter_not_below.
  2:{ intros H. apply prefix_length in H.
      destruct (exists_last Hne) as (d & c & E). rewrite E in H.
      rewrite FS.parent_snoc, length_app in H. simpl in H. lia. }
  rewrite Hdir. cbn [negb].
  rewrite FS.get_palter_eq by done. cbn [FS.is_dir].
  rewrite set_fs_set_fs, FS.palter_compose.
  by destruct broken.
Qed.

(** Snapshot, anything at a path apart from the device, way back: only
    the snapshot directory is gone. *)
Lemma restore_algebra (u : Updater) (t0 : FS.node) (b : FS.node)
    (f : option FS.node → option FS.node) (tmp : FS.path) :
  FS.get (binDir u) t0 = Some b →
  FS.apart tmp (USBRoot u) →
  FS.put (binDir u) b
    (FS.del (rollbackDir u)
       (FS.del (binDir u)
          (FS.palter f tmp (FS.put (rollbackDir u) b (FS.del (rollbackDir u) t0)))))
  = FS.palter f tmp (FS.del (rollbackDir u) t0).
Proof.
  intros Hb Hap.
  assert (Hbin : FS.apart (binDir u) tmp) by (by apply FS.apart_sym, FS.apart_snoc).
  assert (Hrb : FS.apart (rollbackDir u) tmp) by (by apply FS.apart_sym, FS.apart_snoc).
  assert (Hbr : FS.apart (binDir u) (rollbackDir u))
    by (split; [apply bin_rollback|apply rollback_bin]).
  unfold FS.put, FS.del.
  rewrite !(FS.palter_commute_apart _ f _ tmp) by assumption.
  f_equal.
  rewrite !(FS.palter_commute_apart _ _ (rollbackDir u) (binDir u))
    by (by apply FS.apart_sym).
  rewrite !FS.palter_compose.
  rewrite (FS.palter_commute_apart _ _ (binDir u) (rollbackDir u)) by done.
  rewrite (FS.palter_id _ (binDir u)) by (by rewrite Hb).
  by apply FS.palter_ext.
Qed.

Lemma temp_apart (u : Updater) (tmp : FS.path) (t : FS.node) :
  is_Some (FS.get (binDir u) t) →
  FS.get tmp t = None →
  ¬ USBRoot u `prefix_of` tmp →
  FS.apart tmp (USBRoot u).
Proof.
  intros Hb Hnew Hout. split; [|done].
  intros Hpre.
  assert (is_Some (FS.get tmp t)) as [? ?]; [|congruence].
  apply (FS.get_prefix_is_Some tmp (binDir u)); [|done].
  unfold binDir. by apply prefix_app_r.
Qed.

(** *** The integrity check *)

Lemma verifyChecksum_spec (p : FS.path) (expected : string) (w : World)
    (content : bytes) :
  FS.ReadFile p (fs w) = inr content →
  verifyChecksum p expected w =
    (if EqualFold (EncodeToString (sha256_Sum content)) expected
     then inr tt
     else inl (ChecksumMismatch expected (EncodeToString (sha256_Sum content))),
     w).
Proof.
  intros Hr. unfold verifyChecksum, bind, try_, OS.ReadFile, OS.ask.
  rewrite Hr. by destruct (EqualFold _ expected).
Qed.

Lemma lower_upper (c : ascii) : lower (upper c) = lower c.
Proof. destruct c as [[] [] [] [] [] [] [] []]; reflexivity. Qed.

Lemma EqualFold_ToUpper (s t : string) :
  EqualFold s (ToUpper t) = EqualFold s t ∧
  EqualFold (ToUpper s) t = EqualFold s t.
Proof.
  split.
  - revert s. induction t as [|c t IH]; intros [|a s]; simpl; try done.
    by rewrite lower_upper, IH.
  - revert t. induction s as [|c s IH]; intros [|a t]; simpl; try done.
    by rewrite lower_upper, IH.
Qed.

(** Two bytes that are the same up to letter case: equal, or the upper
    and the lower case of one ASCII letter. *)
Definition same_letter (a b : ascii) : Prop :=
  a = b ∨
  (65 ≤ nat_of_ascii a ≤ 90 ∧ nat_of_ascii b = nat_of_ascii a + 32) ∨
  (65 ≤ nat_of_ascii b ≤ 90 ∧ nat_of_ascii a = nat_of_ascii b + 32).

Lemma lower_nat (c : ascii) :
  nat_of_ascii (lower c) =
    if (65 <=? nat_of_ascii c) && (nat_of_ascii c <=? 90)
    then nat_of_ascii c + 32 else nat_of_ascii c.
Proof.
  unfold lower. destruct ((65 <=? nat_of_ascii c) && (nat_of_ascii c <=? 90)) eqn:E;
    [|done].
  apply andb_true_iff in E as [_ E]. apply Nat.leb_le in E.
  apply nat_ascii_embedding. lia.
Qed.

Lemma nat_of_ascii_inj (a b : ascii) : nat_of_ascii a = nat_of_ascii b → a = b.
Proof.
  intros H. rewrite <-(ascii_nat_embedding a), <-(ascii_nat_embedding b).
  by rewrite H.
Qed.

Lemma lower_same (a b : ascii) :
  Ascii.eqb (lower a) (lower b) = true ↔ same_letter a b.
Proof.
  rewrite Ascii.eqb_eq. unfold same_letter. split.
  - intros H. apply (f_equal nat_of_ascii) in H. rewrite !lower_nat in H.
    destruct (Nat.leb_spec 65 (nat_of_ascii a)), (Nat.leb_spec (nat_of_ascii a) 90),
      (Nat.leb_spec 65 (nat_of_ascii b)), (Nat.leb_spec (nat_of_ascii b) 90);
      cbn [andb] in H;
      first [ left; apply nat_of_ascii_inj; lia
            | right; left; lia
            | right; right; lia ].
  - intros H. apply nat_of_ascii_inj. rewrite !lower_nat.
    destruct H as [->|[[Ha Hb]|[Hb Ha]]]; [done|..];
      destruct (Nat.leb_spec 65 (nat_of_ascii a)), (Nat.leb_spec (nat_of_ascii a) 90),
        (Nat.leb_spec 65 (nat_of_ascii b)), (Nat.leb_spec (nat_of_ascii b) 90);
        cbn [andb]; lia.
Qed.

(** [EqualFold] accepts exactly the strings that are the same up to
    letter case. *)
Lemma EqualFold_same (s t : string) :
  EqualFold s t = true ↔
  Forall2 same_letter (list_ascii_of_string s) (list_ascii_of_string t).
Proof.
  revert t. induction s as [|a s IH]; intros [|b t]; cbn [EqualFold list_ascii_of_string].
  - split; [constructor|done].
  - split; [done|]. intros H. inversion H.
  - split; [done|]. intros H. inversion H.
  - rewrite andb_true_iff, lower_same, IH, Forall2_cons. done.
Qed.

Lemma same_letter_refl (a : ascii) : same_letter a a.
Proof. by left. Qed.

Lemma EqualFold_refl (s : string) : EqualFold s s = true.
Proof.
  apply EqualFold_same. induction (list_ascii_of_string s); constructor; [by left|done].
Qed.

(** The error [downloadUpdate] returns, if any. *)
Definition download_error (r : http_result) : option error :=
  match r with
  | ConnError => Some ConnFailed
  | Response status _ broken =>
      if negb (status =? 200)%Z then Some (BadStatus "download failed" status)
      else if broken then Some BodyError else None
  end.

(** *** What extraction leaves alone *)

Lemma extractFile_keeps (q : FS.path) (f : ZipFile) (dest : FS.path) (w : World) :
  ¬ q `prefix_of` dest →
  ∃ t', snd (extractFile f dest w) = set_fs t' w ∧ FS.keeps q (fs w) t'.
Proof.
  intros Hq.
  assert (Hqp : ¬ q `prefix_of` FS.parent dest).
  { intros H. apply Hq. etrans; [exact H|apply FS.parent_prefix]. }
  unfold extractFile, bind, try_, lift, OS.MkdirAll, OS.WriteFile, OS.sys.
  destruct (FS.MkdirAll (FS.parent dest) (fs w)) as [e|t1] eqn:E1.
  { exists (fs w). split; [by rewrite set_fs_fs|apply FS.keeps_refl]. }
  pose proof (FS.MkdirAll_keeps q _ _ _ Hqp E1) as K1.
  destruct (Content f) as [c|].
  2:{ exists t1. by split. }
  rewrite fs_set_fs.
  destruct (FS.WriteFile dest c t1) as [e|t2] eqn:E2.
  { exists t1. by split. }
  pose proof (FS.WriteFile_keeps q _ _ _ _ Hq E2) as K2.
  exists t2. split; [by destruct (BadCRC f)|by apply (FS.keeps_trans _ _ t1)].
Qed.

Lemma extractFiles_keeps (u : Updater) (q : FS.path) (files : list ZipFile) (w : World) :
  (∀ f, f ∈ files → skipped (Name f) = false →
        ¬ q `prefix_of` FS.Join (USBRoot u) (Name f)) →
  ∃ t', snd (extractFiles u files w) = set_fs t' w ∧ FS.keeps q (fs w) t'.
Proof.
  revert w. induction files as [|f rest IH]; intros w Hq.
  { exists (fs w). split; [by rewrite set_fs_fs|apply FS.keeps_refl]. }
  assert (Hrest : ∀ f, f ∈ rest → skipped (Name f) = false →
                       ¬ q `prefix_of` FS.Join (USBRoot u) (Name f)).
  { intros g Hg. apply Hq. by apply list_elem_of_further. }
  cbn [extractFiles]. destruct (skipped (Name f)) eqn:Hs; [by apply IH|].
  assert (Hf : ¬ q `prefix_of` FS.Join (USBRoot u) (Name f)).
  { apply Hq; [apply list_elem_of_here|done]. }
  assert (Hnext : ∀ t1, FS.keeps q (fs w) t1 →
            ∃ t', snd (extractFiles u rest (set_fs t1 w)) = set_fs t' w ∧
                  FS.keeps q (fs w) t').
  { intros t1 K1. destruct (IH (set_fs t1 w) Hrest) as (t' & E & K).
    exists t'. rewrite E, set_fs_set_fs. split; [done|].
    by apply (FS.keeps_trans _ _ t1). }
  destruct (IsDir f).
  - unfold bind, ignore, OS.MkdirAll, OS.sys.
    destruct (FS.MkdirAll _ (fs w)) as [e|t1] eqn:E1; cbn [snd].
    + destruct (Hnext (fs w) (FS.keeps_refl _ _)) as (t' & E & K).
      rewrite set_fs_fs in E. by exists t'.
    + apply Hnext. by apply (FS.MkdirAll_keeps q _ _ _ Hf E1).
  - destruct (extractFile_keeps q f _ w Hf) as (t1 & E1 & K1).
    unfold bind. destruct (extractFile f _ w) as [[e|[]] w1]; cbn [snd] in *.
    + exists t1. by split.
    + subst w1. by apply Hnext.
Qed.

(** *** PerformUpdate on the failure paths *)

(** The tree once [createRollback] has copied the payload [b]. *)
Definition snapshot_of (u : Updater) (b : FS.node) (t : FS.node) : FS.node :=
  FS.put (rollbackDir u) b (FS.del (rollbackDir u) t).

Section Failures.

Variables (u : Updater) (env : Env) (manifest : Manifest) (dl : Download).
Variables (w : World) (b : FS.node).

(** There is a download for this platform and a payload directory to
    snapshot, and the temporary file is a new name in an existing directory
    outside the device. *)
Hypothesis Hdl : Downloads manifest !! Platform u = Some dl.
Hypothesis Hbin : FS.get (binDir u) (fs w) = Some b.
Hypothesis Hnew : FS.get (temp env) (fs w) = None.
Hypothesis Htmpdir : FS.is_dir (FS.get (FS.parent (temp env)) (fs w)) = true.
Hypothesis Hout : ¬ USBRoot u `prefix_of` temp env.

Local Abbreviation snapshot := (snapshot_of u b (fs w)).

Lemma tmp_apart : FS.apart (temp env) (USBRoot u).
Proof. apply (temp_apart u _ (fs w)); [by rewrite Hbin|done..]. Qed.

Lemma tmp_apart_bin : FS.apart (temp env) (binDir u).
Proof. apply FS.apart_snoc, tmp_apart. Qed.

Lemma tmp_apart_rollback : FS.apart (temp env) (rollbackDir u).
Proof. apply FS.apart_snoc, tmp_apart. Qed.

Lemma root_is_dir : FS.is_dir (FS.get (USBRoot u) (fs w)) = true.
Proof. apply (FS.get_snoc_is_dir _ "bin"). unfold binDir in Hbin. by rewrite Hbin. Qed.

Lemma snapshot_rollback : FS.get (rollbackDir u) snapshot = Some b.
Proof.
  unfold snapshot_of, FS.put, FS.del. rewrite FS.get_palter_eq;
    [done|apply FS.snoc_ne_nil|].
  unfold rollbackDir. rewrite FS.parent_snoc.
  rewrite FS.is_dir_palter_not_below; [apply root_is_dir|].
  intros H. apply prefix_length in H. rewrite length_app in H. simpl in H. lia.
Qed.

Lemma snapshot_temp : FS.get (temp env) snapshot = None.
Proof.
  unfold snapshot_of, FS.put, FS.del.
  rewrite !FS.get_palter_apart by (apply FS.apart_sym, tmp_apart_rollback). done.
Qed.

Lemma snapshot_tmpdir : FS.is_dir (FS.get (FS.parent (temp env)) snapshot) = true.
Proof.
  assert (Hnb : ¬ rollbackDir u `prefix_of` FS.parent (temp env)).
  { intros H. apply (proj2 tmp_apart_rollback).
    etrans; [exact H|apply FS.parent_prefix]. }
  unfold snapshot_of, FS.put, FS.del. by rewrite !FS.is_dir_palter_not_below.
Qed.

(** The state in which [rollback] runs after a failure, and the state it
    leaves: [f] is what has happened to the temporary file. *)
Lemma rollback_after (f : option FS.node → option FS.node) (w1 : World) :
  w1 = set_fs (FS.palter f (temp env) snapshot) w →
  rollback u w1 =
    (inr tt, set_fs (FS.palter f (temp env) (FS.del (rollbackDir u) (fs w))) w).
Proof.
  intros ->.
  rewrite (rollback_ok _ _ b).
  - rewrite fs_set_fs, set_fs_set_fs. unfold snapshot_of.
    rewrite restore_algebra; [done..|apply tmp_apart].
  - rewrite fs_set_fs, FS.get_palter_apart by apply tmp_apart_rollback.
    apply snapshot_rollback.
Qed.

Lemma restored_bin (f : option FS.node → option FS.node) :
  FS.get (binDir u) (FS.palter f (temp env) (FS.del (rollbackDir u) (fs w))) = Some b ∧
  FS.get (rollbackDir u) (FS.palter f (temp env) (FS.del (rollbackDir u) (fs w))) = None.
Proof.
  rewrite !FS.get_palter_apart by (apply tmp_apart_bin || apply tmp_apart_rollback).
  split.
  - unfold FS.del. rewrite FS.get_palter_ne; [done|apply rollback_bin|apply bin_rollback].
  - unfold FS.del. rewrite FS.get_palter_eq; [done|apply FS.snoc_ne_nil|].
    unfold rollbackDir. rewrite FS.parent_snoc. apply root_is_dir.
Qed.

Local Abbreviation restored := (set_fs (FS.RemoveAll (rollbackDir u) (fs w)) w).
Local Abbreviation downloaded body :=
  (set_fs (FS.put (temp env) (FS.File body) snapshot) w).

Lemma PerformUpdate_after_snapshot :
  PerformUpdate u env manifest w =
    match downloadUpdate env dl (set_fs snapshot w) with
    | (inl e, w') => (inl (Wrapped "download failed" e), snd (rollback u w'))
    | (inr tmpFile, w') =>
        deferred (ignore (OS.Remove tmpFile))
          (λ w, match verifyChecksum tmpFile (SHA256 dl) w with
                | (inl e, w') =>
                    (inl (Wrapped "checksum verification failed" e),
                     snd (rollback u w'))
                | (inr _, w') =>
                    match extractUpdate u tmpFile w' with
                    | (inl e, w'') =>
                        (inl (Wrapped "extraction failed" e), snd (rollback u w''))
                    | (inr _, w'') =>
                        (ignore (writeVersionFile u (Version manifest)) ;;;
                         cleanupRollback u ;;;
                         clearCache u) w''
                    end
                end) w'
    end.
Proof.
  unfold PerformUpdate. rewrite Hdl. unfold bind at 1. unfold try_ at 1.
  by rewrite (createRollback_ok u w b Hbin).
Qed.

Lemma downloaded_read body :
  FS.ReadFile (temp env) (fs (downloaded body)) = inr body.
Proof.
  rewrite fs_set_fs. unfold FS.ReadFile, FS.put.
  rewrite FS.get_palter_eq; [done| |apply snapshot_tmpdir].
  intros E. pose proof Hnew as H. by rewrite E in H.
Qed.

Lemma remove_temp body :
  snd (OS.Remove (temp env)
         (set_fs (FS.palter (λ _, Some (FS.File body)) (temp env)
                    (FS.del (rollbackDir u) (fs w))) w)) = restored.
Proof.
  assert (Hne : temp env ≠ []) by (intros E; pose proof Hnew as H; by rewrite E in H).
  assert (Hd : FS.is_dir (FS.get (FS.parent (temp env))
                            (FS.del (rollbackDir u) (fs w))) = true).
  { unfold FS.del. rewrite FS.is_dir_palter_not_below; [done|].
    intros H. apply (proj2 tmp_apart_rollback).
    etrans; [exact H|apply FS.parent_prefix]. }
  unfold OS.Remove, OS.sys. rewrite fs_set_fs, FS.Remove_eq by done.
  rewrite FS.get_palter_eq by done. cbn [snd].
  rewrite set_fs_set_fs. unfold FS.del. rewrite FS.palter_compose.
  rewrite (FS.palter_id _ (temp env)); [done|].
  simpl. rewrite FS.get_palter_apart by (apply FS.apart_sym, tmp_apart_rollback).
  done.
Qed.

(** C5.  [verifyChecksum] compares the hexadecimal SHA-256 of the whole
    file with the expected digest, letter case apart.  When the digest of
    the download differs from the manifest's, [PerformUpdate] returns the
    checksum error and the machine is as before, the snapshot directory
    apart: the payload is the one of before and nothing of the download is
    left.  When the download fails, [PerformUpdate] returns the error after
    the way back: the payload directory holds what it held before and the
    snapshot directory is gone.  When extraction fails, the state returned
    is the one [rollback] leaves (the temporary file then removed); for an
    archive that does not write into the snapshot this too has the payload
    directory as before and the snapshot directory gone.  The comparison
    accepts the strings that are the same up to the case of their letters
    and no other: a download whose digest is the manifest's up to letter
    case passes the check, and when its archive then unpacks
    [PerformUpdate] returns without error. *)
Theorem PerformUpdate_rolls_back :
  (∀ p expected w0 content,
     FS.ReadFile p (fs w0) = inr content →
     verifyChecksum p expected w0 =
       (if EqualFold (EncodeToString (sha256_Sum content)) expected
        then inr tt
        else inl (ChecksumMismatch expected (EncodeToString (sha256_Sum content))),
        w0)) ∧
  (∀ s t, EqualFold s (ToUpper t) = EqualFold s t ∧
          EqualFold (ToUpper s) t = EqualFold s t) ∧
  (∀ body,
     net env (URL dl) = Response 200 body false →
     EqualFold (EncodeToString (sha256_Sum body)) (SHA256 dl) = false →
     PerformUpdate u env manifest w =
       (inl (Wrapped "checksum verification failed"
               (ChecksumMismatch (SHA256 dl) (EncodeToString (sha256_Sum body)))),
        restored)) ∧
  (∀ e,
     download_error (net env (URL dl)) = Some e →
     ∃ w', PerformUpdate u env manifest w = (inl (Wrapped "download failed" e), w') ∧
           FS.get (binDir u) (fs w') = Some b ∧
           FS.get (rollbackDir u) (fs w') = None) ∧
  (∀ body,
     net env (URL dl) = Response 200 body false →
     EqualFold (EncodeToString (sha256_Sum body)) (SHA256 dl) = true →
     (zip_Files body = None →
      PerformUpdate u env manifest w =
        (inl (Wrapped "extraction failed" ZipError), restored)) ∧
     (∀ files e w4,
        zip_Files body = Some files →
        extractFiles u files (downloaded body) = (inl e, w4) →
        PerformUpdate u env manifest w =
          (inl (Wrapped "extraction failed" e),
           snd (OS.Remove (temp env) (snd (rollback u w4)))) ∧
        ((∀ f, f ∈ files → skipped (Name f) = false →
               ¬ rollbackDir u `prefix_of` FS.Join (USBRoot u) (Name f)) →
         ∃ w', PerformUpdate u env manifest w =
                 (inl (Wrapped "extraction failed" e), w') ∧
               FS.get (binDir u) (fs w') = Some b ∧
               FS.get (rollbackDir u) (fs w') = None))) ∧
  (∀ s t, EqualFold s t = true ↔
          Forall2 same_letter (list_ascii_of_string s) (list_ascii_of_string t)) ∧
  (∀ s, EqualFold s s = true ∧ EqualFold s (ToUpper s) = true ∧
        EqualFold (ToUpper s) s = true) ∧
  (∀ p expected w0 content,
     FS.ReadFile p (fs w0) = inr content →
     Forall2 same_letter
       (list_ascii_of_string (EncodeToString (sha256_Sum content)))
       (list_ascii_of_string expected) →
     verifyChecksum p expected w0 = (inr tt, w0)) ∧
  (∀ body files w4,
     net env (URL dl) = Response 200 body false →
     Forall2 same_letter
       (list_ascii_of_string (EncodeToString (sha256_Sum body)))
       (list_ascii_of_string (SHA256 dl)) →
     zip_Files body = Some files →
     extractFiles u files (downloaded body) = (inr tt, w4) →
     ∃ w', PerformUpdate u env manifest w = (inr tt, w')).
Proof.
  split; [apply verifyChecksum_spec|]. split; [apply EqualFold_ToUpper|].
  split_and!.
  - (* checksum mismatch *)
    intros body Hnet Hne. rewrite PerformUpdate_after_snapshot.
    rewrite (download_body env dl _ body false Hnet);
      [|rewrite fs_set_fs; apply snapshot_temp
       |rewrite fs_set_fs; apply snapshot_tmpdir].
    rewrite fs_set_fs, set_fs_set_fs. unfold deferred.
    rewrite (verifyChecksum_spec _ _ _ body (downloaded_read body)), Hne.
    rewrite (rollback_after (λ _, Some (FS.File body))) by done.
    cbn [snd]. unfold ignore. by rewrite remove_temp.
  - (* download failure *)
    intros e He. rewrite PerformUpdate_after_snapshot.
    destruct (net env (URL dl)) as [|status body broken] eqn:Hnet.
    + injection He as <-. unfold downloadUpdate. rewrite Hnet. unfold fail.
      rewrite (rollback_after (λ x, x)) by (by rewrite FS.palter_id).
      eexists. split; [reflexivity|]. cbn [snd]. rewrite fs_set_fs.
      apply restored_bin.
    + simpl in He. destruct (status =? 200)%Z eqn:Hs; cbn [negb] in He.
      * apply Z.eqb_eq in Hs as ->. destruct broken; [|done]. injection He as <-.
        rewrite (download_body env dl _ body true Hnet);
          [|rewrite fs_set_fs; apply snapshot_temp
           |rewrite fs_set_fs; apply snapshot_tmpdir].
        rewrite fs_set_fs, set_fs_set_fs.
        rewrite (rollback_after (λ _, Some (FS.File body))) by done.
        eexists. split; [reflexivity|]. cbn [snd]. rewrite fs_set_fs.
        apply restored_bin.
      * injection He as <-. unfold downloadUpdate. rewrite Hnet, Hs. cbn [negb].
        unfold fail.
        rewrite (rollback_after (λ x, x)) by (by rewrite FS.palter_id).
        eexists. split; [reflexivity|]. cbn [snd]. rewrite fs_set_fs.
        apply restored_bin.
  - (* extraction failure *)
    intros body Hnet Heq.
    assert (Hstart : PerformUpdate u env manifest w =
      deferred (ignore (OS.Remove (temp env)))
        (λ w', match extractUpdate u (temp env) w' with
               | (inl e, w'') =>
                   (inl (Wrapped "extraction failed" e), snd (rollback u w''))
               | (inr _, w'') =>
                   (ignore (writeVersionFile u (Version manifest)) ;;;
                    cleanupRollback u ;;;
                    clearCache u) w''
               end) (downloaded body)).
    { rewrite PerformUpdate_after_snapshot.
      rewrite (download_body env dl _ body false Hnet);
        [|rewrite fs_set_fs; apply snapshot_temp
         |rewrite fs_set_fs; apply snapshot_tmpdir].
      rewrite fs_set_fs, set_fs_set_fs. unfold deferred.
      by rewrite (verifyChecksum_spec _ _ _ body (downloaded_read body)), Heq. }
    assert (Hex : extractUpdate u (temp env) (downloaded body) =
              match zip_Files body with
              | None => (inl ZipError, downloaded body)
              | Some files => extractFiles u files (downloaded body)
              end).
    { unfold extractUpdate, bind, try_, OS.ReadFile, OS.ask.
      rewrite downloaded_read. by destruct (zip_Files body). }
    split.
    + intros Hzip. rewrite Hstart. unfold deferred.
      rewrite Hex, Hzip.
      rewrite (rollback_after (λ _, Some (FS.File body))) by done.
      cbn [snd]. unfold ignore. by rewrite remove_temp.
    + intros files e w4 Hzip Hfail. rewrite Hstart. unfold deferred.
      rewrite Hex, Hzip, Hfail. split; [done|]. intros Hfiles.
      destruct (extractFiles_keeps u (rollbackDir u) files (downloaded body) Hfiles)
        as (t4 & Hw4 & Hget & Hdirs).
      rewrite Hfail in Hw4. cbn [snd] in Hw4. rewrite set_fs_set_fs in Hw4. subst w4.
      rewrite fs_set_fs in Hget, Hdirs.
      assert (Hrb4 : FS.get (rollbackDir u) t4 = Some b).
      { rewrite Hget. unfold FS.put.
        rewrite FS.get_palter_apart by apply tmp_apart_rollback.
        apply snapshot_rollback. }
      rewrite (rollback_ok u _ b) by (by rewrite fs_set_fs).
      rewrite fs_set_fs, set_fs_set_fs. cbn [snd].
      eexists. split; [reflexivity|].
      assert (Hroot4 : FS.is_dir (FS.get (USBRoot u) t4) = true).
      { apply (FS.get_snoc_is_dir _ ".rollback"). unfold rollbackDir in Hrb4.
        by rewrite Hrb4. }
      assert (Hnb : ∀ x, ¬ (USBRoot u ++ [x]) `prefix_of` USBRoot u).
      { intros x H. apply prefix_length in H. rewrite length_app in H.
        simpl in H. lia. }
      assert (Hrm : ∀ q t, FS.apart (temp env) q →
                FS.get q (fs (snd (OS.Remove (temp env) (set_fs t w)))) = FS.get q t).
      { intros q t Hq. unfold OS.Remove, OS.sys. rewrite fs_set_fs.
        destruct (FS.Remove (temp env) t) as [?|t'] eqn:E; cbn [snd];
          rewrite fs_set_fs; [done|].
        by apply (FS.Remove_keeps q _ _ _ Hq E). }
      unfold ignore. cbn [snd].
      rewrite !Hrm by (apply tmp_apart_bin || apply tmp_apart_rollback).
      unfold FS.put, FS.del. split.
      * rewrite FS.get_palter_eq; [done|apply FS.snoc_ne_nil|].
        unfold binDir at 1. rewrite FS.parent_snoc.
        rewrite !FS.is_dir_palter_not_below by apply Hnb. done.
      * rewrite FS.get_palter_ne by (apply bin_rollback || apply rollback_bin).
        rewrite FS.get_palter_eq; [done|apply FS.snoc_ne_nil|].
        unfold rollbackDir at 1. rewrite FS.parent_snoc.
        rewrite !FS.is_dir_palter_not_below by apply Hnb. done.
  - (* the comparison *)
    apply EqualFold_same.
  - intros s. split_and!.
    + apply EqualFold_refl.
    + rewrite (proj1 (EqualFold_ToUpper s s)). apply EqualFold_refl.
    + rewrite (proj2 (EqualFold_ToUpper s s)). apply EqualFold_refl.
  - intros p expected w0 content Hr Hsame.
    rewrite (verifyChecksum_spec _ _ _ content Hr).
    by rewrite (proj2 (EqualFold_same _ _) Hsame).
  - (* a digest that is the manifest's up to letter case *)
    intros body files w4 Hnet Hsame Hzip Hok.
    apply EqualFold_same in Hsame.
    rewrite PerformUpdate_after_snapshot.
    rewrite (download_body env dl _ body false Hnet);
      [|rewrite fs_set_fs; apply snapshot_temp
       |rewrite fs_set_fs; apply snapshot_tmpdir].
    rewrite fs_set_fs, set_fs_set_fs. unfold deferred.
    rewrite (verifyChecksum_spec _ _ _ body (downloaded_read body)), Hsame.
    unfold extractUpdate at 1. unfold bind at 1, try_ at 1, OS.ReadFile, OS.ask.
    rewrite downloaded_read, Hzip, Hok.
    unfold bind, ignore. cbn [fst snd]. by eexists.
Qed.

End Failures.

(** *** What the updater's helpers do *)

(** copyDir to a name that is free, in a directory that is there: the tree
    found at [src] is at [dst] afterwards, [src] still holds it, and
    whatever is neither at, below nor above [dst] is as before.  A [src]
    that is missing is an error and nothing is written. *)
Theorem copyDir_copies_tree (src dst : FS.path) (w : World) :
  (∀ n, FS.apart src dst →
        FS.get src (fs w) = Some n →
        FS.is_dir (FS.get (FS.parent dst) (fs w)) = true →
        FS.get dst (fs w) = None →
        ∃ w', copyDir src dst w = (inr tt, w') ∧
              FS.get dst (fs w') = Some n ∧
              FS.get src (fs w') = Some n ∧
              (∀ q, FS.apart dst q → FS.get q (fs w') = FS.get q (fs w)) ∧
              entropy w' = entropy w ∧ clock w' = clock w) ∧
  (FS.get src (fs w) = None →
   copyDir src dst w = (inl (FS.lookup_error src (fs w)), w)).
Proof.
  split.
  - intros n Hap Hs Hd Hn.
    assert (Hne : dst ≠ []) by apply (FS.apart_ne_nil _ _ Hap).
    eexists. split; [by apply copyDir_copies|].
    rewrite fs_set_fs. unfold FS.put. split_and!; try done.
    + by rewrite FS.get_palter_eq.
    + rewrite FS.get_palter_apart; [done|by apply FS.apart_sym].
    + intros q Hq. by rewrite FS.get_palter_apart.
  - intros Hs. unfold copyDir, FS.Stat. by rewrite Hs.
Qed.

Lemma lookup_error_missing (d : FS.path) (c : string) (t : FS.node) :
  FS.is_dir (FS.get d t) = true → FS.get (d ++ [c]) t = None →
  FS.lookup_error (d ++ [c]) t = FS.ENOENT.
Proof.
  revert t. induction d as [|x d IH]; intros [|m] Hd Hn; simpl in *; try done.
  - by destruct (m !! c).
  - destruct (m !! x) as [n|]; [|done]. simpl in *. by apply IH.
Qed.

(** The snapshot and the way back.  After [createRollback], whatever is
    done to the payload directory ([f] is any change of the entry [bin]:
    files replaced, added, the directory removed), [rollback] succeeds and
    leaves the tree as it was before the snapshot, a snapshot directory of
    an earlier update apart, which is gone.  Where there is no snapshot
    directory [rollback] refuses and changes nothing. *)
Theorem rollback_restores (u : Updater) (w : World) :
  (∀ b f,
     FS.get (binDir u) (fs w) = Some b →
     ∃ w1, createRollback u w = (inr tt, w1) ∧
           rollback u (set_fs (FS.palter f (binDir u) (fs w1)) w1) =
             (inr tt, set_fs (FS.RemoveAll (rollbackDir u) (fs w)) w)) ∧
  (FS.is_dir (FS.get (USBRoot u) (fs w)) = true →
   FS.get (rollbackDir u) (fs w) = None →
   rollback u w = (inl NoRollback, w)).
Proof.
  split.
  - intros b f Hb. eexists. split; [by apply createRollback_ok|].
    assert (Hbr : FS.apart (binDir u) (rollbackDir u))
      by (split; [apply bin_rollback|apply rollback_bin]).
    assert (Hroot : FS.is_dir (FS.get (USBRoot u) (fs w)) = true).
    { apply (FS.get_snoc_is_dir _ "bin"). unfold binDir in Hb. by rewrite Hb. }
    assert (Hnb : ∀ x, ¬ (USBRoot u ++ [x]) `prefix_of` USBRoot u).
    { intros x H. apply prefix_length in H. rewrite length_app in H.
      simpl in H. lia. }
    rewrite fs_set_fs, set_fs_set_fs.
    rewrite (rollback_ok _ _ b).
    + rewrite fs_set_fs, set_fs_set_fs. f_equal. f_equal.
      unfold FS.RemoveAll, FS.put, FS.del.
      rewrite (FS.palter_compose _ f).
      rewrite !(FS.palter_commute_apart _ _ (binDir u) (rollbackDir u)) by done.
      rewrite !FS.palter_compose.
      rewrite (FS.palter_id _ (binDir u)) by (by rewrite Hb).
      by apply FS.palter_ext.
    + rewrite fs_set_fs. rewrite FS.get_palter_apart by done.
      unfold FS.put, FS.del. rewrite FS.get_palter_eq;
        [done|apply FS.snoc_ne_nil|].
      unfold rollbackDir at 1. rewrite FS.parent_snoc.
      rewrite FS.is_dir_palter_not_below by apply Hnb. done.
  - intros Hroot Hn. unfold rollback. rewrite Join_rollback.
    unfold FS.Stat. rewrite Hn. unfold rollbackDir.
    by rewrite lookup_error_missing.
Qed.

(** What passes the test of [extractUpdate] is written at
    [filepath.Join(USBRoot, name)] and nowhere else: a path [q] such that no
    entry that passes has its destination at or below [q] holds after the
    extraction, whether it succeeds or fails, what it held before. *)
Theorem extractUpdate_leaves_alone (u : Updater) (zipPath q : FS.path) (w : World)
    (content : bytes) (files : list ZipFile) :
  FS.ReadFile zipPath (fs w) = inr content →
  zip_Files content = Some files →
  (∀ f, f ∈ files → skipped (Name f) = false →
        ¬ q `prefix_of` FS.Join (USBRoot u) (Name f)) →
  FS.get q (fs (snd (extractUpdate u zipPath w))) = FS.get q (fs w).
Proof.
  intros Hr Hz Hq. unfold extractUpdate, bind, try_, OS.ReadFile, OS.ask.
  rewrite Hr, Hz.
  destruct (extractFiles_keeps u q files w Hq) as (t' & -> & Hget & _).
  by rewrite fs_set_fs.
Qed.

(** *** Entries that stay below bin/ *)

Lemma HasPrefix_bin (name : string) :
  Str.HasPrefix name "bin/" = true →
  ∃ rest, Str.split "/" name = "bin" :: Str.split "/" rest.
Proof.
  unfold Str.HasPrefix. intros H.
  destruct name as [|c1 [|c2 [|c3 [|c4 rest]]]]; try discriminate H;
    cbn [String.prefix] in H;
    repeat match type of H with
           | (if ?d then _ else _) = true => destruct d; [subst|discriminate H]
           end; try discriminate H.
  exists rest. cbn [Str.split]. cbn [Ascii.eqb Bool.eqb].
  pose proof (Str.split_nonempty "/" rest).
  by destruct (Str.split "/" rest).
Qed.

Lemma clean_grows (comps : list string) (stack : FS.path) :
  ".." ∉ comps → stack `prefix_of` fold_left FS.clean_step comps stack.
Proof.
  revert stack. induction comps as [|c comps IH]; intros stack Hc; [done|].
  cbn [fold_left]. apply not_elem_of_cons in Hc as [Hne Hc].
  etrans; [|by apply IH]. unfold FS.clean_step.
  destruct (String.eqb c ""); [done|]. destruct (String.eqb c "."); [done|].
  destruct (String.eqb_spec c ".."); [congruence|]. by apply prefix_app_r.
Qed.

Lemma Join_below_bin (root : FS.path) (name : string) :
  Str.HasPrefix name "bin/" = true → ".." ∉ Str.split "/" name →
  (root ++ ["bin"]) `prefix_of` FS.Join root name.
Proof.
  intros Hp Hd. destruct (HasPrefix_bin name Hp) as [rest E].
  unfold FS.Join. rewrite E in *. cbn [fold_left].
  apply not_elem_of_cons in Hd as [_ Hd].
  change (FS.clean_step root "bin") with (root ++ ["bin"]).
  by apply clean_grows.
Qed.

(** The allowlist when it holds.  For an archive in which every entry that
    passes the test has a name under bin/ with no [..] component,
    extraction, whether it succeeds or fails, changes nothing that is
    neither in the payload directory nor on the way to it: the vault, the
    sessions, the settings and everything outside the device are as
    before. *)
Theorem extractUpdate_stays_in_bin (u : Updater) (zipPath q : FS.path) (w : World)
    (content : bytes) (files : list ZipFile) :
  FS.ReadFile zipPath (fs w) = inr content →
  zip_Files content = Some files →
  (∀ f, f ∈ files → skipped (Name f) = false →
        Str.HasPrefix (Name f) "bin/" = true ∧ ".." ∉ Str.split "/" (Name f)) →
  FS.apart q (binDir u) →
  FS.get q (fs (snd (extractUpdate u zipPath w))) = FS.get q (fs w).
Proof.
  intros Hr Hz Hfiles [Hq1 Hq2].
  unfold extractUpdate, bind, try_, OS.ReadFile, OS.ask. rewrite Hr, Hz.
  destruct (extractFiles_keeps u q files w) as (t' & -> & Hget & _);
    [|by rewrite fs_set_fs].
  intros f Hf Hs Hpre. destruct (Hfiles f Hf Hs) as [Hp Hd].
  pose proof (Join_below_bin (USBRoot u) (Name f) Hp Hd) as Hbin.
  fold (binDir u) in Hbin.
  destruct (prefix_weak_total _ _ _ Hpre Hbin); done.
Qed.

(** *** The order of [compareVersions] *)

Definition key (v : string) : Z * Z * Z := (component v 0, component v 1, component v 2).

(** The order on triples, read from the left. *)
Definition lex (a b : Z * Z * Z) : comparison :=
  match (a.1.1 ?= b.1.1)%Z with
  | Eq => match (a.1.2 ?= b.1.2)%Z with
          | Eq => (a.2 ?= b.2)%Z
          | c => c
          end
  | c => c
  end.

Lemma lex_le (a b : Z * Z * Z) :
  (sign (lex a b) ≤ 0)%Z ↔
  (a.1.1 < b.1.1 ∨ (a.1.1 = b.1.1 ∧
     (a.1.2 < b.1.2 ∨ (a.1.2 = b.1.2 ∧ a.2 ≤ b.2))))%Z.
Proof.
  unfold lex.
  destruct (Z.compare_spec a.1.1 b.1.1), (Z.compare_spec a.1.2 b.1.2),
    (Z.compare_spec a.2 b.2); simpl; lia.
Qed.

Lemma lex_antisym (a b : Z * Z * Z) : sign (lex b a) = (- sign (lex a b))%Z.
Proof.
  unfold lex.
  destruct (Z.compare_spec a.1.1 b.1.1), (Z.compare_spec b.1.1 a.1.1); try lia;
  destruct (Z.compare_spec a.1.2 b.1.2), (Z.compare_spec b.1.2 a.1.2); try lia;
  destruct (Z.compare_spec a.2 b.2), (Z.compare_spec b.2 a.2); simpl; lia.
Qed.

Lemma compareVersions_lex (a b : string) :
  compareVersions a b = sign (lex (key a) (key b)).
Proof. apply compareVersions_spec. Qed.

(** [compareVersions] is a total preorder on all strings: a version equals
    itself, swapping the arguments negates the result, the result is -1, 0
    or 1, "not above" is transitive, and two versions compare equal exactly
    when their first three components read as the same numbers. *)
Theorem compareVersions_order :
  (∀ a, compareVersions a a = 0%Z) ∧
  (∀ a b, compareVersions b a = (- compareVersions a b)%Z) ∧
  (∀ a b, compareVersions a b = (-1)%Z ∨ compareVersions a b = 0%Z ∨
          compareVersions a b = 1%Z) ∧
  (∀ a b c, (compareVersions a b ≤ 0)%Z → (compareVersions b c ≤ 0)%Z →
            (compareVersions a c ≤ 0)%Z) ∧
  (∀ a b, compareVersions a b = 0%Z ↔ key a = key b).
Proof.
  split_and!.
  - intros a. rewrite compareVersions_lex. unfold lex. by rewrite !Z.compare_refl.
  - intros a b. rewrite !compareVersions_lex. apply lex_antisym.
  - intros a b. rewrite compareVersions_lex. destruct (lex _ _); simpl; auto.
  - intros a b c. rewrite !compareVersions_lex, !lex_le. lia.
  - intros a b. rewrite compareVersions_lex. unfold lex.
    destruct (key a) as [[a0 a1] a2], (key b) as [[b0 b1] b2]. simpl.
    destruct (Z.compare_spec a0 b0), (Z.compare_spec a1 b1),
      (Z.compare_spec a2 b2); simpl; split; intros HH; simplify_eq; try lia;
      done.
Qed.

(** *** Versions written as numbers *)

(** The decimal numeral of [n], as [strconv.Itoa] writes it: the digits
    from the last to the first. *)
Fixpoint numeral_fuel (fuel n : nat) (acc : string) : string :=
  match fuel with
  | 0 => acc
  | S fuel' =>
      let acc' := String (ascii_of_nat (48 + n mod 10)) acc in
      if n <? 10 then acc' else numeral_fuel fuel' (n / 10) acc'
  end.

Definition numeral (n : nat) : string := numeral_fuel (S n) n "".

(** [major.minor.patch] *)
Definition semver (major minor patch : nat) : string :=
  String.append (numeral major)
    (String.append "." (String.append (numeral minor)
       (String.append "." (numeral patch)))).

(** What may follow a number without being read as part of it: nothing,
    or a byte that is neither a digit nor an underscore. *)
Definition stops (t : string) : bool :=
  match t with
  | EmptyString => true
  | String c _ => negb (Scan.is_digit c || Scan.byte_is c 95)
  end.

Definition all_digits (s : string) : Prop :=
  Forall (λ c, Scan.is_digit c = true) (list_ascii_of_string s).

Lemma digit_char (k : nat) :
  k < 10 →
  Scan.is_digit (ascii_of_nat (48 + k)) = true ∧
  Scan.digit (ascii_of_nat (48 + k)) = Z.of_nat k.
Proof.
  intros H. do 10 (destruct k as [|k]; [by vm_compute|]). lia.
Qed.

Lemma numeral_fuel_digits (fuel n : nat) (acc : string) :
  all_digits acc → all_digits (numeral_fuel fuel n acc).
Proof.
  revert n acc. induction fuel as [|fuel IH]; intros n acc Hacc; [done|].
  assert (Hd : all_digits (String (ascii_of_nat (48 + n mod 10)) acc)).
  { constructor; [|done]. apply digit_char, Nat.mod_upper_bound. lia. }
  cbn [numeral_fuel]. destruct (n <? 10); [done|by apply IH].
Qed.

Lemma numeral_fuel_cons (fuel n : nat) (acc : string) :
  ∃ c r, numeral_fuel (S fuel) n acc = String c r.
Proof.
  revert n acc. induction fuel as [|fuel IH]; intros n acc.
  - cbn [numeral_fuel]. destruct (n <? 10); eauto.
  - change (numeral_fuel (S (S fuel)) n acc) with
      (let acc' := String (ascii_of_nat (48 + n mod 10)) acc in
       if n <? 10 then acc' else numeral_fuel (S fuel) (n / 10) acc').
    cbv zeta. destruct (n <? 10); [eauto|apply IH].
Qed.

Definition step (acc : option Z) (c : ascii) : option Z :=
  n ← acc; if Scan.is_digit c then Some (10 * n + Scan.digit c)%Z else None.

Lemma decimal_step (tok : list ascii) : Scan.decimal tok = foldl step (Some 0%Z) tok.
Proof. done. Qed.

Lemma numeral_fuel_value (fuel n : nat) (acc : string) :
  n < fuel →
  foldl step (Some 0%Z) (list_ascii_of_string (numeral_fuel fuel n acc)) =
  foldl step (Some (Z.of_nat n)) (list_ascii_of_string acc).
Proof.
  revert n acc. induction fuel as [|fuel IH]; intros n acc Hn; [lia|].
  cbn [numeral_fuel]. destruct (Nat.ltb_spec n 10) as [H|H].
  - cbn [list_ascii_of_string foldl]. unfold step at 2. cbn [mbind option_bind].
    rewrite (Nat.mod_small n 10 H).
    destruct (digit_char n H) as [-> ->]. f_equal.
  - rewrite IH by (apply Nat.Div0.div_lt_upper_bound; lia).
    cbn [list_ascii_of_string foldl]. unfold step at 2. cbn [mbind option_bind].
    destruct (digit_char (n mod 10)) as [-> ->];
      [apply Nat.mod_upper_bound; lia|].
    f_equal. f_equal.
    rewrite (Nat.div_mod_eq n 10) at 3. lia.
Qed.

Lemma numeral_value (n : nat) :
  Scan.decimal (list_ascii_of_string (numeral n)) = Some (Z.of_nat n).
Proof. rewrite decimal_step. unfold numeral. by rewrite numeral_fuel_value by lia. Qed.

Lemma numeral_digits (n : nat) : all_digits (numeral n).
Proof. apply numeral_fuel_digits. constructor. Qed.

Lemma chars_append (s t : string) :
  list_ascii_of_string (String.append s t) =
  list_ascii_of_string s ++ list_ascii_of_string t.
Proof.
  induction s as [|c s IH]; [done|].
  change (String.append (String c s) t) with (String c (String.append s t)).
  cbn [list_ascii_of_string]. by rewrite IH.
Qed.

Lemma number_token_stops (s t : string) :
  all_digits s → stops t = true →
  Scan.number_token (String.append s t) = list_ascii_of_string s.
Proof.
  intros Hs Ht. induction s as [|c s IH].
  - change (String.append "" t) with t.
    destruct t as [|c r]; [done|]. simpl in *.
    by destruct (Scan.is_digit c || Scan.byte_is c 95).
  - apply Forall_cons in Hs as [Hc Hs].
    change (String.append (String c s) t) with (String c (String.append s t)).
    cbn [Scan.number_token list_ascii_of_string]. rewrite Hc. cbn [orb].
    by rewrite IH.
Qed.

Lemma SkipSpace_digit (c : ascii) (r : string) :
  Scan.is_digit c = true →
  Scan.SkipSpace (String c r) = Some (String c r) ∧
  Scan.byte_is c 45 = false ∧ Scan.byte_is c 43 = false.
Proof.
  intros Hc.
  destruct c as [[] [] [] [] [] [] [] []]; try discriminate Hc;
    (split; [|by vm_compute]);
    destruct r as [|c2 [|c3 r]]; reflexivity.
Qed.

(** [Sscanf] reads a numeral back, whatever follows it. *)
Lemma Sscanf_numeral (n : nat) (t : string) :
  (Z.of_nat n < 2 ^ 63)%Z → stops t = true →
  Scan.Sscanf_d (String.append (numeral n) t) = Z.of_nat n.
Proof.
  intros Hn Ht. unfold Scan.Sscanf_d, Scan.scanInt.
  pose proof (numeral_digits n) as Hd.
  pose proof (number_token_stops _ t Hd Ht) as Htok.
  pose proof (numeral_value n) as Hval.
  destruct (numeral_fuel_cons n n "") as (c & r & E). fold (numeral n) in E.
  rewrite E in *. apply Forall_cons in Hd as Hc. destruct Hc as [Hc _].
  change (String.append (String c r) t) with (String c (String.append r t)) in *.
  destruct (SkipSpace_digit c (String.append r t) Hc) as (Hsk & H45 & H43).
  rewrite Hsk. cbn [mbind option_bind]. rewrite H45, H43, Htok.
  cbn [list_ascii_of_string]. cbn [list_ascii_of_string] in Hval. rewrite Hval.
  cbn [mbind option_bind]. by rewrite (proj2 (Z.ltb_lt _ _) Hn).
Qed.

Lemma split_append (sep : ascii) (s t : string) :
  Forall (λ c, c ≠ sep) (list_ascii_of_string s) →
  Str.split sep (String.append s t) =
    String.append s (hd "" (Str.split sep t)) :: tl (Str.split sep t).
Proof.
  intros Hs. induction s as [|c s IH].
  - change (String.append "" t) with t.
    pose proof (Str.split_nonempty sep t). by destruct (Str.split sep t).
  - apply Forall_cons in Hs as [Hc Hs].
    change (String.append (String c s) ?x) with (String c (String.append s x)).
    cbn [Str.split]. rewrite (proj2 (Ascii.eqb_neq _ _) Hc).
    by rewrite IH.
Qed.

Lemma digits_no_dot (s : string) :
  all_digits s → Forall (λ c, c ≠ "."%char) (list_ascii_of_string s).
Proof.
  intros H. eapply Forall_impl; [exact H|]. intros c Hc ->. by vm_compute in Hc.
Qed.

Lemma append_empty (s : string) : String.append s "" = s.
Proof.
  induction s as [|c s IH]; [done|].
  change (String.append (String c s) "") with (String c (String.append s "")).
  by rewrite IH.
Qed.

Lemma append_assoc (a b c : string) :
  String.append (String.append a b) c = String.append a (String.append b c).
Proof.
  induction a as [|x a IH]; [done|].
  change (String.append (String x a) ?y) with (String x (String.append a y)).
  change (String.append (String x ?u) c) with (String x (String.append u c)).
  by rewrite IH.
Qed.

Lemma stops_piece (t : string) :
  stops t = true → stops (hd "" (Str.split "." t)) = true.
Proof.
  destruct t as [|c r]; [done|]. simpl. intros Hc.
  destruct (Ascii.eqb c "."); [done|].
  by destruct (Str.split "." r).
Qed.

Lemma semver_components (x y z : nat) (t : string) :
  ∃ rest, Str.split "." (String.append (semver x y z) t) =
    numeral x :: numeral y ::
    String.append (numeral z) (hd "" (Str.split "." t)) :: rest.
Proof.
  unfold semver.
  assert (Hdot : ∀ r, Str.split "." (String.append "." r) = "" :: Str.split "." r)
    by done.
  rewrite !append_assoc.
  rewrite split_append by apply digits_no_dot, numeral_digits.
  rewrite Hdot. cbn [hd tl]. rewrite append_empty.
  rewrite split_append by apply digits_no_dot, numeral_digits.
  rewrite Hdot. cbn [hd tl]. rewrite append_empty.
  rewrite split_append by apply digits_no_dot, numeral_digits.
  eauto.
Qed.

Lemma semver_key (x y z : nat) (t : string) :
  (Z.of_nat x < 2 ^ 63)%Z → (Z.of_nat y < 2 ^ 63)%Z → (Z.of_nat z < 2 ^ 63)%Z →
  stops t = true →
  key (String.append (semver x y z) t) = (Z.of_nat x, Z.of_nat y, Z.of_nat z).
Proof.
  intros Hx Hy Hz Ht. destruct (semver_components x y z t) as [rest E].
  unfold key, component. rewrite E. cbn [lookup list_lookup].
  rewrite <-(append_empty (numeral x)), <-(append_empty (numeral y)).
  rewrite !Sscanf_numeral; auto using stops_piece.
Qed.

(** *** Versions that cannot be read *)

Definition is_letter (c : ascii) : bool :=
  let n := nat_of_ascii c in
  (65 <=? n) && (n <=? 90) || (97 <=? n) && (n <=? 122).

(** [Sscanf] reads no integer from a piece that begins with a letter. *)
Lemma scanInt_letter (c : ascii) (r : string) :
  is_letter c = true → Scan.scanInt (String c r) = None.
Proof.
  destruct c as [[] [] [] [] [] [] [] []]; intros H; try discriminate H;
    destruct r as [|c2 [|c3 r3]]; reflexivity.
Qed.

Lemma above_zero (x y z : nat) :
  (sign (lex (Z.of_nat x, Z.of_nat y, Z.of_nat z) (0, 0, 0)%Z) >? 0)%Z =
  negb ((x =? 0) && (y =? 0) && (z =? 0)).
Proof.
  unfold lex. cbn [fst snd].
  destruct (Nat.eqb_spec x 0) as [->|Hx]; cbn [andb negb].
  - destruct (Nat.eqb_spec y 0) as [->|Hy]; cbn [andb negb].
    + destruct (Nat.eqb_spec z 0) as [->|Hz]; cbn [andb negb]; [done|].
      cbn [Z.of_nat Z.compare].
      destruct (Z.compare_spec (Z.of_nat z) 0); (done || lia).
    + cbn [Z.of_nat Z.compare].
      destruct (Z.compare_spec (Z.of_nat y) 0); (done || lia).
  - destruct (Z.compare_spec (Z.of_nat x) 0); (done || lia).
Qed.

(** C10.  A component [Sscanf] cannot read as an integer, as one that
    begins with a letter, counts as 0.  So a current version none of
    whose first three components is readable, like "dev", compares as
    0.0.0 does, and [CheckForUpdate] then reports an update exactly for
    the manifest versions above 0.0.0: for a manifest version written
    [major.minor.patch] in decimal it reports one unless the three
    numbers are all 0. *)
Theorem unreadable_component_counts_as_zero (u : Updater) (env : Env)
    (body : bytes) (broken : bool) (m : Manifest) :
  (∀ s, Scan.scanInt s = None → Scan.Sscanf_d s = 0%Z) ∧
  (∀ v i s, Str.split "." v !! i = Some s → Scan.scanInt s = None →
            component v i = 0%Z) ∧
  (∀ c r, is_letter c = true → Scan.scanInt (String c r) = None) ∧
  Scan.scanInt "dev" = None ∧
  compareVersions "dev" "0.0.0" = 0%Z ∧
  compareVersions "0.0.1" "dev" = 1%Z ∧
  compareVersions "1.3.0" "dev" = 1%Z ∧
  ((∀ i s, i < 3 → Str.split "." (CurrentVersion u) !! i = Some s →
           Scan.scanInt s = None) →
   compareVersions (CurrentVersion u) "0.0.0" = 0%Z ∧
   (∀ v, compareVersions v (CurrentVersion u) = compareVersions v "0.0.0") ∧
   (net env manifestURL = Response 200 body broken →
    json_Manifest body = Some m →
    (∃ hasUpdate,
       CheckForUpdate u env = inr (m, hasUpdate) ∧
       (hasUpdate = true ↔ spec_compare (Version m) "0.0.0" = Gt)) ∧
    (∀ x y z t,
       Version m = String.append (semver x y z) t →
       (Z.of_nat x < 2 ^ 63)%Z → (Z.of_nat y < 2 ^ 63)%Z →
       (Z.of_nat z < 2 ^ 63)%Z → stops t = true →
       CheckForUpdate u env =
         inr (m, negb ((x =? 0) && (y =? 0) && (z =? 0)))))).
Proof.
  assert (Hz : ∀ s, Scan.scanInt s = None → Scan.Sscanf_d s = 0%Z).
  { intros s H. unfold Scan.Sscanf_d. by rewrite H. }
  assert (Hc : ∀ v i s, Str.split "." v !! i = Some s → Scan.scanInt s = None →
                        component v i = 0%Z).
  { intros v i s Hs H. unfold component. rewrite Hs. by apply Hz. }
  split_and!; [done|done|apply scanInt_letter|done..|].
  intros Hcur.
  assert (H0 : ∀ i, i < 3 → component (CurrentVersion u) i = component "0.0.0" i).
  { intros i Hi.
    assert (component "0.0.0" i = 0%Z) as ->.
    { destruct i as [|[|[|]]]; (done || lia). }
    unfold component.
    destruct (Str.split "." (CurrentVersion u) !! i) as [s|] eqn:E; [|done].
    apply Hz. by apply (Hcur i). }
  assert (Hsame : ∀ v, spec_compare v (CurrentVersion u) = spec_compare v "0.0.0").
  { intros v. unfold spec_compare. by rewrite !H0 by lia. }
  assert (Hcmp : ∀ v, compareVersions v (CurrentVersion u) = compareVersions v "0.0.0").
  { intros v. by rewrite !compareVersions_spec, Hsame. }
  split.
  { rewrite compareVersions_spec. unfold spec_compare. rewrite !H0 by lia.
    by rewrite !Z.compare_refl. }
  split; [exact Hcmp|].
  intros Hnet Hm. split.
  - unfold CheckForUpdate. rewrite Hnet, Hm. cbn [Z.eqb negb].
    eexists. split; [reflexivity|].
    rewrite compareVersions_spec, Hsame, Z.gtb_ltb, Z.ltb_lt.
    destruct (spec_compare _ _); simpl; split; (done || lia).
  - intros x y z t Hv Hx Hy Hzz Ht.
    unfold CheckForUpdate. rewrite Hnet, Hm. cbn [Z.eqb negb].
    rewrite Hcmp, Hv, compareVersions_lex, semver_key by done.
    change (key "0.0.0") with (0, 0, 0)%Z.
    by rewrite above_zero.
Qed.

(** On versions written [major.minor.patch] in decimal, each number
    below 2^63, [compareVersions] is the order of the triples of numbers;
    what follows the patch number without continuing it (a pre-release tag
    such as [-beta], build metadata, a fourth component) is not looked at. *)
Theorem compareVersions_semver (x y z x' y' z' : nat) (t t' : string) :
  (Z.of_nat x < 2 ^ 63)%Z → (Z.of_nat y < 2 ^ 63)%Z → (Z.of_nat z < 2 ^ 63)%Z →
  (Z.of_nat x' < 2 ^ 63)%Z → (Z.of_nat y' < 2 ^ 63)%Z → (Z.of_nat z' < 2 ^ 63)%Z →
  stops t = true → stops t' = true →
  compareVersions (String.append (semver x y z) t)
                  (String.append (semver x' y' z') t') =
    sign (lex (Z.of_nat x, Z.of_nat y, Z.of_nat z)
              (Z.of_nat x', Z.of_nat y', Z.of_nat z')).
Proof.
  intros. rewrite compareVersions_lex. by rewrite !semver_key.
Qed.

(** *** What extraction writes *)

Lemma ReadFile_get (p : FS.path) (t : FS.node) (c : bytes) :
  FS.ReadFile p t = inr c ↔ FS.get p t = Some (FS.File c).
Proof.
  unfold FS.ReadFile. destruct (FS.get p t) as [[c'|m]|]; split; intros H;
    by simplify_eq.
Qed.

Lemma WriteFile_read (p : FS.path) (c : bytes) (t t' : FS.node) :
  FS.WriteFile p c t = inr t' → FS.ReadFile p t' = inr c.
Proof.
  intros H. destruct (decide (p = [])) as [->|Hp]; [done|].
  rewrite FS.WriteFile_eq in H by done.
  destruct (FS.is_dir (FS.get (FS.parent p) t)) eqn:Hd; [|done].
  cbn [negb] in H. destruct (FS.is_dir (FS.get p t)); [done|].
  injection H as <-. apply ReadFile_get. unfold FS.put.
  by rewrite FS.get_palter_eq.
Qed.

Lemma extractFile_writes (f : ZipFile) (dest : FS.path) (w w' : World) :
  extractFile f dest w = (inr tt, w') →
  ∃ c, Content f = Some c ∧ BadCRC f = false ∧
       FS.ReadFile dest (fs w') = inr c.
Proof.
  unfold extractFile, bind, try_, lift, OS.MkdirAll, OS.WriteFile, OS.sys.
  destruct (FS.MkdirAll (FS.parent dest) (fs w)) as [e|t1]; [done|].
  destruct (Content f) as [c|]; [|done]. rewrite fs_set_fs.
  destruct (FS.WriteFile dest c t1) as [e|t2] eqn:E2; [done|].
  destruct (BadCRC f); [done|]. unfold ret. intros [= <-].
  exists c. split_and!; [done..|]. rewrite fs_set_fs.
  by apply (WriteFile_read _ _ t1).
Qed.

Lemma extractFiles_app (u : Updater) (l1 l2 : list ZipFile) (w : World) :
  extractFiles u (l1 ++ l2) w =
    match extractFiles u l1 w with
    | (inr _, w') => extractFiles u l2 w'
    | (inl e, w') => (inl e, w')
    end.
Proof.
  revert w. induction l1 as [|f l1 IH]; intros w; [done|].
  cbn [app extractFiles]. destruct (skipped (Name f)); [apply IH|].
  destruct (IsDir f); unfold bind.
  - destruct (ignore _ w) as [[e|[]] w1]; [done|apply IH].
  - destruct (extractFile f _ w) as [[e|[]] w1]; [done|apply IH].
Qed.

(** Extraction installs.  When [extractUpdate] succeeds, a file entry that
    passes the test has been read from the archive and its bytes are at
    [filepath.Join(USBRoot, name)], if no later entry that passes has its
    destination there or below. *)
Theorem extractUpdate_installs (u : Updater) (zipPath : FS.path) (w w' : World)
    (content : bytes) (before after : list ZipFile) (f : ZipFile) :
  FS.ReadFile zipPath (fs w) = inr content →
  zip_Files content = Some (before ++ f :: after) →
  skipped (Name f) = false → IsDir f = false →
  (∀ g, g ∈ after → skipped (Name g) = false →
        ¬ FS.Join (USBRoot u) (Name f) `prefix_of` FS.Join (USBRoot u) (Name g)) →
  extractUpdate u zipPath w = (inr tt, w') →
  ∃ c, Content f = Some c ∧
       FS.ReadFile (FS.Join (USBRoot u) (Name f)) (fs w') = inr c.
Proof.
  intros Hr Hz Hs Hd Hafter.
  unfold extractUpdate, bind, try_, OS.ReadFile, OS.ask. rewrite Hr, Hz.
  rewrite extractFiles_app.
  destruct (extractFiles u before w) as [[e|[]] w1]; [done|].
  cbn [extractFiles]. rewrite Hs, Hd. unfold bind.
  destruct (extractFile f _ w1) as [[e|[]] w2] eqn:Ef; [done|].
  destruct (extractFile_writes _ _ _ _ Ef) as (c & Hc & _ & Hread).
  intros Hrest. exists c. split; [done|].
  destruct (extractFiles_keeps u _ after w2 Hafter) as (t' & Ht' & Hget & _).
  rewrite Hrest in Ht'. cbn [snd] in Ht'. subst w'. rewrite fs_set_fs.
  apply ReadFile_get. rewrite Hget. by apply ReadFile_get.
Qed.

(** *** A successful update *)

Definition versionFile (u : Updater) : FS.path := USBRoot u ++ [".version"].
Definition cacheDir (u : Updater) : FS.path := USBRoot u ++ ["cache"].

(** The document [writeVersionFile] writes. *)
Definition version_doc (version : string) (now : Z) : bytes :=
  String.list_byte_of_string
    (String.concat ""
       ["{"; quote; "version"; quote; ":"; quote; version; quote; ",";
        quote; "updated_at"; quote; ":"; quote; RFC3339 now; quote; "}"]).

Lemma Join_version u : FS.Join (USBRoot u) ".version" = versionFile u.
Proof. by apply FS.Join_name. Qed.

Lemma Join_cache u : FS.Join (USBRoot u) "cache" = cacheDir u.
Proof. by apply FS.Join_name. Qed.

Lemma sibling_apart (d : FS.path) (c c' : string) :
  c ≠ c' → FS.apart (d ++ [c]) (d ++ [c']).
Proof. intros H. split; by apply FS.sibling_not_prefix. Qed.

Lemma child_not_above (d : FS.path) (c : string) : ¬ (d ++ [c]) `prefix_of` d.
Proof.
  intros H. apply prefix_length in H. rewrite length_app in H. simpl in H. lia.
Qed.

(** An archive that keeps to the payload directory: what passes the test
    is under bin/ and has no [..] component. *)
Definition keeps_to_bin (files : list ZipFile) : Prop :=
  ∀ f, f ∈ files → skipped (Name f) = false →
       Str.HasPrefix (Name f) "bin/" = true ∧ ".." ∉ Str.split "/" (Name f).

Lemma keeps_to_bin_frame (u : Updater) (files : list ZipFile) (q : FS.path) :
  keeps_to_bin files → FS.apart q (binDir u) →
  ∀ f, f ∈ files → skipped (Name f) = false →
       ¬ q `prefix_of` FS.Join (USBRoot u) (Name f).
Proof.
  intros Hfiles [Hq1 Hq2] f Hf Hs Hpre. destruct (Hfiles f Hf Hs) as [Hp Hd].
  pose proof (Join_below_bin (USBRoot u) (Name f) Hp Hd) as Hbin.
  fold (binDir u) in Hbin.
  destruct (prefix_weak_total _ _ _ Hpre Hbin); done.
Qed.

(** Extraction of such an archive: the tree afterwards. *)
Lemma extractFiles_in_bin (u : Updater) (files : list ZipFile) (w : World) :
  keeps_to_bin files →
  ∃ t', snd (extractFiles u files w) = set_fs t' w ∧
        (∀ q, FS.apart q (binDir u) → FS.get q t' = FS.get q (fs w)) ∧
        (∀ p, FS.is_dir (FS.get p (fs w)) = true → FS.is_dir (FS.get p t') = true).
Proof.
  intros Hfiles.
  destruct (extractFiles_keeps u (rollbackDir u) files w) as (t' & Ht' & _ & Hdirs).
  { apply keeps_to_bin_frame; [done|]. by apply sibling_apart. }
  exists t'. split_and!; [done| |done].
  intros q Hq.
  destruct (extractFiles_keeps u q files w) as (t'' & Ht'' & Hget & _).
  { by apply keeps_to_bin_frame. }
  rewrite Ht' in Ht''. apply (f_equal fs) in Ht''. rewrite !fs_set_fs in Ht''.
  by subst t''.
Qed.

(** [cleanupRollback] and [clearCache] on a device. *)
Lemma cleanup_and_clear (u : Updater) (t : FS.node) (w : World) :
  FS.is_dir (FS.get (USBRoot u) t) = true →
  (cleanupRollback u ;;; clearCache u) (set_fs t w) =
    (inr tt,
     set_fs (FS.put (cacheDir u) (FS.Dir ∅)
               (FS.del (cacheDir u) (FS.del (rollbackDir u) t))) w).
Proof.
  intros Hroot. unfold cleanupRollback, clearCache.
  rewrite Join_rollback, Join_cache.
  unfold bind, ignore, OS.RemoveAll, OS.MkdirAll, OS.sys, FS.RemoveAll, FS.MkdirAll.
  cbn [snd]. rewrite !fs_set_fs, !set_fs_set_fs.
  unfold cacheDir at 1.
  rewrite FS.mkdirAll_new.
  - cbn [snd]. by rewrite set_fs_set_fs.
  - unfold FS.del. rewrite !FS.is_dir_palter_not_below by apply child_not_above.
    done.
  - fold (cacheDir u). unfold FS.del at 1.
    rewrite FS.get_palter_eq; [done|apply FS.snoc_ne_nil|].
    unfold cacheDir. rewrite FS.parent_snoc. unfold FS.del.
    by rewrite FS.is_dir_palter_not_below by apply child_not_above.
Qed.

Lemma after_cleanup (u : Updater) (t : FS.node) :
  FS.is_dir (FS.get (USBRoot u) t) = true →
  let t' := FS.put (cacheDir u) (FS.Dir ∅)
              (FS.del (cacheDir u) (FS.del (rollbackDir u) t)) in
  FS.get (rollbackDir u) t' = None ∧
  FS.get (cacheDir u) t' = Some (FS.Dir ∅) ∧
  FS.is_dir (FS.get (USBRoot u) t') = true ∧
  (∀ q, FS.apart q (rollbackDir u) → FS.apart q (cacheDir u) →
        FS.get q t' = FS.get q t).
Proof.
  intros Hroot t'. unfold t', FS.put, FS.del. split_and!.
  - rewrite !FS.get_palter_apart by (by apply sibling_apart).
    rewrite FS.get_palter_eq; [done|apply FS.snoc_ne_nil|].
    unfold rollbackDir. by rewrite FS.parent_snoc.
  - rewrite FS.get_palter_eq; [done|apply FS.snoc_ne_nil|].
    unfold cacheDir. rewrite FS.parent_snoc.
    by rewrite !FS.is_dir_palter_not_below by apply child_not_above.
  - by rewrite !FS.is_dir_palter_not_below by apply child_not_above.
  - intros q Hr Hc.
    by rewrite !FS.get_palter_apart by (by apply FS.apart_sym).
Qed.

Section Installs.

Variables (u : Updater) (env : Env) (manifest : Manifest) (dl : Download).
Variables (w : World) (b : FS.node).

(** As for the failure paths: there is a download for this platform and a
    payload directory, and the temporary file is a new name in an existing
    directory outside the device. *)
Hypothesis Hdl : Downloads manifest !! Platform u = Some dl.
Hypothesis Hbin : FS.get (binDir u) (fs w) = Some b.
Hypothesis Hnew : FS.get (temp env) (fs w) = None.
Hypothesis Htmpdir : FS.is_dir (FS.get (FS.parent (temp env)) (fs w)) = true.
Hypothesis Hout : ¬ USBRoot u `prefix_of` temp env.

Local Abbreviation t_snapshot := (snapshot_of u b (fs w)).
Local Abbreviation t_downloaded body :=
  (FS.put (temp env) (FS.File body) (snapshot_of u b (fs w))).

Lemma temp_apart_device : FS.apart (temp env) (USBRoot u).
Proof. apply (tmp_apart u env w b); done. Qed.

Lemma temp_apart_child (c : string) : FS.apart (temp env) (USBRoot u ++ [c]).
Proof. apply FS.apart_snoc, temp_apart_device. Qed.

Lemma temp_ne_nil : temp env ≠ [].
Proof. intros E. pose proof Hnew as H. by rewrite E in H. Qed.

Lemma not_above_tmpdir (p : FS.path) :
  FS.apart (temp env) p → ¬ p `prefix_of` FS.parent (temp env).
Proof.
  intros [_ H] Hp. apply H. etrans; [exact Hp|apply FS.parent_prefix].
Qed.

Lemma downloaded_root body :
  FS.is_dir (FS.get (USBRoot u) (t_downloaded body)) = true.
Proof.
  unfold snapshot_of, FS.put, FS.del.
  rewrite FS.is_dir_palter_not_below by apply temp_apart_device.
  rewrite !FS.is_dir_palter_not_below by apply child_not_above.
  by apply (root_is_dir u w b).
Qed.

Lemma downloaded_tmpdir body :
  FS.is_dir (FS.get (FS.parent (temp env)) (t_downloaded body)) = true.
Proof.
  unfold FS.put at 1. rewrite FS.is_dir_palter_not_below.
  - by apply (snapshot_tmpdir u env w b).
  - intros H. apply prefix_length in H.
    destruct (exists_last temp_ne_nil) as (d & c & E). rewrite E in H.
    rewrite FS.parent_snoc, length_app in H. simpl in H. lia.
Qed.

Lemma downloaded_get body (q : FS.path) :
  FS.apart q (temp env) → FS.apart q (rollbackDir u) →
  FS.get q (t_downloaded body) = FS.get q (fs w).
Proof.
  intros Ht Hr. unfold snapshot_of, FS.put, FS.del.
  by rewrite !FS.get_palter_apart by (by apply FS.apart_sym).
Qed.

(** The state [PerformUpdate] returns once the archive is verified. *)
Lemma PerformUpdate_verified (body : bytes) (files : list ZipFile) :
  net env (URL dl) = Response 200 body false →
  EqualFold (EncodeToString (sha256_Sum body)) (SHA256 dl) = true →
  zip_Files body = Some files →
  PerformUpdate u env manifest w =
    match extractFiles u files (set_fs (t_downloaded body) w) with
    | (inl e, w4) =>
        (inl (Wrapped "extraction failed" e),
         snd (OS.Remove (temp env) (snd (rollback u w4))))
    | (inr _, w4) =>
        let '(r, w') := (ignore (writeVersionFile u (Version manifest)) ;;;
                         cleanupRollback u ;;; clearCache u) w4 in
        (r, snd (OS.Remove (temp env) w'))
    end.
Proof.
  intros Hnet Heq Hzip.
  rewrite (PerformUpdate_after_snapshot u env manifest dl w b Hdl Hbin).
  rewrite (download_body env dl _ body false Hnet);
    [|rewrite fs_set_fs; by apply (snapshot_temp u env w b)
     |rewrite fs_set_fs; by apply (snapshot_tmpdir u env w b)].
  rewrite fs_set_fs, set_fs_set_fs. unfold deferred.
  rewrite (verifyChecksum_spec _ _ _ body
             (downloaded_read u env w b Hbin Hnew Htmpdir Hout body)), Heq.
  unfold extractUpdate, bind at 1, try_, OS.ReadFile, OS.ask.
  rewrite (downloaded_read u env w b Hbin Hnew Htmpdir Hout body), Hzip.
  destruct (extractFiles u files _) as [[e|[]] w4]; [done|].
  by destruct ((ignore _ ;;; _) w4).
Qed.

(** A verified update that keeps to the payload directory.  When
    [PerformUpdate] returns without error, the temporary file and the
    snapshot are gone, the cache directory is empty, the version file
    holds the manifest's version, every file entry that passed the test
    (and was not overwritten by a later one) holds the bytes of the
    archive, and nothing outside the payload directory, the version file,
    the cache and the snapshot has changed. *)
Theorem PerformUpdate_installs (body : bytes) (files : list ZipFile) (w' : World) :
  net env (URL dl) = Response 200 body false →
  EqualFold (EncodeToString (sha256_Sum body)) (SHA256 dl) = true →
  zip_Files body = Some files →
  keeps_to_bin files →
  FS.is_dir (FS.get (versionFile u) (fs w)) = false →
  PerformUpdate u env manifest w = (inr tt, w') →
  FS.get (temp env) (fs w') = None ∧
  FS.get (rollbackDir u) (fs w') = None ∧
  FS.get (cacheDir u) (fs w') = Some (FS.Dir ∅) ∧
  FS.ReadFile (versionFile u) (fs w') =
    inr (version_doc (Version manifest) (clock w)) ∧
  (∀ before f after,
     files = before ++ f :: after →
     skipped (Name f) = false → IsDir f = false →
     (∀ g, g ∈ after → skipped (Name g) = false →
           ¬ FS.Join (USBRoot u) (Name f) `prefix_of` FS.Join (USBRoot u) (Name g)) →
     ∃ c, Content f = Some c ∧
          FS.ReadFile (FS.Join (USBRoot u) (Name f)) (fs w') = inr c) ∧
  (∀ q, FS.apart q (binDir u) → FS.apart q (rollbackDir u) →
        FS.apart q (cacheDir u) → FS.apart q (versionFile u) →
        FS.apart q (temp env) →
        FS.get q (fs w') = FS.get q (fs w)).
Proof.
  intros Hnet Heq Hzip Hfiles Hver.
  rewrite (PerformUpdate_verified body files Hnet Heq Hzip).
  destruct (extractFiles u files _) as [[e|[]] w4] eqn:Hex; [done|].
  destruct (extractFiles_in_bin u files (set_fs (t_downloaded body) w) Hfiles)
    as (t4 & Hw4 & Hget4 & Hdirs4).
  rewrite Hex in Hw4. cbn [snd] in Hw4. rewrite set_fs_set_fs in Hw4.
  rewrite fs_set_fs in Hget4, Hdirs4.
  (* the version file *)
  set (doc := version_doc (Version manifest) (clock w)).
  set (w5 := mkWorld t4 (entropy w) (clock w + 1)%Z).
  set (t5 := FS.put (versionFile u) (FS.File doc) t4).
  assert (Hroot4 : FS.is_dir (FS.get (USBRoot u) t4) = true)
    by apply Hdirs4, downloaded_root.
  assert (Hver4 : FS.get (versionFile u) t4 = FS.get (versionFile u) (fs w)).
  { rewrite Hget4 by (by apply sibling_apart).
    apply downloaded_get; [apply FS.apart_sym, temp_apart_child|by apply sibling_apart]. }
  assert (Hwrite : ignore (E := error) (writeVersionFile u (Version manifest)) w4 =
                   (inr tt, set_fs t5 w5)).
  { unfold ignore, writeVersionFile. rewrite Join_version.
    unfold bind, OS.time_Now, try_, OS.WriteFile, OS.sys. subst w4.
    cbn [fs entropy clock set_fs]. fold doc.
    rewrite FS.WriteFile_eq by apply FS.snoc_ne_nil.
    unfold versionFile at 1. rewrite FS.parent_snoc, Hroot4, Hver4, Hver.
    done. }
  assert (Hroot5 : FS.is_dir (FS.get (USBRoot u) t5) = true).
  { unfold t5, FS.put. by rewrite FS.is_dir_palter_not_below by apply child_not_above. }
  unfold bind at 1. rewrite Hwrite.
  rewrite (cleanup_and_clear u t5 w5 Hroot5).
  set (t8 := FS.put (cacheDir u) (FS.Dir ∅)
               (FS.del (cacheDir u) (FS.del (rollbackDir u) t5))).
  destruct (after_cleanup u t5 Hroot5) as (Hrb8 & Hcache8 & Hroot8 & Hget8).
  fold t8 in Hrb8, Hcache8, Hroot8, Hget8.
  (* the temporary file *)
  assert (Htemp4 : FS.get (temp env) t4 = Some (FS.File body)).
  { rewrite Hget4 by apply temp_apart_child. unfold FS.put.
    rewrite FS.get_palter_eq; [done|apply temp_ne_nil|].
    by apply (snapshot_tmpdir u env w b). }
  assert (Htemp8 : FS.get (temp env) t8 = Some (FS.File body)).
  { rewrite Hget8 by apply temp_apart_child. unfold t5, FS.put.
    rewrite FS.get_palter_apart by apply FS.apart_sym, temp_apart_child. done. }
  assert (Htmpdir8 : FS.is_dir (FS.get (FS.parent (temp env)) t8) = true).
  { unfold t8, t5, FS.put, FS.del.
    rewrite !FS.is_dir_palter_not_below by apply not_above_tmpdir, temp_apart_child.
    apply Hdirs4, downloaded_tmpdir. }
  assert (Hrm : snd (OS.Remove (temp env) (set_fs t8 w5)) =
                set_fs (FS.del (temp env) t8) w5).
  { unfold OS.Remove, OS.sys. rewrite fs_set_fs, FS.Remove_eq by apply temp_ne_nil.
    rewrite Htemp8. cbn [snd]. by rewrite set_fs_set_fs. }
  rewrite Hrm. intros [= <-]. rewrite fs_set_fs.
  assert (Hfinal : ∀ q, FS.apart q (temp env) →
            FS.get q (FS.del (temp env) t8) = FS.get q t8).
  { intros q Hq. unfold FS.del. by rewrite FS.get_palter_apart by (by apply FS.apart_sym). }
  assert (Hbin8 : FS.get (binDir u) (FS.del (temp env) t8) = FS.get (binDir u) t4).
  { rewrite Hfinal by apply FS.apart_sym, temp_apart_child.
    rewrite Hget8 by (by apply sibling_apart). unfold t5, FS.put.
    by rewrite FS.get_palter_apart by (by apply sibling_apart). }
  split_and!.
  - unfold FS.del. by rewrite FS.get_palter_eq by (done || apply temp_ne_nil).
  - by rewrite Hfinal by apply FS.apart_sym, temp_apart_child.
  - by rewrite Hfinal by apply FS.apart_sym, temp_apart_child.
  - apply ReadFile_get.
    rewrite Hfinal by apply FS.apart_sym, temp_apart_child.
    rewrite Hget8 by (by apply sibling_apart). unfold t5, FS.put.
    rewrite FS.get_palter_eq; [done|apply FS.snoc_ne_nil|].
    unfold versionFile. by rewrite FS.parent_snoc.
  - intros before f after -> Hs Hd Hafter.
    destruct (extractUpdate_installs u (temp env) (set_fs (t_downloaded body) w) w4
                body before after f) as (c & Hc & Hread); try done.
    { rewrite fs_set_fs.
      apply (downloaded_read u env w b Hbin Hnew Htmpdir Hout body). }
    { unfold extractUpdate, bind, try_, OS.ReadFile, OS.ask.
      rewrite (downloaded_read u env w b Hbin Hnew Htmpdir Hout body), Hzip.
      by rewrite Hex. }
    exists c. split; [done|].
    destruct (Hfiles f) as [Hp Hdd]; [apply elem_of_app; right; apply list_elem_of_here|done|].
    destruct (Join_below_bin (USBRoot u) (Name f) Hp Hdd) as [k Hk].
    fold (binDir u) in Hk. rewrite Hk in *.
    apply ReadFile_get. apply ReadFile_get in Hread.
    subst w4. rewrite fs_set_fs in Hread.
    rewrite FS.get_app, Hbin8. by rewrite FS.get_app in Hread.
  - intros q Hqb Hqr Hqc Hqv Hqt.
    rewrite Hfinal, Hget8 by done. unfold t5, FS.put.
    rewrite FS.get_palter_apart by (by apply FS.apart_sym).
    rewrite Hget4 by done. by apply downloaded_get.
Qed.

(** A download that breaks off.  When the body ends with an error,
    [PerformUpdate] returns the download error after the way back; the
    temporary file is not removed: it stays, holding what had arrived. *)
Theorem PerformUpdate_leaves_partial_download (body : bytes) :
  net env (URL dl) = Response 200 body true →
  ∃ w', PerformUpdate u env manifest w =
          (inl (Wrapped "download failed" BodyError), w') ∧
        FS.ReadFile (temp env) (fs w') = inr body ∧
        FS.get (binDir u) (fs w') = Some b ∧
        FS.get (rollbackDir u) (fs w') = None.
Proof.
  intros Hnet.
  rewrite (PerformUpdate_after_snapshot u env manifest dl w b Hdl Hbin).
  rewrite (download_body env dl _ body true Hnet);
    [|rewrite fs_set_fs; by apply (snapshot_temp u env w b)
     |rewrite fs_set_fs; by apply (snapshot_tmpdir u env w b)].
  rewrite fs_set_fs, set_fs_set_fs.
  rewrite (rollback_after u env w b Hbin Hnew Hout (λ _, Some (FS.File body)))
    by done.
  eexists. split; [reflexivity|]. cbn [snd]. rewrite fs_set_fs.
  split; [|by apply (restored_bin u env w b)].
  apply ReadFile_get. rewrite FS.get_palter_eq; [done|apply temp_ne_nil|].
  unfold FS.del. rewrite FS.is_dir_palter_not_below; [done|].
  apply not_above_tmpdir, temp_apart_child.
Qed.

End Installs.

(** *** Updating from a local archive *)

Lemma readVersionFile_get (root : FS.path) (w1 w2 : World) :
  FS.get (FS.Join root ".version") (fs w1) = FS.get (FS.Join root ".version") (fs w2) →
  readVersionFile root w1 = readVersionFile root w2.
Proof.
  intros H. unfold readVersionFile, FS.ReadFile. rewrite H.
  by destruct (FS.get _ (fs w2)) as [[|]|].
Qed.

(** [PerformOfflineUpdate] with an archive that keeps to the payload
    directory.  When it returns without error the snapshot is gone, the
    cache directory is empty, the file entries that passed the test hold
    the bytes of the archive, and nothing else has changed: in particular
    the version file is not written, so the recorded version is the one of
    before the update. *)
Theorem PerformOfflineUpdate_installs (u : Updater) (zipPath : FS.path)
    (w w' : World) (content : bytes) (files : list ZipFile) :
  FS.ReadFile zipPath (fs w) = inr content →
  FS.apart zipPath (rollbackDir u) →
  zip_Files content = Some files →
  keeps_to_bin files →
  PerformOfflineUpdate u zipPath w = (inr tt, w') →
  FS.get (rollbackDir u) (fs w') = None ∧
  FS.get (cacheDir u) (fs w') = Some (FS.Dir ∅) ∧
  readVersionFile (USBRoot u) w' = readVersionFile (USBRoot u) w ∧
  (∀ before f after,
     files = before ++ f :: after →
     skipped (Name f) = false → IsDir f = false →
     (∀ g, g ∈ after → skipped (Name g) = false →
           ¬ FS.Join (USBRoot u) (Name f) `prefix_of` FS.Join (USBRoot u) (Name g)) →
     ∃ c, Content f = Some c ∧
          FS.ReadFile (FS.Join (USBRoot u) (Name f)) (fs w') = inr c) ∧
  (∀ q, FS.apart q (binDir u) → FS.apart q (rollbackDir u) →
        FS.apart q (cacheDir u) →
        FS.get q (fs w') = FS.get q (fs w)).
Proof.
  intros Hr Hzap Hz Hfiles. unfold PerformOfflineUpdate.
  unfold bind at 1, try_ at 1.
  destruct (FS.get (binDir u) (fs w)) as [b|] eqn:Hbin.
  2:{ unfold createRollback. rewrite Join_bin, Join_rollback.
      unfold bind, OS.RemoveAll, copyDir, FS.Stat, FS.RemoveAll, FS.del.
      rewrite fs_set_fs.
      rewrite FS.get_palter_apart by (by apply sibling_apart). by rewrite Hbin. }
  rewrite (createRollback_ok u w b Hbin). fold (snapshot_of u b (fs w)).
  set (ts := snapshot_of u b (fs w)).
  assert (Hsnap : ∀ q, FS.apart q (rollbackDir u) → FS.get q ts = FS.get q (fs w)).
  { intros q Hq. unfold ts, snapshot_of, FS.put, FS.del.
    by rewrite !FS.get_palter_apart by (by apply FS.apart_sym). }
  assert (Hread : FS.ReadFile zipPath (fs (set_fs ts w)) = inr content).
  { rewrite fs_set_fs. apply ReadFile_get. rewrite Hsnap by done.
    by apply ReadFile_get. }
  assert (Hroot : FS.is_dir (FS.get (USBRoot u) ts) = true).
  { apply (FS.get_snoc_is_dir _ ".rollback").
    fold (rollbackDir u). unfold ts. by rewrite (snapshot_rollback u w b Hbin). }
  destruct (extractUpdate u zipPath (set_fs ts w)) as [[e|[]] w4] eqn:Hex; [done|].
  assert (Hex' : extractFiles u files (set_fs ts w) = (inr tt, w4)).
  { revert Hex. unfold extractUpdate, bind, try_, OS.ReadFile, OS.ask.
    by rewrite Hread, Hz. }
  destruct (extractFiles_in_bin u files (set_fs ts w) Hfiles)
    as (t4 & Hw4 & Hget4 & Hdirs4).
  rewrite Hex' in Hw4. cbn [snd] in Hw4. rewrite set_fs_set_fs in Hw4.
  rewrite fs_set_fs in Hget4, Hdirs4. subst w4.
  assert (Hroot4 : FS.is_dir (FS.get (USBRoot u) t4) = true) by by apply Hdirs4.
  rewrite (cleanup_and_clear u t4 w Hroot4).
  destruct (after_cleanup u t4 Hroot4) as (Hrb8 & Hcache8 & Hroot8 & Hget8).
  intros [= <-]. rewrite fs_set_fs. split_and!; try done.
  - apply readVersionFile_get. rewrite Join_version, fs_set_fs.
    rewrite Hget8 by (by apply sibling_apart).
    rewrite Hget4 by (by apply sibling_apart).
    apply Hsnap. by apply sibling_apart.
  - intros before f after -> Hs Hd Hafter.
    destruct (extractUpdate_installs u zipPath (set_fs ts w) (set_fs t4 w)
                content before after f) as (c & Hc & Hrd); try done.
    exists c. split; [done|].
    destruct (Hfiles f) as [Hp Hdd]; [apply elem_of_app; right; apply list_elem_of_here|done|].
    destruct (Join_below_bin (USBRoot u) (Name f) Hp Hdd) as [k Hk].
    fold (binDir u) in Hk. rewrite Hk in *.
    apply ReadFile_get. apply ReadFile_get in Hrd. rewrite fs_set_fs in Hrd.
    rewrite FS.get_app, Hget8 by (by apply sibling_apart).
    by rewrite FS.get_app in Hrd.
  - intros q Hqb Hqr Hqc. rewrite Hget8, Hget4 by done. by apply Hsnap.
Qed.

(** What [PerformUpdate] needs.  Without a download for the platform it
    returns at once and nothing has changed.  On a device without a
    payload directory it fails before anything is downloaded, and the
    snapshot of an earlier update has been removed. *)
Theorem PerformUpdate_needs (u : Updater) (env : Env) (manifest : Manifest)
    (w : World) :
  (Downloads manifest !! Platform u = None →
   PerformUpdate u env manifest w = (inl (NoDownload (Platform u)), w)) ∧
  (∀ dl, Downloads manifest !! Platform u = Some dl →
         FS.get (binDir u) (fs w) = None →
         ∃ e, PerformUpdate u env manifest w =
                (inl (Wrapped "failed to create backup" (OsError e)),
                 set_fs (FS.RemoveAll (rollbackDir u) (fs w)) w)).
Proof.
  split.
  - intros H. unfold PerformUpdate. by rewrite H.
  - intros dl Hdl Hbin. unfold PerformUpdate. rewrite Hdl.
    unfold bind at 1, try_ at 1, createRollback.
    rewrite Join_bin, Join_rollback.
    unfold bind, OS.RemoveAll, copyDir, FS.Stat, FS.RemoveAll, FS.del.
    rewrite fs_set_fs.
    rewrite FS.get_palter_apart by (by apply sibling_apart). rewrite Hbin.
    eauto.
Qed.

End WithLibraries.

(** *** Extraction and the allowlist *)

(** A device: binaries, the vault, a session, the settings. *)
Definition usb_root : FS.path := ["media"; "usb"].

Definition usb : Updater :=
  {| USBRoot := usb_root; CurrentVersion := "1.2.0"; Platform := "linux-amd64" |}.

Definition old_binary : bytes := String.list_byte_of_string "claude 1.2.0".
Definition the_vault : bytes := String.list_byte_of_string "CCGO: the user's vault".
Definition the_settings : bytes := String.list_byte_of_string "{}".
Definition planted : bytes := String.list_byte_of_string "planted by the archive".

Definition usb_tree : FS.node :=
  FS.Dir {[ "media" := FS.Dir {[ "usb" := FS.Dir (
    <[ "bin" := FS.Dir {[ "claude" := FS.File old_binary ]} ]>
    (<[ "vault" := FS.Dir {[ "credentials.vault" := FS.File the_vault ]} ]>
    (<[ "sessions" := FS.Dir ∅ ]>
    {[ "config" := FS.Dir {[ "settings.json" := FS.File the_settings ]} ]}))) ]} ]}.

Definition usb_world : World :=
  {| fs := usb_tree; entropy := []; clock := 1700000000%Z |}.

(** An archive whose entries pass the test of [extractUpdate] and do not
    stay below bin/. *)
Definition crafted_archive : list ZipFile :=
  [ {| Name := "bin/../vault/credentials.vault"; IsDir := false;
       Content := Some planted; BadCRC := false |};
    {| Name := "sessions/hook.sh"; IsDir := false;
       Content := Some planted; BadCRC := false |};
    {| Name := "bin/../config/settings.json"; IsDir := false;
       Content := Some planted; BadCRC := false |} ].

(** C1 fails on the code.  The three entries of [crafted_archive] pass the
    test, and after [extractFiles] the vault file and the settings hold the
    bytes of the archive and the session directory has a new file. *)
Theorem extract_writes_outside_bin :
  FS.ReadFile (usb_root ++ ["vault"; "credentials.vault"]) (fs usb_world)
    = inr the_vault ∧
  Forall (λ f, skipped (Name f) = false) crafted_archive ∧
  ∃ w',
    extractFiles usb crafted_archive usb_world = (inr tt, w') ∧
    FS.ReadFile (usb_root ++ ["vault"; "credentials.vault"]) (fs w') = inr planted ∧
    FS.ReadFile (usb_root ++ ["sessions"; "hook.sh"]) (fs w') = inr planted ∧
    FS.ReadFile (usb_root ++ ["config"; "settings.json"]) (fs w') = inr planted.
Proof.
  split; [by vm_compute|]. split; [by repeat constructor|].
  eexists. split; [vm_compute; reflexivity|].
  split_and!; by vm_compute.
Qed.

End Update.

(** ** The updater on a concrete device *)

Module UpdateModel.

Import Update.

(** Stand-ins for the libraries: a digest that is the first four bytes, an
    archive format with no entries, a manifest decoder that knows one
    document. *)
Definition sha256_Sum (b : bytes) : bytes := take 4 b.
Definition zip_Files (b : bytes) : option (list ZipFile) := Some [].
Definition RFC3339 (t : Z) : string := "2023-11-14T22:13:20Z".

Definition candidate : bytes := String.list_byte_of_string "PK: claude-go 1.3.0".

Definition linux_download : Download :=
  {| URL := "https://github.com/cxt9/claude-go/releases/download/v1.3.0/claude-go-1.3.0-linux-amd64.zip";
     SHA256 := "DEADBEEF"; Size := 19 |}.

Definition manifest_1_3_0 : Manifest :=
  {| Version := "1.3.0"; ReleaseDate := "2023-11-14"; Changelog := [];
     Downloads := {[ "linux-amd64" := linux_download ]};
     MinVersion := "1.0.0" |}.

Definition json_Manifest (b : bytes) : option Manifest := Some manifest_1_3_0.

Definition internet : Env :=
  {| net := λ url, Response 200 candidate false;
     temp := ["tmp"; "claude-go-update-42.zip"] |}.

Definition device_tree : FS.node :=
  FS.Dir (<[ "tmp" := FS.Dir ∅ ]>
          {[ "media" := FS.Dir {[ "usb" := FS.Dir (
    <[ "bin" := FS.Dir {[ "claude" := FS.File old_binary ]} ]>
    {[ "vault" := FS.Dir {[ "credentials.vault" := FS.File the_vault ]} ]}) ]} ]}).

Definition device : World :=
  {| fs := device_tree; entropy := []; clock := 1700000000%Z |}.

Definition dev_build : Updater :=
  {| USBRoot := usb_root; CurrentVersion := "dev"; Platform := "linux-amd64" |}.

Lemma compareVersions_numeric_witness :
  ∃ hasUpdate,
    CheckForUpdate json_Manifest usb internet = inr (manifest_1_3_0, hasUpdate) ∧
    (hasUpdate = true ↔ spec_compare "1.3.0" "1.2.0" = Gt).
Proof.
  apply (proj2 (proj2 (proj2 (proj2 (proj2
           (compareVersions_numeric json_Manifest usb internet candidate false
              manifest_1_3_0)))))); reflexivity.
Defined.

Lemma unreadable_component_counts_as_zero_witness :
  (∀ v, compareVersions v "dev" = compareVersions v "0.0.0") ∧
  CheckForUpdate json_Manifest dev_build internet = inr (manifest_1_3_0, true).
Proof.
  destruct (proj2 (proj2 (proj2 (proj2 (proj2 (proj2 (proj2
             (unreadable_component_counts_as_zero json_Manifest dev_build
                internet candidate false manifest_1_3_0))))))))
    as (_ & Hcmp & Hcheck).
  - intros [|[|]] s Hi Hs; vm_compute in Hs; by simplify_eq.
  - split; [exact Hcmp|].
    destruct (Hcheck eq_refl eq_refl) as [_ Hsemver].
    apply (Hsemver 1 3 0 ""); [reflexivity|reflexivity..].
Defined.

(** A manifest whose digest is the candidate's, in capitals. *)
Definition good_download : Download :=
  {| URL := "https://github.com/cxt9/claude-go/releases/download/v1.3.0/claude-go-1.3.0-linux-amd64.zip";
     SHA256 := "504B3A20"; Size := 19 |}.

Definition good_manifest : Manifest :=
  {| Version := "1.3.0"; ReleaseDate := "2023-11-14"; Changelog := [];
     Downloads := {[ "linux-amd64" := good_download ]};
     MinVersion := "1.0.0" |}.

Lemma PerformUpdate_rolls_back_witness :
  EqualFold (EncodeToString (sha256_Sum candidate)) (SHA256 linux_download) = false ∧
  PerformUpdate sha256_Sum zip_Files RFC3339 usb internet manifest_1_3_0 device =
    (inl (Wrapped "checksum verification failed"
            (ChecksumMismatch "DEADBEEF" "504b3a20")),
     device) ∧
  EncodeToString (sha256_Sum candidate) = "504b3a20" ∧
  SHA256 good_download = "504B3A20" ∧
  ∃ w', PerformUpdate sha256_Sum zip_Files RFC3339 usb internet good_manifest device =
          (inr tt, w').
Proof.
  split; [reflexivity|].
  destruct (PerformUpdate_rolls_back sha256_Sum zip_Files RFC3339 usb internet
              manifest_1_3_0 linux_download device
              (FS.Dir {[ "claude" := FS.File old_binary ]}))
    as (_ & _ & Hmismatch & _).
  - reflexivity.
  - vm_compute. reflexivity.
  - vm_compute. reflexivity.
  - vm_compute. reflexivity.
  - vm_compute. intros [k Hk]. discriminate Hk.
  - split; [rewrite (Hmismatch candidate eq_refl eq_refl); reflexivity|].
    split; [reflexivity|]. split; [reflexivity|].
    destruct (PerformUpdate_rolls_back sha256_Sum zip_Files RFC3339 usb internet
                good_manifest good_download device
                (FS.Dir {[ "claude" := FS.File old_binary ]}))
      as (_ & _ & _ & _ & _ & _ & _ & _ & Haccept).
    + reflexivity.
    + vm_compute. reflexivity.
    + vm_compute. reflexivity.
    + vm_compute. reflexivity.
    + vm_compute. intros [k Hk]. discriminate Hk.
    + eapply (Haccept candidate []); [reflexivity| |reflexivity|reflexivity].
      apply EqualFold_same. reflexivity.
Defined.

(** *** More of the updater on the device *)

Definition bin_tree : FS.node := FS.Dir {[ "claude" := FS.File old_binary ]}.

Lemma device_paths_apart (c c' : string) :
  c ≠ c' → FS.apart (usb_root ++ [c]) (usb_root ++ [c']).
Proof. intros H. split; by apply FS.sibling_not_prefix. Qed.

Lemma copyDir_copies_tree_witness :
  ∃ w', copyDir (usb_root ++ ["bin"]) (usb_root ++ [".rollback"]) device = (inr tt, w') ∧
        FS.get (usb_root ++ [".rollback"]) (fs w') = Some bin_tree ∧
        FS.get (usb_root ++ ["bin"]) (fs w') = Some bin_tree.
Proof.
  destruct (proj1 (copyDir_copies_tree (usb_root ++ ["bin"]) (usb_root ++ [".rollback"])
                     device) bin_tree)
    as (w' & H & Hd & Hs & _).
  - by apply device_paths_apart.
  - reflexivity.
  - reflexivity.
  - reflexivity.
  - exists w'. by split_and!.
Defined.

(** The payload directory is replaced by a file; the way back restores
    it. *)
Lemma rollback_restores_witness :
  ∃ w1, createRollback usb device = (inr tt, w1) ∧
        rollback usb (set_fs (FS.put (usb_root ++ ["bin"]) (FS.File planted) (fs w1)) w1) =
          (inr tt, device).
Proof.
  destruct (proj1 (rollback_restores usb device) bin_tree (λ _, Some (FS.File planted)))
    as (w1 & H1 & H2); [reflexivity|].
  exists w1. split; [exact H1|]. refine (eq_trans H2 _). by vm_compute.
Defined.

(** A release: the binary, a directory entry, and a file that does not
    pass the test. *)
Definition new_binary : bytes := String.list_byte_of_string "claude 1.3.0".

Definition release : list ZipFile :=
  [ {| Name := "bin/"; IsDir := true; Content := None; BadCRC := false |};
    {| Name := "bin/claude"; IsDir := false;
       Content := Some new_binary; BadCRC := false |};
    {| Name := "README.md"; IsDir := false;
       Content := Some planted; BadCRC := false |} ].

Lemma not_prefix (p q : FS.path) : bool_decide (p `prefix_of` q) = false → ¬ p `prefix_of` q.
Proof. apply bool_decide_eq_false_1. Qed.

Lemma apart_decide (p q : FS.path) :
  bool_decide (p `prefix_of` q) = false → bool_decide (q `prefix_of` p) = false →
  FS.apart p q.
Proof. intros H1 H2. split; by apply not_prefix. Qed.

Definition zip_release (b : bytes) : option (list ZipFile) := Some release.

Lemma release_keeps_to_bin : keeps_to_bin release.
Proof.
  intros f Hf Hs.
  repeat (apply elem_of_cons in Hf as [->|Hf]); [| |discriminate Hs|by apply elem_of_nil in Hf].
  - split; [reflexivity|]. vm_compute. intros H.
    repeat (apply elem_of_cons in H as [H|H]; [discriminate H|]). by apply elem_of_nil in H.
  - split; [reflexivity|]. vm_compute. intros H.
    repeat (apply elem_of_cons in H as [H|H]; [discriminate H|]). by apply elem_of_nil in H.
Qed.

(** The device with a release archive next to it. *)
Definition archive_path : FS.path := ["tmp"; "claude-go-1.3.0.zip"].

Definition device_with_archive : World :=
  set_fs (FS.put archive_path (FS.File candidate) device_tree) device.

Definition vault_path : FS.path := usb_root ++ ["vault"; "credentials.vault"].

Lemma extractUpdate_leaves_alone_witness :
  FS.ReadFile vault_path
    (fs (snd (extractUpdate zip_release usb archive_path device_with_archive))) =
  inr the_vault.
Proof.
  apply ReadFile_get.
  rewrite (extractUpdate_leaves_alone zip_release usb archive_path vault_path
             device_with_archive candidate release).
  - reflexivity.
  - reflexivity.
  - reflexivity.
  - intros f Hf Hs.
    repeat (apply elem_of_cons in Hf as [->|Hf]);
      [| |discriminate Hs|by apply elem_of_nil in Hf];
      vm_compute; intros [k Hk]; discriminate Hk.
Defined.

Lemma extractUpdate_stays_in_bin_witness :
  FS.get (usb_root ++ ["vault"])
    (fs (snd (extractUpdate zip_release usb archive_path device_with_archive))) =
  FS.get (usb_root ++ ["vault"]) (fs device_with_archive).
Proof.
  apply (extractUpdate_stays_in_bin zip_release usb archive_path (usb_root ++ ["vault"])
           device_with_archive candidate release).
  - reflexivity.
  - reflexivity.
  - apply release_keeps_to_bin.
  - by apply device_paths_apart.
Defined.

Definition bin_entry : ZipFile :=
  {| Name := "bin/"; IsDir := true; Content := None; BadCRC := false |}.
Definition claude_entry : ZipFile :=
  {| Name := "bin/claude"; IsDir := false;
     Content := Some new_binary; BadCRC := false |}.
Definition readme_entry : ZipFile :=
  {| Name := "README.md"; IsDir := false;
     Content := Some planted; BadCRC := false |}.

Lemma readme_skipped (g : ZipFile) (q : FS.path) :
  g ∈ [readme_entry] → skipped (Name g) = false →
  ¬ q `prefix_of` FS.Join (USBRoot usb) (Name g).
Proof.
  intros Hg Hs. apply elem_of_cons in Hg as [->|Hg].
  - vm_compute in Hs. discriminate Hs.
  - apply elem_of_nil in Hg. destruct Hg.
Qed.

Lemma extractUpdate_installs_witness :
  ∃ w', extractUpdate zip_release usb archive_path device_with_archive = (inr tt, w') ∧
        FS.ReadFile (usb_root ++ ["bin"; "claude"]) (fs w') = inr new_binary.
Proof.
  assert (E : ∃ w', extractUpdate zip_release usb archive_path device_with_archive
                    = (inr tt, w')) by (eexists; vm_compute; reflexivity).
  destruct E as [w' E]. exists w'. split; [exact E|].
  pose proof (extractUpdate_installs zip_release usb archive_path device_with_archive w'
                candidate [bin_entry] [readme_entry] claude_entry
                eq_refl eq_refl eq_refl eq_refl
                (λ g, readme_skipped g _) E) as (c & Hc & Hr).
  clear E. injection Hc as <-. exact Hr.
Defined.

Lemma compareVersions_semver_witness :
  compareVersions "1.10.0-beta" "1.9.9" = 1%Z ∧
  compareVersions "1.2.3-rc1" "1.2.3" = 0%Z.
Proof.
  split.
  - exact (compareVersions_semver 1 10 0 1 9 9 "-beta" ""
             eq_refl eq_refl eq_refl eq_refl eq_refl eq_refl eq_refl eq_refl).
  - exact (compareVersions_semver 1 2 3 1 2 3 "-rc1" ""
             eq_refl eq_refl eq_refl eq_refl eq_refl eq_refl eq_refl eq_refl).
Defined.

Lemma PerformUpdate_installs_witness :
  ∃ w', PerformUpdate sha256_Sum zip_release RFC3339 usb internet good_manifest device
          = (inr tt, w') ∧
        FS.ReadFile (usb_root ++ ["bin"; "claude"]) (fs w') = inr new_binary ∧
        FS.ReadFile vault_path (fs w') = inr the_vault ∧
        FS.get (temp internet) (fs w') = None ∧
        FS.get (usb_root ++ [".rollback"]) (fs w') = None.
Proof.
  assert (Hout : ¬ USBRoot usb `prefix_of` temp internet)
    by (apply not_prefix; reflexivity).
  assert (Hvault : ∀ p, bool_decide (vault_path `prefix_of` p) = false →
                        bool_decide (p `prefix_of` vault_path) = false →
                        FS.apart vault_path p)
    by (intros p; apply apart_decide).
  assert (E : ∃ w', PerformUpdate sha256_Sum zip_release RFC3339 usb internet
                      good_manifest device = (inr tt, w'))
    by (eexists; vm_compute; reflexivity).
  destruct E as [w' E]. exists w'. split; [exact E|].
  pose proof (PerformUpdate_installs sha256_Sum zip_release RFC3339 usb internet
                good_manifest good_download device bin_tree
                eq_refl eq_refl eq_refl eq_refl Hout candidate release w'
                eq_refl eq_refl eq_refl release_keeps_to_bin eq_refl E)
    as (Htemp & Hrb & _ & _ & Hinst & Hframe).
  clear E.
  destruct (Hinst [bin_entry] claude_entry [readme_entry]
              eq_refl eq_refl eq_refl (λ g, readme_skipped g _))
    as (c & Hc & Hr).
  injection Hc as <-.
  split; [exact Hr|]. split; [|split; [exact Htemp|exact Hrb]].
  apply ReadFile_get.
  refine (eq_trans (Hframe vault_path
                      (Hvault (binDir usb) eq_refl eq_refl)
                      (Hvault (rollbackDir usb) eq_refl eq_refl)
                      (Hvault (cacheDir usb) eq_refl eq_refl)
                      (Hvault (versionFile usb) eq_refl eq_refl)
                      (Hvault (temp internet) eq_refl eq_refl)) _).
  reflexivity.
Defined.

(** A connection that breaks after the whole candidate has arrived. *)
Definition broken_internet : Env :=
  {| net := λ url, Response 200 candidate true;
     temp := ["tmp"; "claude-go-update-42.zip"] |}.

Lemma PerformUpdate_leaves_partial_download_witness :
  ∃ w', PerformUpdate sha256_Sum zip_release RFC3339 usb broken_internet good_manifest device
          = (inl (Wrapped "download failed" BodyError), w') ∧
        FS.ReadFile (temp broken_internet) (fs w') = inr candidate.
Proof.
  destruct (PerformUpdate_leaves_partial_download sha256_Sum zip_release RFC3339
              usb broken_internet good_manifest good_download device bin_tree)
    with (body := candidate) as (w' & H & Hr & _).
  - reflexivity.
  - reflexivity.
  - reflexivity.
  - reflexivity.
  - apply not_prefix. reflexivity.
  - reflexivity.
  - exists w'. split; [exact H|exact Hr].
Defined.

(** A decoder of the version file that knows one document. *)
Definition json_version (b : bytes) : option string := Some "1.2.0".

Lemma PerformOfflineUpdate_installs_witness :
  ∃ w', PerformOfflineUpdate zip_release usb archive_path device_with_archive
          = (inr tt, w') ∧
        FS.ReadFile (usb_root ++ ["bin"; "claude"]) (fs w') = inr new_binary ∧
        FS.get (usb_root ++ [".version"]) (fs w') = None.
Proof.
  assert (Hzip : FS.apart archive_path (rollbackDir usb))
    by (apply apart_decide; reflexivity).
  assert (Hver : ∀ p, bool_decide ((usb_root ++ [".version"]) `prefix_of` p) = false →
                      bool_decide (p `prefix_of` (usb_root ++ [".version"])) = false →
                      FS.apart (usb_root ++ [".version"]) p)
    by (intros p; apply apart_decide).
  assert (E : ∃ w', PerformOfflineUpdate zip_release usb archive_path
                      device_with_archive = (inr tt, w'))
    by (eexists; vm_compute; reflexivity).
  destruct E as [w' E]. exists w'. split; [exact E|].
  pose proof (PerformOfflineUpdate_installs zip_release json_version usb archive_path
                device_with_archive w' candidate release
                eq_refl Hzip eq_refl release_keeps_to_bin E)
    as (_ & _ & _ & Hinst & Hframe).
  clear E.
  destruct (Hinst [bin_entry] claude_entry [readme_entry]
              eq_refl eq_refl eq_refl (λ g, readme_skipped g _))
    as (c & Hc & Hr).
  injection Hc as <-. split; [exact Hr|].
  refine (eq_trans (Hframe _ (Hver (binDir usb) eq_refl eq_refl)
                      (Hver (rollbackDir usb) eq_refl eq_refl)
                      (Hver (cacheDir usb) eq_refl eq_refl)) _).
  reflexivity.
Defined.

Definition other_platform : Updater :=
  {| USBRoot := usb_root; CurrentVersion := "1.2.0"; Platform := "windows-arm64" |}.

Lemma PerformUpdate_needs_witness :
  PerformUpdate sha256_Sum zip_release RFC3339 other_platform internet good_manifest device
    = (inl (NoDownload "windows-arm64"), device).
Proof.
  apply (proj1 (PerformUpdate_needs sha256_Sum zip_release RFC3339 other_platform
                  internet good_manifest device)).
  reflexivity.
Defined.

End UpdateModel.

(** ** internal/session *)

Module Session.

Local Open Scope go_scope.

(** ProjectRef stores project path information for cross-machine
    portability *)
Record ProjectRef := mkProjectRef {
  OriginalPath : string;
  RelativePath : string;
  RemappedPath : string;
}.

(** Permission represents a granted permission *)
Record Permission := mkPermission {
  Tool : string;
  Pattern : string;
  GrantedAt : Z;
}.

(** Session represents a portable Claude Code session; a [time.Time] is
    the instant, in nanoseconds. *)
Record Session := mkSession {
  ID : string;
  CreatedAt : Z;
  LastUsedAt : Z;
  HostMachine : string;
  Platform : string;
  Project : ProjectRef;
  Summary : string;
  Permissions : list Permission;
}.

(** Manager handles session storage and retrieval *)
Record Manager := mkManager {
  sessionsDir : FS.path;
}.

Inductive error :=
  | OsError (e : FS.errno)
  | MarshalError
  | ParseError
  | NoProjectPath (path : string)
  | Wrapped (msg : string) (cause : error).

Definition set_LastUsedAt (t : Z) (s : Session) : Session :=
  mkSession (ID s) (CreatedAt s) t (HostMachine s) (Platform s) (Project s)
            (Summary s) (Permissions s).

Definition After (t u : Z) : bool := (u <? t)%Z.
Definition Before (t u : Z) : bool := (t <? u)%Z.

(** [strings.TrimSuffix] *)
Definition TrimSuffix (s suffix : string) : string :=
  if Str.HasSuffix s suffix
  then String.substring 0 (String.length s - String.length suffix) s
  else s.

(** [%d] of an [int64]. *)
Definition format_d (z : Z) : string :=
  if (z <? 0)%Z then String.append "-" (Update.numeral (Z.to_nat (- z)))
  else Update.numeral (Z.to_nat z).

(** [strings.Join(elems, "/")] *)
Fixpoint join_slash (elems : list string) : string :=
  match elems with
  | [] => ""
  | [e] => e
  | e :: rest => String.append e (String.append "/" (join_slash rest))
  end.

(** [filepath.Clean], on the components between the slashes: empty and
    [.] components go, [..] takes the component before it with it, at the
    root it goes, and at the start of a relative path it stays. *)
Definition clean_component (rooted : bool) (stack : list string) (c : string)
    : list string :=
  if String.eqb c "" then stack
  else if String.eqb c "." then stack
  else if String.eqb c ".." then
    match List.last stack "" with
    | "" => if rooted then stack else stack ++ [".."]
    | top => if String.eqb top ".." then stack ++ [".."] else removelast stack
    end
  else stack ++ [c].

Definition Clean (path : string) : string :=
  let rooted := Str.HasPrefix path "/" in
  let stack := fold_left (clean_component rooted) (Str.split "/" path) [] in
  let out := String.append (if rooted then "/" else "") (join_slash stack) in
  if String.eqb out "" then "." else out.

(** [filepath.Join]: the elements that are not empty, joined and cleaned;
    nothing when all are empty. *)
Definition Join (elems : list string) : string :=
  match filter (λ e, e ≠ "") elems with
  | [] => ""
  | es => Clean (join_slash es)
  end.

(** Extract a portable relative path (e.g., last 2 components) *)
Definition extractRelativePath (fullPath : string) : string :=
  let parts := Str.split "/" (Clean fullPath) in
  let n := length parts in
  if 2 <=? n then
    Join [default "" (parts !! (n - 2)); default "" (parts !! (n - 1))]
  else if 1 <=? n then default "" (parts !! (n - 1))
  else fullPath.

Definition sessionPath (m : Manager) (id : string) : FS.path :=
  FS.Join (sessionsDir m) (String.append id ".json").

(** [os.ReadDir]: the entries of a directory by name, each with whether it
    is a directory. *)
Definition ReadDir (p : FS.path) (t : FS.node) : FS.errno + list (string * bool) :=
  match FS.get p t with
  | Some (FS.Dir m) =>
      inr ((λ e : string * FS.node, (e.1, FS.is_dir (Some e.2))) <$>
           merge_sort FS.by_name (map_to_list m))
  | Some (FS.File _) => inl FS.ENOTDIR
  | None => inl (FS.lookup_error p t)
  end.

Section WithLibraries.

(** encoding/json on a session, and what the host says of itself:
    [os.Hostname()] and [platform.Current()], whose errors are dropped. *)
Variable json_MarshalIndent : Session → option bytes.
Variable json_Unmarshal : bytes → option Session.
Variable hostname : string.
Variable plat : string.

(** Simple timestamp-based ID *)
Definition generateSessionID : M error World string :=
  now <- OS.time_Now ;;
  ret (String.append "session-" (format_d now)).

(** Save persists a session to disk.  The session is the caller's: its
    [LastUsedAt] is set whether or not the write succeeds. *)
Definition Save (m : Manager) : M error (Session * World) unit :=
  on_snd (try_ (λ e, Wrapped "failed to create sessions directory" (OsError e))
               (OS.MkdirAll (sessionsDir m))) ;;;
  now <- on_snd OS.time_Now ;;
  on_fst (modify (set_LastUsedAt now)) ;;;
  session <- gets fst ;;
  match json_MarshalIndent session with
  | None => fail (Wrapped "failed to serialize session" MarshalError)
  | Some data =>
      let path := sessionPath m (ID session) in
      on_snd (try_ (λ e, Wrapped "failed to write session" (OsError e))
                   (OS.WriteFile path data))
  end.

(** Create creates a new session *)
Definition Create (m : Manager) (projectPath : string) : M error World Session :=
  id <- generateSessionID ;;
  now <- OS.time_Now ;;
  let session :=
    {| ID := id; CreatedAt := now; LastUsedAt := now;
       HostMachine := hostname; Platform := plat;
       Project := {| OriginalPath := projectPath;
                     RelativePath := extractRelativePath projectPath;
                     RemappedPath := projectPath |};
       Summary := "New session"; Permissions := [] |} in
  λ w, match Save m (session, w) with
       | (inl e, (_, w')) => (inl e, w')
       | (inr _, (session', w')) => (inr session', w')
       end.

(** Load loads a session by ID *)
Definition Load (m : Manager) (id : string) (w : World) : error + Session :=
  match FS.ReadFile (sessionPath m id) (fs w) with
  | inl e => inl (Wrapped "failed to load session" (OsError e))
  | inr data =>
      match json_Unmarshal data with
      | None => inl (Wrapped "failed to parse session" ParseError)
      | Some session => inr session
      end
  end.

(** Delete removes a session *)
Definition Delete (m : Manager) (id : string) : M FS.errno World unit :=
  OS.Remove (sessionPath m id).

(** The sessions [List] loads, in the order of the directory. *)
Fixpoint load_all (m : Manager) (entries : list (string * bool)) (w : World)
    : list Session :=
  match entries with
  | [] => []
  | (name, isDir) :: rest =>
      if isDir || negb (Str.HasSuffix name ".json") then load_all m rest w
      else
        let id := TrimSuffix name ".json" in
        match Load m id w with
        | inl _ => load_all m rest w  (* Skip corrupted sessions *)
        | inr session => session :: load_all m rest w
        end
  end.

Definition more_recent (a b : Session) : Prop := (LastUsedAt b ≤ LastUsedAt a)%Z.

#[local] Instance more_recent_dec : RelDecision more_recent :=
  λ a b, decide (LastUsedAt b ≤ LastUsedAt a)%Z.

(** [sort.Slice] with [LastUsedAt.After] as "less": the most recent
    first.  Go does not say in which order sessions used at the same
    instant come. *)
Definition sort_by_last_use (l : list Session) : list Session :=
  merge_sort more_recent l.

(** List returns all sessions sorted by last used time (most recent
    first) *)
Definition List (m : Manager) (w : World) : FS.errno + list Session :=
  match ReadDir (sessionsDir m) (fs w) with
  | inl FS.ENOENT => inr []
  | inl e => inl e
  | inr entries => inr (sort_by_last_use (load_all m entries w))
  end.

(** The loop of [Cleanup]. *)
Fixpoint remove_old (m : Manager) (cutoff : Z) (sessions : list Session)
    (removed : Z) : M FS.errno World Z :=
  match sessions with
  | [] => ret removed
  | session :: rest =>
      if Before (LastUsedAt session) cutoff then
        λ w, match Delete m (ID session) w with
             | (inr _, w') => remove_old m cutoff rest (removed + 1)%Z w'
             | (inl _, w') => remove_old m cutoff rest removed w'
             end
      else remove_old m cutoff rest removed
  end.

(** Cleanup removes sessions older than the given duration *)
Definition Cleanup (m : Manager) (maxAge : Z) : M FS.errno World Z :=
  λ w, match List m w with
       | inl e => (inl e, w)
       | inr sessions =>
           (now <- OS.time_Now ;;
            let cutoff := (now - maxAge)%Z in
            remove_old m cutoff sessions 0%Z) w
       end.

(** A host path as the program names it, from the root. *)
Definition host_path (p : string) : FS.path := FS.Join [] p.

Definition set_remap (newPath : string) (s : Session) : Session :=
  mkSession (ID s) (CreatedAt s) (LastUsedAt s) hostname plat
            (mkProjectRef (OriginalPath (Project s)) (RelativePath (Project s)) newPath)
            (Summary s) (Permissions s).

(** RemapProjectPath updates the session's project path for the current
    machine *)
Definition RemapProjectPath (m : Manager) (newPath : string)
    : M error (Session * World) unit :=
  λ '(s, w),
    match FS.Stat (host_path newPath) (fs w) with
    | inl FS.ENOENT => (inl (NoProjectPath newPath), (s, w))
    | _ => Save m (set_remap newPath s, w)
    end.


(** *** Names *)

Definition no_slash (s : string) : Prop :=
  Forall (λ c, c ≠ "/"%char) (list_ascii_of_string s).

Lemma sessionPath_plain (m : Manager) (id : string) :
  no_slash id →
  sessionPath m id = sessionsDir m ++ [String.append id ".json"].
Proof.
  intros Hid. unfold sessionPath.
  assert (Hlen : 5 ≤ String.length (String.append id ".json")).
  { rewrite Str.length_append. simpl. lia. }
  apply FS.Join_name.
  - intros E. rewrite E in Hlen. simpl in Hlen. lia.
  - intros E. rewrite E in Hlen. simpl in Hlen. lia.
  - intros E. rewrite E in Hlen. simpl in Hlen. lia.
  - rewrite Update.split_append by done.
    change (Str.split "/" ".json") with [".json"]. done.
Qed.

Lemma substring_all (t : string) : String.substring 0 (String.length t) t = t.
Proof. induction t as [|x t IHt]; [done|]. simpl. by rewrite IHt. Qed.

Lemma substring_split (k : nat) (s : string) :
  k ≤ String.length s →
  String.append (String.substring 0 k s)
    (String.substring k (String.length s - k) s) = s.
Proof.
  revert k. induction s as [|c s IH]; intros k Hk.
  - simpl in Hk. by replace k with 0 by lia.
  - destruct k as [|k].
    + change (String.substring 0 0 (String c s)) with "".
      change (String.append "" ?x) with x.
      rewrite Nat.sub_0_r. apply substring_all.
    + simpl in Hk.
      change (String.substring 0 (S k) (String c s))
        with (String c (String.substring 0 k s)).
      change (String.append (String c ?x) ?y) with (String c (String.append x y)).
      change (String.substring (S k) (String.length (String c s) - S k) (String c s))
        with (String.substring k (String.length s - k) s).
      by rewrite IH by lia.
Qed.

(** What [TrimSuffix] takes off, put back. *)
Lemma trim_append (name suffix : string) :
  Str.HasSuffix name suffix = true →
  String.append (TrimSuffix name suffix) suffix = name.
Proof.
  intros H. unfold TrimSuffix. rewrite H. unfold Str.HasSuffix in H.
  apply andb_true_iff in H as [Hlen Heq].
  apply Nat.leb_le in Hlen. apply String.eqb_eq in Heq.
  pose proof (substring_split (String.length name - String.length suffix) name) as E.
  replace (String.length name - (String.length name - String.length suffix))
    with (String.length suffix) in E by lia.
  rewrite Heq in E. apply E. lia.
Qed.

(** *** The store *)

Lemma append_inj_l (a b c : string) :
  String.append a c = String.append b c → a = b.
Proof.
  intros H. apply (f_equal list_ascii_of_string) in H.
  rewrite !Update.chars_append in H. apply app_inv_tail in H.
  rewrite <-(string_of_list_ascii_of_string a), <-(string_of_list_ascii_of_string b).
  by rewrite H.
Qed.

Lemma sessionPath_apart (m : Manager) (id id' : string) :
  no_slash id → no_slash id' → id' ≠ id →
  FS.apart (sessionPath m id) (sessionPath m id').
Proof.
  intros H H' Hne. rewrite !sessionPath_plain by done.
  apply Update.sibling_apart. intros E. apply Hne. symmetry.
  by apply (append_inj_l _ _ ".json").
Qed.

Lemma Load_get (m : Manager) (id : string) (w : World) (x : Session) :
  Load m id w = inr x ↔
  ∃ data, FS.get (sessionPath m id) (fs w) = Some (FS.File data) ∧
          json_Unmarshal data = Some x.
Proof.
  unfold Load, FS.ReadFile.
  destruct (FS.get (sessionPath m id) (fs w)) as [[data|mm]|]; split;
    try (intros H; discriminate H); try (intros (? & H & _); discriminate H).
  - destruct (json_Unmarshal data) as [s|] eqn:E; intros H; simplify_eq. eauto.
  - intros (d' & [= <-] & ->). done.
Qed.

(** Sessions that could be loaded still can, when their files are as they
    were. *)
Lemma Load_kept (m : Manager) (id : string) (w w' : World) (x : Session) :
  FS.get (sessionPath m id) (fs w') = FS.get (sessionPath m id) (fs w) →
  Load m id w = inr x → Load m id w' = inr x.
Proof. intros E. rewrite !Load_get. by rewrite E. Qed.

Lemma Save_ok (m : Manager) (s : Session) (w : World) (t1 : FS.node) (data : bytes) :
  no_slash (ID s) →
  FS.mkdirAll (sessionsDir m) (fs w) = Some t1 →
  FS.is_dir (FS.get (sessionPath m (ID s)) (fs w)) = false →
  json_MarshalIndent (set_LastUsedAt (clock w) s) = Some data →
  Save m (s, w) =
    (inr tt, (set_LastUsedAt (clock w) s,
              mkWorld (FS.put (sessionPath m (ID s)) (FS.File data) t1)
                      (entropy w) (clock w + 1)%Z)) ∧
  FS.is_dir (FS.get (sessionsDir m) t1) = true ∧
  (∀ q, ¬ q `prefix_of` sessionsDir m → FS.get q t1 = FS.get q (fs w)).
Proof.
  intros Hid Hmk Hfree Hm.
  assert (Hdir1 : FS.is_dir (FS.get (sessionsDir m) t1) = true)
    by apply (FS.mkdirAll_is_dir _ _ _ Hmk).
  assert (Hget1 : ∀ q, ¬ q `prefix_of` sessionsDir m → FS.get q t1 = FS.get q (fs w))
    by (intros q Hq; by apply (FS.mkdirAll_get _ _ _ _ Hmk)).
  split; [|done].
  unfold Save. unfold bind at 1.
  unfold on_snd at 1, try_ at 1, OS.MkdirAll, OS.sys, FS.MkdirAll. rewrite Hmk.
  unfold bind at 1. unfold on_snd at 1, OS.time_Now at 1. cbn [fs entropy clock set_fs].
  unfold bind at 1. unfold on_fst at 1, modify at 1.
  unfold bind at 1. unfold gets at 1. cbn [fst].
  rewrite Hm. change (ID (set_LastUsedAt (clock w) s)) with (ID s).
  unfold on_snd, try_, OS.WriteFile, OS.sys. cbn [fs].
  rewrite sessionPath_plain in * by done.
  rewrite FS.WriteFile_eq by apply FS.snoc_ne_nil.
  rewrite FS.parent_snoc, Hdir1.
  rewrite Hget1 by apply Update.child_not_above. rewrite Hfree. done.
Qed.

(** [Save] and [Load].  With an identifier that has no slash, a sessions
    directory that can be made and a file name that is free or a file,
    [Save] stamps the session with the time and writes it; when the
    document written is one [json.Unmarshal] reads back as the session,
    [Load] of its identifier returns the session as stamped.  The
    sessions that could be loaded before still load the same. *)
Theorem Save_then_Load (m : Manager) (s : Session) (w : World)
    (t1 : FS.node) (data : bytes) :
  no_slash (ID s) →
  FS.mkdirAll (sessionsDir m) (fs w) = Some t1 →
  FS.is_dir (FS.get (sessionPath m (ID s)) (fs w)) = false →
  json_MarshalIndent (set_LastUsedAt (clock w) s) = Some data →
  ∃ w', Save m (s, w) = (inr tt, (set_LastUsedAt (clock w) s, w')) ∧
        FS.ReadFile (sessionPath m (ID s)) (fs w') = inr data ∧
        (json_Unmarshal data = Some (set_LastUsedAt (clock w) s) →
         Load m (ID s) w' = inr (set_LastUsedAt (clock w) s)) ∧
        (∀ id x, no_slash id → id ≠ ID s →
                 Load m id w = inr x → Load m id w' = inr x).
Proof.
  intros Hid Hmk Hfree Hm.
  destruct (Save_ok m s w t1 data Hid Hmk Hfree Hm) as (HS & Hdir1 & Hget1).
  assert (Hget : FS.get (sessionPath m (ID s))
                   (FS.put (sessionPath m (ID s)) (FS.File data) t1) =
                 Some (FS.File data)).
  { unfold FS.put. rewrite FS.get_palter_eq; [done| |].
    + rewrite sessionPath_plain by done. apply FS.snoc_ne_nil.
    + rewrite sessionPath_plain by done. by rewrite FS.parent_snoc. }
  eexists. split; [exact HS|]. cbn [fs]. split_and!.
  - unfold FS.ReadFile. by rewrite Hget.
  - intros Hback. apply Load_get. exists data. by cbn [fs].
  - intros id x Hid' Hne. apply Load_kept. cbn [fs]. unfold FS.put.
    rewrite FS.get_palter_apart by (by apply sessionPath_apart).
    apply Hget1. rewrite sessionPath_plain by done. apply Update.child_not_above.
Qed.

Lemma digits_no_slash (s : string) : Update.all_digits s → no_slash s.
Proof.
  intros H. eapply Forall_impl; [exact H|]. intros c Hc ->. by vm_compute in Hc.
Qed.

Lemma no_slash_append (a b : string) :
  no_slash a → no_slash b → no_slash (String.append a b).
Proof. unfold no_slash. rewrite Update.chars_append, Forall_app. tauto. Qed.

Lemma format_d_no_slash (z : Z) : no_slash (format_d z).
Proof.
  unfold format_d. destruct (z <? 0)%Z.
  - apply no_slash_append; [|apply digits_no_slash, Update.numeral_digits].
    by repeat constructor.
  - apply digits_no_slash, Update.numeral_digits.
Qed.

Lemma session_id_no_slash (z : Z) :
  no_slash (String.append "session-" (format_d z)).
Proof.
  apply no_slash_append; [|apply format_d_no_slash].
  by repeat constructor.
Qed.

(** The session [Create] returns when it is called at time [t]: named
    after [t], created one tick later, and last used when it was saved,
    another tick later. *)
Definition created (projectPath : string) (t : Z) : Session :=
  {| ID := String.append "session-" (format_d t);
     CreatedAt := (t + 1)%Z; LastUsedAt := (t + 2)%Z;
     HostMachine := hostname; Platform := plat;
     Project := {| OriginalPath := projectPath;
                   RelativePath := extractRelativePath projectPath;
                   RemappedPath := projectPath |};
     Summary := "New session"; Permissions := [] |}.


(** [RemapProjectPath].  For a path that does not exist it is an error
    and neither the session nor the disk changes.  For any other path,
    one that is there or one that runs through a file, and a session
    that can be saved, the session gets the new path, this host's name
    and platform and the time of the call, and keeps the rest; it is
    written to its file, and [Load] returns it so when the document
    reads back as the session. *)
Theorem RemapProjectPath_effect (m : Manager) (newPath : string)
    (s : Session) (w : World) :
  (FS.Stat (host_path newPath) (fs w) = inl FS.ENOENT →
   RemapProjectPath m newPath (s, w) = (inl (NoProjectPath newPath), (s, w))) ∧
  (∀ t1 data,
     FS.Stat (host_path newPath) (fs w) ≠ inl FS.ENOENT →
     no_slash (ID s) →
     FS.mkdirAll (sessionsDir m) (fs w) = Some t1 →
     FS.is_dir (FS.get (sessionPath m (ID s)) (fs w)) = false →
     json_MarshalIndent (set_LastUsedAt (clock w) (set_remap newPath s)) = Some data →
     let s' := set_LastUsedAt (clock w) (set_remap newPath s) in
     ∃ w',
       RemapProjectPath m newPath (s, w) = (inr tt, (s', w')) ∧
       RemappedPath (Project s') = newPath ∧
       HostMachine s' = hostname ∧ Platform s' = plat ∧
       LastUsedAt s' = clock w ∧
       ID s' = ID s ∧ CreatedAt s' = CreatedAt s ∧
       OriginalPath (Project s') = OriginalPath (Project s) ∧
       RelativePath (Project s') = RelativePath (Project s) ∧
       Summary s' = Summary s ∧ Permissions s' = Permissions s ∧
       FS.ReadFile (sessionPath m (ID s)) (fs w') = inr data ∧
       (json_Unmarshal data = Some s' → Load m (ID s) w' = inr s')).
Proof.
  split.
  - intros H. unfold RemapProjectPath. by rewrite H.
  - intros t1 data Hstat Hid Hmk Hfree Hdata s'.
    destruct (Save_ok m (set_remap newPath s) w t1 data) as (HS & Hdir1 & Hget1);
      try done.
    assert (Hget : FS.get (sessionPath m (ID s))
                     (FS.put (sessionPath m (ID s)) (FS.File data) t1) =
                   Some (FS.File data)).
    { unfold FS.put. rewrite FS.get_palter_eq; [done| |].
      + rewrite sessionPath_plain by done. apply FS.snoc_ne_nil.
      + rewrite sessionPath_plain by done. by rewrite FS.parent_snoc. }
    eexists. split_and!; try done.
    + unfold RemapProjectPath.
      destruct (FS.Stat (host_path newPath) (fs w)) as [[]|]; done.
    + cbn [fs]. unfold FS.ReadFile.
      change (ID (set_remap newPath s)) with (ID s). by rewrite Hget.
    + intros Hback. apply Load_get. exists data. by cbn [fs].
Qed.

(** [Delete] and [Load].  Deleting a session that loads removes its file:
    [Load] then fails with "no such file", and the other sessions load as
    before.  Deleting a session that has no file is the error of the
    lookup and changes nothing. *)
Theorem Delete_then_Load (m : Manager) (id : string) (w : World) :
  no_slash id →
  (∀ x, Load m id w = inr x →
     ∃ w', Delete m id w = (inr tt, w') ∧
           Load m id w' =
             inl (Wrapped "failed to load session" (OsError FS.ENOENT)) ∧
           (∀ id' y, no_slash id' → id' ≠ id →
                     Load m id' w = inr y → Load m id' w' = inr y)) ∧
  (FS.get (sessionPath m id) (fs w) = None →
   Delete m id w = (inl (FS.lookup_error (sessionPath m id) (fs w)), w)).
Proof.
  intros Hid. split.
  - intros x Hx. apply Load_get in Hx as (data & Hget & _).
    assert (Hdir : FS.is_dir (FS.get (sessionsDir m) (fs w)) = true).
    { apply (FS.get_snoc_is_dir _ (String.append id ".json")).
      rewrite <-sessionPath_plain by done. by rewrite Hget. }
    eexists. split_and!.
    + unfold Delete, OS.Remove, OS.sys.
      rewrite FS.Remove_eq by (rewrite sessionPath_plain by done; apply FS.snoc_ne_nil).
      by rewrite Hget.
    + unfold Load, FS.ReadFile. rewrite fs_set_fs. unfold FS.del.
      rewrite FS.get_palter_eq;
        [| rewrite sessionPath_plain by done; apply FS.snoc_ne_nil
         | rewrite sessionPath_plain by done; by rewrite FS.parent_snoc].
      rewrite sessionPath_plain by done.
      rewrite Update.lookup_error_missing; [done| |].
      * by rewrite FS.is_dir_palter_not_below by apply Update.child_not_above.
      * rewrite FS.get_palter_eq; [done|apply FS.snoc_ne_nil|].
        by rewrite FS.parent_snoc.
    + intros id' y Hid' Hne. apply Load_kept. rewrite fs_set_fs. unfold FS.del.
      by rewrite FS.get_palter_apart by (by apply sessionPath_apart).
  - intros Hn. unfold Delete, OS.Remove, OS.sys.
    rewrite sessionPath_plain in * by done.
    rewrite FS.Remove_eq by apply FS.snoc_ne_nil. by rewrite Hn.
Qed.

(** *** Listing *)

(** A name a directory can hold. *)
Definition plain (name : string) : Prop :=
  name ≠ "" ∧ name ≠ "." ∧ name ≠ ".." ∧ no_slash name.

Lemma split_plain (s : string) : no_slash s → Str.split "/" s = [s].
Proof.
  intros H. rewrite <-(Update.append_empty s) at 1.
  rewrite Update.split_append by done.
  change (Str.split "/" "") with [""]. cbn [hd tl].
  by rewrite Update.append_empty.
Qed.

(** The session a directory entry holds, if it is a session file that can
    be read. *)
Definition session_of (e : string * FS.node) : option Session :=
  match e.2 with
  | FS.File data =>
      if Str.HasSuffix e.1 ".json" then json_Unmarshal data else None
  | FS.Dir _ => None
  end.

Lemma Load_entry (m : Manager) (w : World) (mm : gmap string FS.node)
    (name : string) :
  FS.get (sessionsDir m) (fs w) = Some (FS.Dir mm) →
  plain name → Str.HasSuffix name ".json" = true →
  FS.get (sessionPath m (TrimSuffix name ".json")) (fs w) = mm !! name.
Proof.
  intros Hdir (H1 & H2 & H3 & H4) Hs. unfold sessionPath.
  rewrite trim_append by done. rewrite FS.Join_name by (done || by apply split_plain).
  by apply FS.get_snoc_dir.
Qed.

Lemma load_all_spec (m : Manager) (w : World) (mm : gmap string FS.node)
    (L : list (string * FS.node)) :
  FS.get (sessionsDir m) (fs w) = Some (FS.Dir mm) →
  (∀ e, e ∈ L → mm !! e.1 = Some e.2 ∧ plain e.1) →
  load_all m ((λ e : string * FS.node, (e.1, FS.is_dir (Some e.2))) <$> L) w =
  omap session_of L.
Proof.
  intros Hdir. induction L as [|[name node] L IH]; intros HL; [done|].
  destruct (HL (name, node)) as [Hmm Hplain]; [apply list_elem_of_here|].
  cbn [fst snd] in Hmm, Hplain.
  rewrite fmap_cons. cbn [load_all omap list_omap fst snd].
  rewrite IH by (intros e He; apply HL; by apply list_elem_of_further).
  destruct node as [data|sub]; [|done]. cbn [FS.is_dir orb].
  change (session_of (name, FS.File data))
    with (if Str.HasSuffix name ".json" then json_Unmarshal data else None).
  destruct (Str.HasSuffix name ".json") eqn:Hs; [|done]. cbn [negb].
  unfold Load, FS.ReadFile. rewrite (Load_entry m w mm name Hdir Hplain Hs), Hmm.
  by destruct (json_Unmarshal data).
Qed.

#[local] Instance more_recent_total : Total more_recent.
Proof. intros a b. unfold more_recent. lia. Qed.

(** What [List] returns for a sessions directory. *)
Lemma List_of_dir (m : Manager) (w : World) (mm : gmap string FS.node) :
  FS.get (sessionsDir m) (fs w) = Some (FS.Dir mm) →
  (∀ name, is_Some (mm !! name) → plain name) →
  ∃ l, List m w = inr l ∧
       Sorted more_recent l ∧
       l ≡ₚ omap session_of (map_to_list mm) ∧
       (∀ s, s ∈ l ↔
          ∃ name data,
            mm !! name = Some (FS.File data) ∧
            Str.HasSuffix name ".json" = true ∧
            json_Unmarshal data = Some s).
Proof.
  intros Hdir Hplain. unfold List, ReadDir. rewrite Hdir.
  set (L := merge_sort FS.by_name (map_to_list mm)).
  assert (HL : L ≡ₚ map_to_list mm) by apply merge_sort_Permutation.
  rewrite (load_all_spec m w mm L Hdir).
  2:{ intros [name node] He. rewrite HL in He. apply elem_of_map_to_list in He.
      split; [done|]. apply Hplain. by eexists. }
  eexists. split; [reflexivity|].
  assert (Hperm : sort_by_last_use (omap session_of L) ≡ₚ
                  omap session_of (map_to_list mm)).
  { unfold sort_by_last_use. rewrite merge_sort_Permutation. by rewrite HL. }
  split_and!; [apply Sorted_merge_sort, _|done|].
  intros s. rewrite Hperm, list_elem_of_omap. split.
  + intros ([name node] & He & Hs). apply elem_of_map_to_list in He.
    unfold session_of in Hs. cbn [fst snd] in Hs.
    destruct node as [data|sub]; [|done].
    destruct (Str.HasSuffix name ".json") eqn:E; [|done]. eauto.
  + intros (name & data & Hmm & Hsuf & Hs). exists (name, FS.File data).
    split; [by apply elem_of_map_to_list|].
    unfold session_of. cbn [fst snd]. by rewrite Hsuf.
Qed.

(** [List].  Where there is no sessions directory it returns no session
    and no error; where the sessions path is a file it returns the
    error.  Where there is a directory, it returns
    the sessions of the files named [*.json] that can be read and
    decoded, each once, the most recently used first; directories,
    other files and files that cannot be decoded are left out. *)
Theorem List_lists (m : Manager) (w : World) :
  (∀ d c, sessionsDir m = d ++ [c] →
          FS.is_dir (FS.get d (fs w)) = true →
          FS.get (d ++ [c]) (fs w) = None →
          List m w = inr []) ∧
  (∀ data, FS.get (sessionsDir m) (fs w) = Some (FS.File data) →
           List m w = inl FS.ENOTDIR) ∧
  (∀ mm, FS.get (sessionsDir m) (fs w) = Some (FS.Dir mm) →
         (∀ name, is_Some (mm !! name) → plain name) →
         ∃ l, List m w = inr l ∧
              Sorted more_recent l ∧
              l ≡ₚ omap session_of (map_to_list mm) ∧
              (∀ s, s ∈ l ↔
                 ∃ name data,
                   mm !! name = Some (FS.File data) ∧
                   Str.HasSuffix name ".json" = true ∧
                   json_Unmarshal data = Some s)).
Proof.
  split_and!.
  - intros d c Hd Hdir Hn. unfold List, ReadDir. rewrite Hd, Hn.
    by rewrite Update.lookup_error_missing.
  - intros data Hf. unfold List, ReadDir. by rewrite Hf.
  - apply List_of_dir.
Qed.
(** *** Cleaning up *)

(** The file a session is kept in. *)
Definition file_name (id : string) : string := String.append id ".json".

Lemma file_name_inj (id id' : string) : file_name id = file_name id' → id = id'.
Proof. apply append_inj_l. Qed.

Lemma no_slash_file_name (id : string) : no_slash (file_name id) → no_slash id.
Proof.
  unfold no_slash, file_name. rewrite Update.chars_append, Forall_app. tauto.
Qed.

Lemma HasSuffix_append (a b : string) : Str.HasSuffix (String.append a b) b = true.
Proof.
  unfold Str.HasSuffix. rewrite Str.length_append.
  replace (String.length a + String.length b - String.length b)
    with (String.length a) by lia.
  apply andb_true_iff. split; [apply Nat.leb_le; lia|]. apply String.eqb_eq.
  induction a as [|c a IH]; [apply substring_all|].
  change (String.append (String c a) b) with (String c (String.append a b)).
  exact IH.
Qed.

(** An entry of a directory removed, seen from the directory. *)
Lemma get_del_child (d : FS.path) (k : string) (t : FS.node)
    (a : gmap string FS.node) :
  FS.get d t = Some (FS.Dir a) →
  FS.get d (FS.del (d ++ [k]) t) = Some (FS.Dir (delete k a)).
Proof.
  unfold FS.del. revert t. induction d as [|x d IH]; intros t H.
  - cbn [FS.get] in H. simplify_eq. cbn [app]. by rewrite FS.palter_single.
  - destruct t as [|mm]; [done|]. cbn [FS.get] in H.
    change ((x :: d) ++ [k]) with (x :: (d ++ [k])).
    rewrite FS.palter_cons by apply FS.snoc_ne_nil.
    cbn [FS.get]. rewrite lookup_alter_eq.
    destruct (mm !! x) as [n|]; [|done]. cbn [fmap option_fmap option_map mbind option_bind] in *.
    by apply IH.
Qed.

(** The store: a sessions directory whose names are names, and where a
    file that holds a session is named after it, as [Save] names it. *)
Definition tidy (mm : gmap string FS.node) : Prop :=
  (∀ name, is_Some (mm !! name) → plain name) ∧
  (∀ name data s,
     mm !! name = Some (FS.File data) → Str.HasSuffix name ".json" = true →
     json_Unmarshal data = Some s → name = file_name (ID s)).

Lemma remove_old_spec (m : Manager) (cutoff : Z) (l : list Session) :
  ∀ (n : Z) (w : World) (a : gmap string FS.node),
  FS.get (sessionsDir m) (fs w) = Some (FS.Dir a) →
  NoDup (ID <$> l) →
  (∀ s, s ∈ l → no_slash (ID s) ∧ FS.is_file (a !! file_name (ID s)) = true) →
  ∃ w' a',
    remove_old m cutoff l n w =
      (inr (n + Z.of_nat (length (filter (λ s, (LastUsedAt s < cutoff)%Z) l)))%Z, w') ∧
    clock w' = clock w ∧
    FS.get (sessionsDir m) (fs w') = Some (FS.Dir a') ∧
    (∀ s, s ∈ l → (LastUsedAt s < cutoff)%Z → a' !! file_name (ID s) = None) ∧
    (∀ k, (∀ s, s ∈ l → (LastUsedAt s < cutoff)%Z → k ≠ file_name (ID s)) →
          a' !! k = a !! k) ∧
    (∀ k x, a' !! k = Some x → a !! k = Some x) ∧
    (∀ q, FS.apart (sessionsDir m) q → FS.get q (fs w') = FS.get q (fs w)).
Proof.
  induction l as [|s l IH]; intros n w a Hdir Hnd Hl.
  - exists w, a. cbn [remove_old]. rewrite filter_nil. cbn [length].
    unfold ret. rewrite Z.add_0_r. split_and!; try done.
    intros s Hs. by apply elem_of_nil in Hs.
  - rewrite fmap_cons in Hnd. apply NoDup_cons in Hnd as [Hs Hnd].
    destruct (Hl s) as [Hid Hfile]; [apply list_elem_of_here|].
    cbn [remove_old]. unfold Before.
    destruct (Z.ltb_spec (LastUsedAt s) cutoff) as [Hold|Hnew].
    + unfold Delete, OS.Remove, OS.sys. rewrite sessionPath_plain by done.
      rewrite FS.Remove_eq by apply FS.snoc_ne_nil.
      rewrite (FS.get_snoc_dir _ _ _ _ Hdir).
      fold (file_name (ID s)).
      destruct (a !! file_name (ID s)) as [[data|sub]|] eqn:Ha; try done.
      destruct (IH (n + 1)%Z
                   (set_fs (FS.del (sessionsDir m ++ [file_name (ID s)]) (fs w)) w)
                   (delete (file_name (ID s)) a))
        as (w' & a' & Hrun & Hclock & Hdir' & Hgone & Hrest & Hsub & Hframe).
      * rewrite fs_set_fs. by apply get_del_child.
      * done.
      * intros s' Hs'. destruct (Hl s') as [Hid' Hfile']; [by apply list_elem_of_further|].
        split; [done|]. rewrite lookup_delete_ne; [done|].
        intros E. apply file_name_inj in E. apply Hs. rewrite E.
        by apply list_elem_of_fmap_2.
      * exists w', a'. rewrite filter_cons_True by done. cbn [length].
        rewrite Hrun. split_and!.
        -- do 2 f_equal. lia.
        -- done.
        -- done.
        -- intros s' Hs' Hold'. apply elem_of_cons in Hs' as [->|Hs']; [|by apply Hgone].
           destruct (a' !! file_name (ID s)) as [x|] eqn:E; [|done].
           apply Hsub in E. by rewrite lookup_delete_eq in E.
        -- intros k Hk. rewrite Hrest.
           ++ apply lookup_delete_ne. intros E. by apply (Hk s); [apply list_elem_of_here|..].
           ++ intros s' Hs'. apply Hk. by apply list_elem_of_further.
        -- intros k x Hk. apply Hsub in Hk. by apply lookup_delete_Some in Hk as [_ ?].
        -- intros q Hq. rewrite Hframe by done. rewrite fs_set_fs. unfold FS.del.
           apply FS.get_palter_apart. apply FS.apart_sym, FS.apart_snoc.
           by apply FS.apart_sym.
    + destruct (IH n w a) as (w' & a' & Hrun & Hclock & Hdir' & Hgone & Hrest & Hsub & Hframe).
      * done.
      * done.
      * intros s' Hs'. apply Hl. by apply list_elem_of_further.
      * exists w', a'. rewrite filter_cons_False by lia. rewrite Hrun.
        split_and!; try done.
        -- intros s' Hs' Hold'. apply elem_of_cons in Hs' as [->|Hs']; [lia|by apply Hgone].
        -- intros k Hk. apply Hrest. intros s' Hs'. apply Hk. by apply list_elem_of_further.
Qed.

(** In a tidy store no two files hold sessions of one identifier. *)
Lemma tidy_NoDup (L : list (string * FS.node)) :
  NoDup L.*1 →
  (∀ e s, e ∈ L → session_of e = Some s → e.1 = file_name (ID s)) →
  NoDup (ID <$> omap session_of L).
Proof.
  induction L as [|e L IH]; intros Hnd HL; [constructor|].
  rewrite fmap_cons in Hnd. apply NoDup_cons in Hnd as [He Hnd].
  cbn [omap list_omap].
  assert (IH' : NoDup (ID <$> omap session_of L)).
  { apply IH; [done|]. intros e' s' He'. apply HL. by apply list_elem_of_further. }
  destruct (session_of e) as [s|] eqn:Es; [|done].
  rewrite fmap_cons. apply NoDup_cons. split; [|done].
  intros Hin. apply list_elem_of_fmap in Hin as (s' & Hid & Hs').
  apply list_elem_of_omap in Hs' as (e' & He' & Es').
  apply He. apply list_elem_of_fmap. exists e'. split; [|done].
  rewrite (HL e s) by (done || apply list_elem_of_here).
  rewrite (HL e' s') by (done || by apply list_elem_of_further).
  by rewrite Hid.
Qed.

Lemma session_of_Some (name : string) (node : FS.node) (s : Session) :
  session_of (name, node) = Some s ↔
  ∃ data, node = FS.File data ∧ Str.HasSuffix name ".json" = true ∧
          json_Unmarshal data = Some s.
Proof.
  unfold session_of. cbn [fst snd]. destruct node as [data|sub].
  - destruct (Str.HasSuffix name ".json"); split.
    + eauto.
    + by intros (? & [= <-] & _ & ?).
    + done.
    + by intros (? & _ & ? & _).
  - split; [done|]. by intros (? & ? & _).
Qed.

(** What [List] returns on a tidy store. *)
Lemma List_tidy (m : Manager) (w : World) (mm : gmap string FS.node) :
  FS.get (sessionsDir m) (fs w) = Some (FS.Dir mm) → tidy mm →
  ∃ l, List m w = inr l ∧ Sorted more_recent l ∧ NoDup (ID <$> l) ∧
       (∀ s, s ∈ l ↔ ∃ data, mm !! file_name (ID s) = Some (FS.File data) ∧
                             json_Unmarshal data = Some s) ∧
       (∀ s, s ∈ l → no_slash (ID s)).
Proof.
  intros Hdir [Hplain Htidy].
  destruct (List_of_dir m w mm Hdir Hplain) as (l & Hl & Hsorted & Hperm & Hin).
  assert (Hin' : ∀ s, s ∈ l ↔ ∃ data, mm !! file_name (ID s) = Some (FS.File data) ∧
                                     json_Unmarshal data = Some s).
  { intros s. rewrite Hin. split.
    - intros (name & data & Hmm & Hsuf & Hs).
      rewrite <-(Htidy name data s Hmm Hsuf Hs). eauto.
    - intros (data & Hmm & Hs). exists (file_name (ID s)), data.
      split_and!; [done| |done]. apply HasSuffix_append. }
  exists l. split_and!; try done.
  - rewrite Hperm. apply tidy_NoDup; [apply NoDup_fst_map_to_list|].
    intros [name node] s He Hs. apply elem_of_map_to_list in He.
    apply session_of_Some in Hs as (data & -> & Hsuf & Hs).
    by apply (Htidy name data s).
  - intros s Hs. apply Hin' in Hs as (data & Hmm & _).
    apply no_slash_file_name. apply Hplain. by eexists.
Qed.

Lemma tidy_subseteq (a a' : gmap string FS.node) :
  (∀ k x, a' !! k = Some x → a !! k = Some x) → tidy a → tidy a'.
Proof.
  intros Hsub [Hplain Htidy]. split.
  - intros name [x Hx]. apply Hplain. exists x. by apply Hsub.
  - intros name data s Hn. apply Htidy. by apply Hsub.
Qed.


(** *** The portable path *)

Lemma split_slash (s : string) :
  Str.split "/" (String.append "/" s) = "" :: Str.split "/" s.
Proof. done. Qed.

Lemma split_join (cs : list string) :
  cs ≠ [] → Forall no_slash cs → Str.split "/" (join_slash cs) = cs.
Proof.
  induction cs as [|c [|c' rest] IH]; intros Hne Hcs; [done|..].
  - apply Forall_cons in Hcs as [Hc _]. cbn [join_slash]. by rewrite split_plain.
  - apply Forall_cons in Hcs as [Hc Hcs].
    change (join_slash (c :: c' :: rest))
      with (String.append c (String.append "/" (join_slash (c' :: rest)))).
    rewrite Update.split_append by done. rewrite split_slash. cbn [hd tl].
    rewrite Update.append_empty. by rewrite IH.
Qed.

Lemma clean_plain (rooted : bool) (stack : list string) (c : string) :
  plain c → clean_component rooted stack c = stack ++ [c].
Proof.
  intros (H1 & H2 & H3 & _). unfold clean_component.
  by rewrite (proj2 (String.eqb_neq _ _) H1), (proj2 (String.eqb_neq _ _) H2),
    (proj2 (String.eqb_neq _ _) H3).
Qed.

Lemma clean_all_plain (rooted : bool) (cs stack : list string) :
  Forall plain cs → fold_left (clean_component rooted) cs stack = stack ++ cs.
Proof.
  revert stack. induction cs as [|c cs IH]; intros stack Hcs.
  - by rewrite app_nil_r.
  - apply Forall_cons in Hcs as [Hc Hcs]. cbn [fold_left].
    rewrite clean_plain by done. rewrite IH by done. by rewrite <-app_assoc.
Qed.

Lemma plain_no_slash (cs : list string) : Forall plain cs → Forall no_slash cs.
Proof. intros H. eapply Forall_impl; [exact H|]. by intros c (_ & _ & _ & ?). Qed.

(** A path of plain components begins with a byte that is no slash. *)
Lemma join_begins (c : string) (rest : list string) :
  plain c →
  ∃ x r, join_slash (c :: rest) = String x r ∧ x ≠ "/"%char.
Proof.
  intros (Hne & _ & _ & Hns). destruct c as [|x c]; [done|].
  apply Forall_cons in Hns as [Hx _].
  destruct rest as [|c' rest]; cbn [join_slash]; eauto.
Qed.

Lemma Clean_relative (cs : list string) :
  cs ≠ [] → Forall plain cs → Clean (join_slash cs) = join_slash cs.
Proof.
  intros Hne Hcs. destruct cs as [|c rest]; [done|].
  pose proof Hcs as Hc. apply Forall_cons in Hc as [Hc _].
  destruct (join_begins c rest Hc) as (x & r & E & Hx).
  unfold Clean.
  rewrite split_join by (done || by apply plain_no_slash).
  rewrite clean_all_plain by done. cbn [app].
  rewrite E. unfold Str.HasPrefix. cbn [String.prefix].
  destruct (ascii_dec "/" x) as [<-|_]; [done|].
  by change (String.append "" (String x r)) with (String x r).
Qed.

Lemma HasPrefix_slash (s : string) : Str.HasPrefix (String.append "/" s) "/" = true.
Proof.
  unfold Str.HasPrefix. change (String.append "/" s) with (String "/" s).
  cbn [String.prefix]. destruct (ascii_dec "/" "/") as [_|H]; [|done].
  by destruct s.
Qed.

Lemma Clean_absolute (cs : list string) :
  Forall plain cs →
  Clean (String.append "/" (join_slash cs)) = String.append "/" (join_slash cs).
Proof.
  intros Hcs. unfold Clean.
  rewrite HasPrefix_slash. rewrite split_slash. destruct cs as [|c rest].
  - done.
  - rewrite split_join by (done || by apply plain_no_slash).
    assert (fold_left (clean_component true) ("" :: c :: rest) [] = c :: rest) as ->.
    { change (fold_left (clean_component true) ("" :: c :: rest) [])
        with (fold_left (clean_component true) (c :: rest) []).
      by rewrite clean_all_plain. }
    done.
Qed.

Lemma Join_two (a b : string) :
  plain a → plain b → Join [a; b] = String.append a (String.append "/" b).
Proof.
  intros Ha Hb. unfold Join.
  rewrite filter_cons_True by apply Ha. rewrite filter_cons_True by apply Hb.
  rewrite filter_nil.
  rewrite Clean_relative; [done|done|].
  apply Forall_cons_2; [done|]. by apply Forall_singleton.
Qed.

Lemma last_two {A} (x : A) (l : list A) (a b : A) :
  let parts := l ++ [a; b] in
  parts !! (length parts - 2) = Some a ∧ parts !! (length parts - 1) = Some b.
Proof.
  cbv zeta. rewrite length_app. cbn [length].
  replace (length l + 2 - 2) with (length l + 0) by lia.
  replace (length l + 2 - 1) with (length l + 1) by lia.
  by rewrite !lookup_app_r, !Nat.add_sub' by lia.
Qed.

(** [extractRelativePath].  Of a path of plain components, from the root
    or not, it returns the last two components with a slash between
    them; of a path of one component, that component.  Of the root it
    returns the empty string, and of the empty string a dot. *)
Theorem extractRelativePath_last_two (dirs : list string) (a b : string) :
  extractRelativePath "/" = "" ∧
  extractRelativePath "" = "." ∧
  (plain a →
   extractRelativePath a = a ∧ extractRelativePath (String.append "/" a) = a) ∧
  (Forall plain (dirs ++ [a; b]) →
   extractRelativePath (join_slash (dirs ++ [a; b])) =
     String.append a (String.append "/" b) ∧
   extractRelativePath (String.append "/" (join_slash (dirs ++ [a; b]))) =
     String.append a (String.append "/" b)).
Proof.
  split_and!; [done|done|..].
  - intros Ha.
    assert (Hrel : Clean a = a).
    { apply (Clean_relative [a]); [done|by apply Forall_singleton]. }
    assert (Habs : Clean (String.append "/" a) = String.append "/" a).
    { apply (Clean_absolute [a]). by apply Forall_singleton. }
    split.
    + unfold extractRelativePath. rewrite Hrel.
      rewrite split_plain by apply Ha. done.
    + unfold extractRelativePath. rewrite Habs.
      rewrite split_slash, split_plain by apply Ha.
      cbn [length Nat.leb Nat.sub lookup list_lookup default].
      unfold Join. rewrite filter_cons_False by (by intros H; apply H).
      rewrite filter_cons_True by apply Ha. rewrite filter_nil.
      exact Hrel.
  - intros Hcs.
    assert (Hne : dirs ++ [a; b] ≠ []) by (by destruct dirs).
    assert (Ha : plain a ∧ plain b).
    { apply Forall_app in Hcs as [_ H]. apply Forall_cons in H as [Ha H].
      by apply Forall_cons in H as [Hb _]. }
    destruct Ha as [Ha Hb].
    split.
    + unfold extractRelativePath. rewrite Clean_relative by done.
      rewrite split_join by (done || by apply plain_no_slash).
      destruct (last_two "" dirs a b) as [E1 E2]. cbv zeta in E1, E2.
      rewrite E1, E2. cbn [default].
      rewrite (proj2 (Nat.leb_le 2 _)) by (rewrite length_app; cbn; lia).
      by apply Join_two.
    + unfold extractRelativePath. rewrite Clean_absolute by done.
      rewrite split_slash. rewrite split_join by (done || by apply plain_no_slash).
      destruct (last_two "" ("" :: dirs) a b) as [E1 E2]. cbv zeta in E1, E2.
      change (("" :: dirs) ++ [a; b]) with ("" :: dirs ++ [a; b]) in E1, E2.
      rewrite E1, E2. cbn [default].
      rewrite (proj2 (Nat.leb_le 2 _)) by (cbn [length]; rewrite length_app; cbn; lia).
      by apply Join_two.
Qed.

End WithLibraries.

End Session.

(** ** A model of what the session manager assumes

    A stand-in for encoding/json on sessions, a host and a stick to try
    the manager on. *)

Module SessionModel.

Import Session.

#[local] Instance ProjectRef_eq_dec : EqDecision ProjectRef.
Proof. solve_decision. Defined.

#[local] Instance ProjectRef_countable : Countable ProjectRef :=
  inj_countable' (λ p, (OriginalPath p, RelativePath p, RemappedPath p))
                 (λ '(a, b, c), mkProjectRef a b c)
                 (λ p, match p with mkProjectRef _ _ _ => eq_refl end).

#[local] Instance Permission_eq_dec : EqDecision Permission.
Proof. solve_decision. Defined.

#[local] Instance Permission_countable : Countable Permission :=
  inj_countable' (λ p, (Tool p, Pattern p, GrantedAt p))
                 (λ '(a, b, c), mkPermission a b c)
                 (λ p, match p with mkPermission _ _ _ => eq_refl end).

#[local] Instance Session_eq_dec : EqDecision Session.
Proof. solve_decision. Defined.

#[local] Instance Session_countable : Countable Session :=
  inj_countable'
    (λ s, (ID s, CreatedAt s, LastUsedAt s, HostMachine s,
           (Platform s, Project s, Summary s, Permissions s)))
    (λ '(a, b, c, d, (e, f, g, h)), mkSession a b c d e f g h)
    (λ s, match s with mkSession _ _ _ _ _ _ _ _ => eq_refl end).

(** The document of a session. *)
Definition blob (s : Session) : bytes := VaultModel.pos_bytes (encode s).

Definition json_MarshalIndent (s : Session) : option bytes := Some (blob s).

Definition json_Unmarshal (b : bytes) : option Session :=
  p ← VaultModel.bytes_pos b; decode p.

Lemma Unmarshal_blob (s : Session) : json_Unmarshal (blob s) = Some s.
Proof.
  unfold json_Unmarshal, blob. rewrite VaultModel.bytes_pos_bytes.
  cbn [mbind option_bind]. apply decode_encode.
Qed.

Definition hostname : string := "laptop".
Definition plat : string := "linux-amd64".

Local Abbreviation Save := (Session.Save json_MarshalIndent).
Local Abbreviation Load := (Session.Load json_Unmarshal).
Local Abbreviation List := (Session.List json_Unmarshal).
Local Abbreviation Cleanup := (Session.Cleanup json_Unmarshal).
Local Abbreviation Create := (Session.Create json_MarshalIndent hostname plat).
Local Abbreviation RemapProjectPath :=
  (Session.RemapProjectPath json_MarshalIndent hostname plat).

Definition manager : Manager := {| sessionsDir := ["media"; "usb"; "sessions"] |}.

(** A stick without sessions, and a project on the host. *)
Definition stick : World :=
  {| fs := FS.Dir (<[ "home" := FS.Dir {[ "u" := FS.Dir {[ "proj" := FS.Dir ∅ ]} ]} ]>
                   {[ "media" := FS.Dir {[ "usb" := FS.Dir ∅ ]} ]});
     entropy := []; clock := 41%Z |}.

Definition draft : Session :=
  {| ID := "session-7"; CreatedAt := 7%Z; LastUsedAt := 7%Z;
     HostMachine := "desktop"; Platform := "darwin-arm64";
     Project := {| OriginalPath := "/Users/u/proj"; RelativePath := "u/proj";
                   RemappedPath := "/Users/u/proj" |};
     Summary := "New session"; Permissions := [] |}.

(** The stick with its sessions directory made. *)
Definition made : FS.node :=
  default (fs stick) (FS.mkdirAll (sessionsDir manager) (fs stick)).

Lemma no_slash_check (s : string) :
  forallb (λ c, negb (Ascii.eqb c "/")) (list_ascii_of_string s) = true →
  no_slash s.
Proof.
  intros H. apply Forall_forall. intros c Hc.
  rewrite forallb_forall in H. apply list_elem_of_In in Hc.
  apply H in Hc. apply negb_true_iff in Hc. by apply Ascii.eqb_neq in Hc.
Qed.

Lemma Save_then_Load_witness :
  ∃ w', Save manager (draft, stick) = (inr tt, (set_LastUsedAt 41 draft, w')) ∧
        Load manager "session-7" w' = inr (set_LastUsedAt 41 draft).
Proof.
  destruct (Save_then_Load json_MarshalIndent json_Unmarshal manager draft stick
              made (blob (set_LastUsedAt 41 draft)))
    as (w' & HS & _ & HL & _).
  - apply no_slash_check. reflexivity.
  - vm_compute. reflexivity.
  - vm_compute. reflexivity.
  - reflexivity.
  - exists w'. split; [exact HS|]. apply HL. apply Unmarshal_blob.
Defined.


Lemma RemapProjectPath_effect_witness :
  ∃ s' w',
    RemapProjectPath manager "/home/u/proj" (draft, stick) = (inr tt, (s', w')) ∧
    RemappedPath (Project s') = "/home/u/proj" ∧
    OriginalPath (Project s') = "/Users/u/proj" ∧
    HostMachine s' = "laptop" ∧
    Load manager "session-7" w' = inr s'.
Proof.
  destruct (proj2 (RemapProjectPath_effect json_MarshalIndent json_Unmarshal
                      hostname plat manager "/home/u/proj" draft stick)
               made (blob (set_LastUsedAt 41 (set_remap hostname plat "/home/u/proj" draft))))
    as (w' & HR & Hp & Hh & _ & _ & _ & _ & Ho & _ & _ & _ & _ & HL).
  - vm_compute. discriminate.
  - apply no_slash_check. reflexivity.
  - vm_compute. reflexivity.
  - vm_compute. reflexivity.
  - reflexivity.
  - eexists _, w'. split; [exact HR|]. split; [exact Hp|]. split; [exact Ho|].
    split; [exact Hh|]. apply HL. apply Unmarshal_blob.
Defined.

(** *** A stick with sessions *)

Definition old_session : Session :=
  {| ID := "a"; CreatedAt := 10%Z; LastUsedAt := 1000%Z;
     HostMachine := "desktop"; Platform := "darwin-arm64";
     Project := {| OriginalPath := "/Users/u/proj"; RelativePath := "u/proj";
                   RemappedPath := "/Users/u/proj" |};
     Summary := "New session"; Permissions := [] |}.

Definition new_session : Session :=
  {| ID := "b"; CreatedAt := 20%Z; LastUsedAt := 1900%Z;
     HostMachine := "laptop"; Platform := "linux-amd64";
     Project := {| OriginalPath := "/home/u/proj"; RelativePath := "u/proj";
                   RemappedPath := "/home/u/proj" |};
     Summary := "New session"; Permissions := [] |}.

(** Two sessions, a file that is no session, a file that does not decode
    and a directory. *)
Definition files (a b : bytes) : gmap string FS.node :=
  <[ "a.json" := FS.File a ]>
  (<[ "b.json" := FS.File b ]>
  (<[ "notes.txt" := FS.File [] ]>
  (<[ "torn.json" := FS.File [Byte.x7b] ]>
  {[ "tmp" := FS.Dir ∅ ]}))).

Definition shelf_fs (mm : gmap string FS.node) : FS.node :=
  FS.Dir {[ "media" := FS.Dir {[ "usb" := FS.Dir {[ "sessions" := FS.Dir mm ]} ]} ]}.

Definition on_shelf : gmap string FS.node :=
  files (blob old_session) (blob new_session).

Definition shelf : World :=
  {| fs := shelf_fs on_shelf; entropy := []; clock := 2000%Z |}.

Lemma shelf_get (mm : gmap string FS.node) :
  FS.get (sessionsDir manager) (shelf_fs mm) = Some (FS.Dir mm).
Proof. reflexivity. Qed.

Lemma files_lookup (a b : bytes) (name : string) (n : FS.node) :
  files a b !! name = Some n ↔
  (name = "a.json" ∧ n = FS.File a) ∨ (name = "b.json" ∧ n = FS.File b) ∨
  (name = "notes.txt" ∧ n = FS.File []) ∨
  (name = "torn.json" ∧ n = FS.File [Byte.x7b]) ∨
  (name = "tmp" ∧ n = FS.Dir ∅).
Proof.
  unfold files. rewrite !lookup_insert_Some, lookup_singleton_Some.
  split.
  - intros [[<- <-]|[_ [[<- <-]|[_ [[<- <-]|[_ [[<- <-]|[_ [<- <-]]]]]]]]]; tauto.
  - intros [[-> ->]|[[-> ->]|[[-> ->]|[[-> ->]|[-> ->]]]]].
    + by left.
    + right. split; [done|]. by left.
    + right. split; [done|]. right. split; [done|]. by left.
    + right. split; [done|]. right. split; [done|]. right. split; [done|]. by left.
    + right. split; [done|]. right. split; [done|]. right. split; [done|].
      right. by split.
Qed.

Lemma plain_check (name : string) :
  name ≠ "" → name ≠ "." → name ≠ ".." →
  forallb (λ c, negb (Ascii.eqb c "/")) (list_ascii_of_string name) = true →
  plain name.
Proof. intros. split_and!; [done..|]. by apply no_slash_check. Qed.

Lemma shelf_tidy : tidy json_Unmarshal on_shelf.
Proof.
  split.
  - intros name [n Hn]. apply files_lookup in Hn.
    destruct Hn as [[-> _]|[[-> _]|[[-> _]|[[-> _]|[-> _]]]]];
      by apply plain_check.
  - intros name data s Hn Hsuf Hs. apply files_lookup in Hn.
    destruct Hn as [[-> Hd]|[[-> Hd]|[[-> Hd]|[[-> Hd]|[-> Hd]]]]];
      try discriminate Hsuf; try discriminate Hd; injection Hd as ->.
    + rewrite Unmarshal_blob in Hs. by injection Hs as <-.
    + rewrite Unmarshal_blob in Hs. by injection Hs as <-.
    + discriminate Hs.
Qed.

Lemma shelf_Load_a : Load manager "a" shelf = inr old_session.
Proof.
  apply Load_get. exists (blob old_session). split; [|apply Unmarshal_blob].
  rewrite sessionPath_plain by (apply no_slash_check; reflexivity).
  rewrite (FS.get_snoc_dir _ _ _ _ (shelf_get on_shelf)).
  apply files_lookup. by left.
Qed.

Lemma shelf_Load_b : Load manager "b" shelf = inr new_session.
Proof.
  apply Load_get. exists (blob new_session). split; [|apply Unmarshal_blob].
  rewrite sessionPath_plain by (apply no_slash_check; reflexivity).
  rewrite (FS.get_snoc_dir _ _ _ _ (shelf_get on_shelf)).
  apply files_lookup. right. by left.
Qed.

Lemma Delete_then_Load_witness :
  ∃ w', Delete manager "a" shelf = (inr tt, w') ∧
        Load manager "a" w' =
          inl (Wrapped "failed to load session" (OsError FS.ENOENT)) ∧
        Load manager "b" w' = inr new_session.
Proof.
  destruct (proj1 (Delete_then_Load json_Unmarshal manager "a" shelf
                     (no_slash_check "a" eq_refl))
              old_session shelf_Load_a)
    as (w' & HD & HL & Hrest).
  exists w'. split; [exact HD|]. split; [exact HL|].
  apply Hrest; [apply no_slash_check; reflexivity|discriminate|apply shelf_Load_b].
Defined.

(** The sessions on the shelf. *)
Lemma on_shelf_sessions (s : Session) :
  (∃ name data, on_shelf !! name = Some (FS.File data) ∧
                Str.HasSuffix name ".json" = true ∧
                json_Unmarshal data = Some s) ↔
  s = new_session ∨ s = old_session.
Proof.
  split.
  - intros (name & data & Hn & Hsuf & Hs). apply files_lookup in Hn.
    destruct Hn as [[-> Hd]|[[-> Hd]|[[-> Hd]|[[-> Hd]|[-> Hd]]]]];
      try discriminate Hsuf; try discriminate Hd; injection Hd as ->.
    + rewrite Unmarshal_blob in Hs. injection Hs as <-. by right.
    + rewrite Unmarshal_blob in Hs. injection Hs as <-. by left.
    + discriminate Hs.
  - intros [->| ->].
    + exists "b.json", (blob new_session). split_and!;
        [apply files_lookup; right; by left|reflexivity|apply Unmarshal_blob].
    + exists "a.json", (blob old_session). split_and!;
        [apply files_lookup; by left|reflexivity|apply Unmarshal_blob].
Qed.

Lemma List_lists_witness :
  List manager stick = inr [] ∧
  ∃ l, List manager shelf = inr l ∧
       Sorted more_recent l ∧
       (∀ s, s ∈ l ↔ s = new_session ∨ s = old_session).
Proof.
  destruct (List_lists json_Unmarshal manager stick) as (Hnone & _ & _).
  destruct (List_lists json_Unmarshal manager shelf) as (_ & _ & Hdir).
  split.
  - apply (Hnone ["media"; "usb"] "sessions"); reflexivity.
  - destruct (Hdir on_shelf (shelf_get on_shelf)) as (l & Hl & Hsorted & _ & Hin).
    + apply shelf_tidy.
    + exists l. split; [exact Hl|]. split; [exact Hsorted|].
      intros s. rewrite Hin. apply on_shelf_sessions.
Defined.

Lemma shelf_listed (l : list Session) :
  List manager shelf = inr l → l ≡ₚ [new_session; old_session].
Proof.
  intros Hl.
  destruct (List_tidy json_Unmarshal manager shelf on_shelf (shelf_get on_shelf)
              shelf_tidy)
    as (l0 & Hl0 & _ & Hnd & Hin & _).
  rewrite Hl in Hl0. injection Hl0 as <-.
  apply NoDup_Permutation.
  - by apply NoDup_fmap_1 in Hnd.
  - apply (bool_decide_unpack _). vm_compute. exact I.
  - intros s.
    assert (H : s ∈ l ↔ s = new_session ∨ s = old_session).
    { rewrite Hin. split.
      - intros (data & Hn & Hs).
        apply on_shelf_sessions. exists (file_name (ID s)), data.
        split_and!; [done|apply HasSuffix_append|done].
      - intros Hs. apply on_shelf_sessions in Hs as (name & data & Hn & Hsuf & Hs).
        exists data. split; [|done].
        by rewrite <-(proj2 shelf_tidy name data s Hn Hsuf Hs). }
    rewrite H, !elem_of_cons, elem_of_nil. tauto.
Qed.


(** *** The portable path of a project *)

Lemma extractRelativePath_last_two_witness :
  extractRelativePath "/home/u/proj" = "u/proj" ∧
  extractRelativePath "/Users/me/src/claude-go" = "src/claude-go".
Proof.
  assert (H1 : Forall plain (["home"] ++ ["u"; "proj"])).
  { repeat (apply Forall_cons_2; [by apply plain_check|]). apply Forall_nil_2. }
  assert (H2 : Forall plain (["Users"; "me"] ++ ["src"; "claude-go"])).
  { repeat (apply Forall_cons_2; [by apply plain_check|]). apply Forall_nil_2. }
  split.
  - exact (proj2 (proj2 (proj2 (proj2
             (extractRelativePath_last_two ["home"] "u" "proj"))) H1)).
  - exact (proj2 (proj2 (proj2 (proj2
             (extractRelativePath_last_two ["Users"; "me"] "src" "claude-go"))) H2)).
Defined.

End SessionModel.

(** ** internal/auth *)

Module Auth.

Local Open Scope go_scope.

Inductive error :=
  | VaultError (e : Vault.error)
  | SerializeError
  | ParseError
  | UnknownType (type : string)
  | Wrapped (msg : string) (cause : error).

(** Provider represents an authentication provider *)
Definition ProviderClaudeAI : string := "claudeai".
Definition ProviderConsole : string := "console".
Definition ProviderBedrock : string := "bedrock".
Definition ProviderVertex : string := "vertex".

(** OAuthData stores OAuth token information *)
Record OAuthData := mkOAuthData {
  AccessToken : string;
  RefreshToken : string;
  TokenType : string;
  ExpiresAt : Z;
  Scope : string;
}.

(** [time.Minute], in nanoseconds. *)
Definition Minute : Z := 60000000000%Z.

Definition After (t u : Z) : bool := (u <? t)%Z.

(** [fmt.Sprintf("auth/%s", provider)] *)
Definition entry_id (provider : string) : string := String.append "auth/" provider.

Section WithLibraries.

(** The vault's libraries, and encoding/json on the two payloads. *)
Variable gcm_Seal : bytes → bytes → bytes → bytes.
Variable json_Marshal : option Vault.vaultData → option bytes.
Variable json_Marshal_APIKey : string → option bytes.
Variable json_Unmarshal_APIKey : bytes → option string.
Variable json_Unmarshal_OAuth : bytes → option OAuthData.

Local Abbreviation SetEntry := (Vault.SetEntry gcm_Seal json_Marshal).

(** SetAPIKey stores an API key in the vault *)
Definition SetAPIKey (provider apiKey : string) : M error (Vault.Vault * World) unit :=
  match json_Marshal_APIKey apiKey with
  | None => fail (Wrapped "failed to serialize API key" SerializeError)
  | Some data =>
      let entry :=
        {| Vault.ID := entry_id provider;
           Vault.Type_ := Vault.CredentialAPIKey;
           Vault.Provider := provider;
           Vault.Data := data;
           Vault.CreatedAt := 0%Z; Vault.UpdatedAt := 0%Z;
           Vault.ExpiresAt := None; Vault.Metadata := ∅ |} in
      try_ (λ e, Wrapped "failed to store API key" (VaultError e)) (SetEntry entry)
  end.

(** This would make an actual HTTP request to refresh the token.  For
    now, this is a placeholder *)
Definition refreshToken (provider refresh : string) : M error (Vault.Vault * World) unit :=
  ret tt.

(** GetCredential retrieves credentials for the given provider *)
Definition GetCredential (provider : string) : M error (Vault.Vault * World) string :=
  v <- gets fst ;;
  match Vault.GetEntry (entry_id provider) v with
  | inl e => fail (VaultError e)
  | inr entry =>
      if String.eqb (Vault.Type_ entry) Vault.CredentialOAuth then
        match json_Unmarshal_OAuth (Vault.Data entry) with
        | None => fail (Wrapped "failed to parse OAuth data" ParseError)
        | Some oauthData =>
            now <- on_snd OS.time_Now ;;
            (* Check if token needs refresh *)
            if After now (ExpiresAt oauthData - 5 * Minute)%Z then
              try_ (Wrapped "token refresh failed")
                   (refreshToken provider (RefreshToken oauthData)) ;;;
              (* Re-read the updated entry *)
              v <- gets fst ;;
              match Vault.GetEntry (entry_id provider) v with
              | inl _ => fail (VaultError (Vault.Panic "nil pointer dereference"))
              | inr entry =>
                  ret (AccessToken (default oauthData
                                      (json_Unmarshal_OAuth (Vault.Data entry))))
              end
            else ret (AccessToken oauthData)
        end
      else if String.eqb (Vault.Type_ entry) Vault.CredentialAPIKey then
        match json_Unmarshal_APIKey (Vault.Data entry) with
        | None => fail (Wrapped "failed to parse API key data" ParseError)
        | Some apiKey => ret apiKey
        end
      else fail (UnknownType (Vault.Type_ entry))
  end.

(** HasCredential checks if credentials exist for the given provider *)
Definition HasCredential (provider : string) (v : Vault.Vault) : bool :=
  match Vault.GetEntry (entry_id provider) v with
  | inr _ => true
  | inl _ => false
  end.

(** ListProviders returns all configured authentication providers *)
Definition ListProviders (v : Vault.Vault) : Vault.error + list string :=
  match Vault.ListEntries v with
  | inl e => inl e
  | inr entries =>
      inr (Vault.Provider <$>
           filter (λ entry, Vault.Type_ entry = Vault.CredentialOAuth ∨
                            Vault.Type_ entry = Vault.CredentialAPIKey) entries)
  end.

(** *** What is stored is what is read *)

Lemma entry_id_inj (p q : string) : entry_id p = entry_id q → p = q.
Proof.
  unfold entry_id. intros H. apply (f_equal list_ascii_of_string) in H.
  rewrite !Update.chars_append in H. apply app_inv_head in H.
  rewrite <-(string_of_list_ascii_of_string p), <-(string_of_list_ascii_of_string q).
  by rewrite H.
Qed.

(** A [SetEntry] that returns no error has put the entry, stamped, into
    the state of the handle, and nothing else has changed in the handle. *)
Lemma SetEntry_stores (e : Vault.Entry) (v v' : Vault.Vault) (w w' : World) :
  SetEntry e (v, w) = (inr tt, (v', w')) →
  Vault.unlocked v = true ∧
  ∃ d, Vault.data v = Some d ∧
       v' = Vault.set_data (Some (Vault.with_entry (clock w) e d)) v.
Proof.
  unfold Vault.SetEntry. unfold bind at 1. unfold gets at 1. cbn [fst].
  destruct (Vault.unlocked v) eqn:Hu; [|discriminate]. cbn [negb].
  unfold bind at 1. unfold on_snd at 1, OS.time_Now at 1.
  unfold Vault.with_data. destruct (Vault.data v) as [d|] eqn:Hd; [|discriminate].
  unfold bind at 1. unfold on_fst at 1, modify at 1.
  unfold bind at 1. unfold gets at 1. cbn [fst].
  unfold on_snd.
  destruct (Vault.save gcm_Seal json_Marshal _ _) as [[err|[]] w2]; [discriminate|].
  intros [= <- <-]. split; [done|]. by exists d.
Qed.

(** [SetAPIKey] and [GetCredential].  After a [SetAPIKey] that returned
    no error, [GetCredential] for the provider returns the key (when the
    payload written decodes to it) and changes nothing, [HasCredential]
    holds, [ListProviders] names the provider, and the entries of the
    other providers are as they were.  The key replaces whatever
    credential the provider had, an OAuth token too. *)
Theorem SetAPIKey_then_GetCredential (provider apiKey : string)
    (v v' : Vault.Vault) (w w' : World) (payload : bytes) :
  json_Marshal_APIKey apiKey = Some payload →
  json_Unmarshal_APIKey payload = Some apiKey →
  SetAPIKey provider apiKey (v, w) = (inr tt, (v', w')) →
  GetCredential provider (v', w') = (inr apiKey, (v', w')) ∧
  HasCredential provider v' = true ∧
  (∃ stored, Vault.GetEntry (entry_id provider) v' = inr stored ∧
             Vault.Type_ stored = Vault.CredentialAPIKey ∧
             Vault.Provider stored = provider ∧
             Vault.Data stored = payload ∧
             Vault.CreatedAt stored = clock w ∧ Vault.UpdatedAt stored = clock w) ∧
  (∃ l, ListProviders v' = inr l ∧ provider ∈ l) ∧
  (∀ q, q ≠ provider →
        Vault.GetEntry (entry_id q) v' = Vault.GetEntry (entry_id q) v).
Proof.
  intros Hm Hback Hset. unfold SetAPIKey in Hset. rewrite Hm in Hset.
  unfold try_ in Hset.
  set (entry := {| Vault.ID := entry_id provider;
                   Vault.Type_ := Vault.CredentialAPIKey;
                   Vault.Provider := provider; Vault.Data := payload;
                   Vault.CreatedAt := 0%Z; Vault.UpdatedAt := 0%Z;
                   Vault.ExpiresAt := None; Vault.Metadata := ∅ |}) in *.
  destruct (SetEntry entry (v, w)) as [[err|[]] [v2 w2]] eqn:E; [discriminate|].
  injection Hset as <- <-.
  apply SetEntry_stores in E as (Hu & d & Hd & ->).
  assert (HG : Vault.GetEntry (entry_id provider)
                 (Vault.set_data (Some (Vault.with_entry (clock w) entry d)) v) =
               inr (Vault.stamp (clock w) entry)).
  { unfold Vault.GetEntry. cbn [Vault.unlocked Vault.data Vault.set_data].
    rewrite Hu. cbn [negb Vault.with_entry Vault.Entries].
    change (Vault.ID entry) with (entry_id provider).
    by rewrite lookup_insert_eq. }
  split_and!.
  - unfold GetCredential. unfold bind at 1. unfold gets at 1. cbn [fst].
    rewrite HG. cbn [Vault.stamp Vault.Type_ Vault.Data entry].
    change (String.eqb Vault.CredentialAPIKey Vault.CredentialOAuth) with false.
    change (String.eqb Vault.CredentialAPIKey Vault.CredentialAPIKey) with true.
    cbn match. by rewrite Hback.
  - unfold HasCredential. by rewrite HG.
  - eexists. split; [exact HG|]. done.
  - unfold ListProviders, Vault.ListEntries.
    cbn [Vault.unlocked Vault.data Vault.set_data]. rewrite Hu. cbn [negb].
    eexists. split; [reflexivity|].
    apply list_elem_of_fmap.
    exists {| Vault.ID := entry_id provider; Vault.Type_ := Vault.CredentialAPIKey;
              Vault.Provider := provider; Vault.Data := [];
              Vault.CreatedAt := clock w; Vault.UpdatedAt := clock w;
              Vault.ExpiresAt := None; Vault.Metadata := ∅ |}.
    split; [done|]. apply list_elem_of_filter. split; [by right|].
    apply list_elem_of_fmap. exists (entry_id provider, Vault.stamp (clock w) entry).
    split; [done|]. apply elem_of_map_to_list.
    cbn [Vault.with_entry Vault.Entries].
    change (Vault.ID entry) with (entry_id provider). apply lookup_insert_eq.
  - intros q Hq. unfold Vault.GetEntry.
    cbn [Vault.unlocked Vault.data Vault.set_data]. rewrite Hu, Hd.
    cbn [negb Vault.with_entry Vault.Entries].
    change (Vault.ID entry) with (entry_id provider).
    rewrite lookup_insert_ne; [done|]. intros E. by apply entry_id_inj in E.
Qed.

(** [GetCredential] on what is stored.  On a locked handle and for a
    provider without an entry it returns the error of the vault.  For an
    OAuth entry it returns the access token of the payload and reads the
    clock once; it returns it whether or not the token has expired, since
    the refresh is a placeholder that changes nothing.  For an entry that
    is neither an OAuth token nor an API key it returns the unknown-type
    error.  In none of these cases does it change the handle or the
    disk. *)
Theorem GetCredential_reads (provider : string) (v : Vault.Vault) (w : World) :
  (Vault.unlocked v = false →
   GetCredential provider (v, w) = (inl (VaultError Vault.ErrVaultLocked), (v, w))) ∧
  (∀ d, Vault.unlocked v = true → Vault.data v = Some d →
        Vault.Entries d !! entry_id provider = None →
        GetCredential provider (v, w) =
          (inl (VaultError Vault.ErrEntryNotFound), (v, w)) ∧
        HasCredential provider v = false) ∧
  (∀ entry token,
     Vault.GetEntry (entry_id provider) v = inr entry →
     Vault.Type_ entry = Vault.CredentialOAuth →
     json_Unmarshal_OAuth (Vault.Data entry) = Some token →
     GetCredential provider (v, w) =
       (inr (AccessToken token),
        (v, mkWorld (fs w) (entropy w) (clock w + 1)%Z))) ∧
  (∀ entry,
     Vault.GetEntry (entry_id provider) v = inr entry →
     Vault.Type_ entry ≠ Vault.CredentialOAuth →
     Vault.Type_ entry ≠ Vault.CredentialAPIKey →
     GetCredential provider (v, w) = (inl (UnknownType (Vault.Type_ entry)), (v, w))).
Proof.
  split_and!.
  - intros Hu. unfold GetCredential. unfold bind at 1. unfold gets at 1. cbn [fst].
    unfold Vault.GetEntry. by rewrite Hu.
  - intros d Hu Hd Hn.
    assert (HG : Vault.GetEntry (entry_id provider) v = inl Vault.ErrEntryNotFound).
    { unfold Vault.GetEntry. by rewrite Hu, Hd, Hn. }
    split.
    + unfold GetCredential. unfold bind at 1. unfold gets at 1. cbn [fst].
      by rewrite HG.
    + unfold HasCredential. by rewrite HG.
  - intros entry token HG Ht Htok.
    unfold GetCredential. unfold bind at 1. unfold gets at 1. cbn [fst].
    rewrite HG, Ht, String.eqb_refl, Htok.
    unfold bind at 1. unfold on_snd at 1, OS.time_Now at 1.
    destruct (After (clock w) (ExpiresAt token - 5 * Minute)); [|done].
    unfold bind at 1. unfold try_, refreshToken, ret.
    unfold bind at 1. unfold gets at 1. cbn [fst].
    by rewrite HG, Htok.
  - intros entry HG Ho Hk.
    unfold GetCredential. unfold bind at 1. unfold gets at 1. cbn [fst].
    rewrite HG.
    rewrite (proj2 (String.eqb_neq _ _) Ho), (proj2 (String.eqb_neq _ _) Hk). done.
Qed.

(** [ListProviders] after [ListEntries]: the providers of the entries
    that are OAuth tokens or API keys, one for each such entry, in the
    order in which the vault lists its entries. *)
Theorem ListProviders_lists (v : Vault.Vault) (d : Vault.vaultData) :
  (Vault.unlocked v = false → ListProviders v = inl Vault.ErrVaultLocked) ∧
  (Vault.unlocked v = true → Vault.data v = Some d →
   ∃ l, ListProviders v = inr l ∧
        l ≡ₚ Vault.Provider <$>
               filter (λ e, Vault.Type_ e = Vault.CredentialOAuth ∨
                            Vault.Type_ e = Vault.CredentialAPIKey)
                      (map_to_list (Vault.Entries d)).*2 ∧
        (∀ p, p ∈ l ↔
           ∃ id e, Vault.Entries d !! id = Some e ∧ Vault.Provider e = p ∧
                   (Vault.Type_ e = Vault.CredentialOAuth ∨
                    Vault.Type_ e = Vault.CredentialAPIKey))).
Proof.
  split.
  - intros Hu. unfold ListProviders, Vault.ListEntries. by rewrite Hu.
  - intros Hu Hd. unfold ListProviders, Vault.ListEntries. rewrite Hu, Hd.
    cbn [negb]. eexists. split; [reflexivity|].
    assert (Heq : ∀ L : list (string * Vault.Entry),
      Vault.Provider <$>
        filter (λ e, Vault.Type_ e = Vault.CredentialOAuth ∨
                     Vault.Type_ e = Vault.CredentialAPIKey)
          ((λ kv : string * Vault.Entry,
              let entry := kv.2 in
              {| Vault.ID := Vault.ID entry; Vault.Type_ := Vault.Type_ entry;
                 Vault.Provider := Vault.Provider entry; Vault.Data := [];
                 Vault.CreatedAt := Vault.CreatedAt entry;
                 Vault.UpdatedAt := Vault.UpdatedAt entry;
                 Vault.ExpiresAt := Vault.ExpiresAt entry;
                 Vault.Metadata := Vault.Metadata entry |}) <$> L) =
      Vault.Provider <$>
        filter (λ e, Vault.Type_ e = Vault.CredentialOAuth ∨
                     Vault.Type_ e = Vault.CredentialAPIKey) L.*2).
    { induction L as [|[k e] L IH]; [done|].
      rewrite !fmap_cons. cbn [snd].
      destruct (decide (Vault.Type_ e = Vault.CredentialOAuth ∨
                        Vault.Type_ e = Vault.CredentialAPIKey)) as [H|H].
      - rewrite !filter_cons_True by exact H. rewrite !fmap_cons.
        f_equal. exact IH.
      - rewrite !filter_cons_False by exact H. exact IH. }
    rewrite Heq. split; [done|].
    intros p. rewrite list_elem_of_fmap. split.
    + intros (e & -> & He). apply list_elem_of_filter in He as [Ht He].
      apply list_elem_of_fmap in He as ([k e'] & -> & He).
      apply elem_of_map_to_list in He. by exists k, e'.
    + intros (id & e & He & <- & Ht). exists e. split; [done|].
      apply list_elem_of_filter. split; [done|].
      apply list_elem_of_fmap. exists (id, e). split; [done|].
      by apply elem_of_map_to_list.
Qed.

End WithLibraries.

End Auth.

(** ** The authenticator on the model vault *)

Module AuthModel.

Import Auth.

(** Stand-ins for encoding/json on the payloads: an API key is written as
    its bytes; every OAuth payload decodes to one token, long expired. *)
Definition json_Marshal_APIKey (apiKey : string) : option bytes :=
  Some (String.list_byte_of_string apiKey).

Definition json_Unmarshal_APIKey (b : bytes) : option string :=
  Some (String.string_of_list_byte b).

Definition old_token : OAuthData :=
  {| AccessToken := "at-1"; RefreshToken := "rt-1"; TokenType := "Bearer";
     ExpiresAt := 0%Z; Scope := "claude:read claude:write" |}.

Definition json_Unmarshal_OAuth (b : bytes) : option OAuthData := Some old_token.

Local Abbreviation SetAPIKey :=
  (Auth.SetAPIKey VaultModel.gcm_Seal VaultModel.json_Marshal json_Marshal_APIKey).
Local Abbreviation GetCredential :=
  (Auth.GetCredential json_Unmarshal_APIKey json_Unmarshal_OAuth).

Lemma SetAPIKey_then_GetCredential_witness :
  ∃ v0 w0 v1 w1,
    Vault.Create VaultModel.argon2_IDKey VaultModel.gcm_Seal VaultModel.json_Marshal
      VaultModel.vault_path "first password" VaultModel.machine = (inr v0, w0) ∧
    SetAPIKey "console" "sk-ant-1" (v0, w0) = (inr tt, (v1, w1)) ∧
    GetCredential "console" (v1, w1) = (inr "sk-ant-1", (v1, w1)) ∧
    HasCredential "console" v1 = true ∧
    HasCredential "claudeai" v1 = false.
Proof.
  destruct (Vault.Create_in_sync VaultModel.argon2_IDKey VaultModel.gcm_Seal
              VaultModel.json_Marshal VaultModel.json_Valid VaultModel.derive_len
              VaultModel.Marshal_defined VaultModel.vault_path "first password"
              VaultModel.machine)
    as (v0 & w0 & HC & Hs0 & _ & He0 & _).
  { vm_compute. reflexivity. }
  { vm_compute. lia. }
  destruct (Vault.SetEntry_in_sync VaultModel.argon2_IDKey VaultModel.gcm_Seal
              VaultModel.json_Marshal VaultModel.json_Valid
              VaultModel.Marshal_defined "first password"
              {| Vault.ID := entry_id "console";
                 Vault.Type_ := Vault.CredentialAPIKey;
                 Vault.Provider := "console";
                 Vault.Data := String.list_byte_of_string "sk-ant-1";
                 Vault.CreatedAt := 0%Z; Vault.UpdatedAt := 0%Z;
                 Vault.ExpiresAt := None; Vault.Metadata := ∅ |}
              v0 w0 _ Hs0 eq_refl)
    as (v1 & w1 & HS & _).
  { rewrite He0. vm_compute. lia. }
  assert (Hset : SetAPIKey "console" "sk-ant-1" (v0, w0) = (inr tt, (v1, w1))).
  { unfold Auth.SetAPIKey, json_Marshal_APIKey, try_. by rewrite HS. }
  destruct (SetAPIKey_then_GetCredential VaultModel.gcm_Seal VaultModel.json_Marshal
              json_Marshal_APIKey json_Unmarshal_APIKey json_Unmarshal_OAuth
              "console" "sk-ant-1" v0 v1 w0 w1
              (String.list_byte_of_string "sk-ant-1") eq_refl eq_refl Hset)
    as (HG & HH & _ & _ & Hother).
  exists v0, w0, v1, w1. split; [exact HC|]. split; [exact Hset|].
  split; [exact HG|]. split; [exact HH|].
  unfold HasCredential. rewrite (Hother "claudeai") by discriminate.
  unfold Vault.GetEntry.
  rewrite (Vault.sync_unlocked _ _ _ _ _ _ _ _ Hs0),
    (Vault.sync_data _ _ _ _ _ _ _ _ Hs0). reflexivity.
Defined.

Lemma GetCredential_reads_witness :
  GetCredential "claudeai" (VaultModel.open_handle, VaultModel.open_machine) =
    (inr "at-1",
     (VaultModel.open_handle,
      mkWorld (fs VaultModel.open_machine) (entropy VaultModel.open_machine)
              1700000001%Z)) ∧
  After (clock VaultModel.open_machine) (ExpiresAt old_token - 5 * Minute)%Z = true.
Proof.
  split; [|reflexivity].
  apply (proj1 (proj2 (proj2
           (GetCredential_reads json_Unmarshal_APIKey json_Unmarshal_OAuth
              "claudeai" VaultModel.open_handle VaultModel.open_machine)))
           VaultModel.stored_token old_token); reflexivity.
Defined.

Lemma ListProviders_lists_witness :
  ∃ l, ListProviders VaultModel.open_handle = inr l ∧
       ∀ p, p ∈ l ↔ p = "claudeai".
Proof.
  destruct (proj2 (ListProviders_lists VaultModel.open_handle VaultModel.open_data)
              eq_refl eq_refl)
    as (l & Hl & _ & Hin).
  exists l. split; [exact Hl|]. intros p. rewrite Hin. split.
  - intros (id & e & He & <- & _).
    change (Vault.Entries VaultModel.open_data)
      with ({[ "auth/claudeai" := VaultModel.stored_token ]} : gmap string Vault.Entry) in He.
    apply lookup_singleton_Some in He as [_ <-]. reflexivity.
  - intros ->. exists "auth/claudeai", VaultModel.stored_token.
    split; [|split; [reflexivity|by left]].
    change (Vault.Entries VaultModel.open_data)
      with ({[ "auth/claudeai" := VaultModel.stored_token ]} : gmap string Vault.Entry).
    apply lookup_singleton_eq.
Defined.

End AuthModel.
